(** * Research Paper Finder: the affiliation classifier, the record parser,
      the retrieval client and the pipeline of [research_paper_finder/core.py]

    The development embeds [core.py] shallowly.

    - Text is [list ascii]; the model is meant for 7-bit text, where Python's
      [str.lower], [str.strip], [str.isalpha] and the regular-expression
      classes [\w] and [\s] are the functions below.
    - [re.search] is modelled by a backtracking matcher that enumerates the
      candidate matches at a position in the order in which Python's engine
      tries them.
    - An [xml.etree] element is a tag, an optional text and its children.
    - The network and the clock are an explicit world: a table of replies
      indexed by the number of requests made so far, and a log of the
      requests and sleeps performed. *)

From Stdlib Require Import Ascii String ZArith QArith Lia DecimalString.
From Stdlib Require DecimalN.
From stdpp Require Import base option list sets gmap strings.

Close Scope Q_scope.
Set Warnings "-register-all,-clear-no-such-hyp".
Local Open Scope list_scope.

(** ** Python text primitives *)

Abbreviation str := (list ascii).

Definition lit (s : string) : str := list_ascii_of_string s.

Definition code (c : ascii) : N := N_of_ascii c.

Definition in_range (lo hi : N) (c : ascii) : bool :=
  ((lo <=? code c) && (code c <=? hi))%N.

Definition is_upper (c : ascii) : bool := in_range 65 90 c.
Definition is_lower (c : ascii) : bool := in_range 97 122 c.
Definition is_digit (c : ascii) : bool := in_range 48 57 c.
Definition is_alpha (c : ascii) : bool := is_upper c || is_lower c.

(** [str.isspace] on one character, and the class [\s]:
    TAB, LF, VT, FF, CR, FS, GS, RS, US and the space. *)
Definition is_space (c : ascii) : bool :=
  in_range 9 13 c || in_range 28 32 c.

(** The class [\w]. *)
Definition is_word (c : ascii) : bool :=
  is_alpha c || is_digit c || (code c =? 95)%N.

Definition lower_char (c : ascii) : ascii :=
  if is_upper c then ascii_of_N (code c + 32) else c.

(** [s.lower()] *)
Definition lower (s : str) : str := map lower_char s.

(** [s.isalpha()] *)
Definition isalpha (s : str) : bool :=
  match s with
  | [] => false
  | _ => forallb is_alpha s
  end.

Definition eqb_char (a b : ascii) : bool := Ascii.eqb a b.

(** [s.startswith(k)] *)
Fixpoint startswith (k s : str) : bool :=
  match k, s with
  | [], _ => true
  | _ :: _, [] => false
  | a :: k', b :: s' => eqb_char a b && startswith k' s'
  end.

(** [k in s] *)
Fixpoint contains (k s : str) : bool :=
  startswith k s ||
  match s with
  | [] => false
  | _ :: s' => contains k s'
  end.

Fixpoint lstrip (s : str) : str :=
  match s with
  | [] => []
  | c :: s' => if is_space c then lstrip s' else s
  end.

Definition rstrip (s : str) : str := rev (lstrip (rev s)).

(** [s.strip()] *)
Definition strip (s : str) : str := rstrip (lstrip s).

(** [s.split(sep)] for a one-character separator: the segments between the
    separators, always at least one. *)
Fixpoint split (sep : ascii) (s : str) : list str :=
  match s with
  | [] => [[]]
  | c :: s' =>
      if eqb_char c sep then [] :: split sep s'
      else match split sep s' with
           | [] => [[c]]
           | seg :: segs => (c :: seg) :: segs
           end
  end.

(** [sep.join(parts)] *)
Fixpoint join (sep : str) (parts : list str) : str :=
  match parts with
  | [] => []
  | [p] => p
  | p :: ps => p ++ sep ++ join sep ps
  end.

(** ** The keyword tables *)

Definition PHARMA_BIOTECH_KEYWORDS : list str := map lit
  [ "pharma"; "biotech"; "therapeutics"; "bioscience"; "biopharm";
    "laboratories"; "biopharma"; "pharmaceutical"; "biotechnology";
    "pfizer"; "novartis"; "roche"; "merck"; "johnson & johnson"; "j&j";
    "astrazeneca"; "glaxosmithkline"; "gsk"; "sanofi"; "abbvie";
    "gilead"; "amgen"; "biogen"; "regeneron"; "moderna"; "biontech";
    "vertex"; "alexion"; "genentech"; "boehringer"; "takeda"; "bayer";
    "bristol myers squibb"; "eli lilly"; "novo nordisk"; "inc"; "corp";
    "ltd"; "llc"; "co"; "company"; "corporation" ]%string.

Definition ACADEMIC_KEYWORDS : list str := map lit
  [ "university"; "college"; "school"; "institute of technology";
    "polytechnic"; "academy"; "faculty"; "department of"; "hospital";
    "medical center"; "clinic"; "foundation"; "research institute";
    "national institute"; "laboratory of"; "center for" ]%string.

(** ** The affiliation classifier *)

(** The loop [for keyword in keywords: if keyword in text: return ...]:
    the keyword at which the loop returns, if it does. *)
Fixpoint first_keyword_in (keywords : list str) (text : str) : option str :=
  match keywords with
  | [] => None
  | keyword :: rest =>
      if contains keyword text then Some keyword
      else first_keyword_in rest text
  end.

(** Python's truth value of an optional string: [None] and [""] are false. *)
Definition truthy (s : option str) : bool :=
  match s with
  | None | Some [] => false
  | Some (_ :: _) => true
  end.

Definition is_non_academic_affiliation (affiliation : option str) : bool :=
  match affiliation with
  | None | Some [] => false
  | Some a =>
      let affiliation_lower := lower a in
      match first_keyword_in ACADEMIC_KEYWORDS affiliation_lower with
      | Some _ => false
      | None =>
          match first_keyword_in PHARMA_BIOTECH_KEYWORDS affiliation_lower with
          | Some _ => true
          | None => false
          end
      end
  end.

(** ** Regular expressions, as [re.search] runs them *)

(** The fragment of Python's pattern language that [core.py] uses: character
    classes, literals, concatenation, ordered alternation, the greedy [?] and
    the greedy [+] of a character class. *)
Inductive regex : Type :=
  | Chr (p : ascii -> bool)
  | Lit (w : str)
  | Seq (a b : regex)
  | Alt (a b : regex)
  | Opt (a : regex)
  | Plus (p : ascii -> bool).

(** Length of the longest prefix of [s] whose characters satisfy [p]. *)
Fixpoint span (p : ascii -> bool) (s : str) : nat :=
  match s with
  | c :: s' => if p c then S (span p s') else 0
  | [] => 0
  end.

(** [n; n-1; ...; 1]: a greedy [+] gives back one character at a time. *)
Fixpoint countdown (n : nat) : list nat :=
  match n with
  | 0 => []
  | S m => n :: countdown m
  end.

(** The lengths of the matches of [r] at the start of [s], in the order in
    which the backtracking engine reaches them. *)
Fixpoint matches (r : regex) (s : str) : list nat :=
  match r with
  | Chr p =>
      match s with
      | c :: _ => if p c then [1] else []
      | [] => []
      end
  | Lit w => if startswith w s then [length w] else []
  | Seq a b =>
      n ← matches a s; (Nat.add n) <$> matches b (drop n s)
  | Alt a b => matches a s ++ matches b s
  | Opt a => matches a s ++ [0]
  | Plus p => countdown (span p s)
  end.

(** [re.search(r, s)]: the first match at the leftmost position that has
    one; the result is the matched text ([group(0)]). *)
Fixpoint search (r : regex) (s : str) : option str :=
  match head (matches r s) with
  | Some n => Some (take n s)
  | None =>
      match s with
      | [] => None
      | _ :: s' => search r s'
      end
  end.

Definition is_char (c : ascii) : ascii -> bool := eqb_char c.

Definition alts (first : regex) (others : list regex) : regex :=
  foldl Alt first others.

(** The class [[A-Za-z0-9\-\s]]. *)
Definition name_char (c : ascii) : bool :=
  is_upper c || is_lower c || is_digit c || is_char "-" c || is_space c.

Definition opt_dot (w : string) : regex := Seq (Lit (lit w)) (Opt (Chr (is_char "."))).

(** [(?:Inc\.?|LLC|Ltd\.?|Corp\.?|Corporation|Company|Co\.|GmbH|S\.A\.|B\.V\.|N\.V\.)] *)
Definition legal_suffix : regex :=
  alts (opt_dot "Inc")
    [ Lit (lit "LLC"); opt_dot "Ltd"; opt_dot "Corp"; Lit (lit "Corporation");
      Lit (lit "Company"); Lit (lit "Co."); Lit (lit "GmbH"); Lit (lit "S.A.");
      Lit (lit "B.V."); Lit (lit "N.V.") ].

(** [(?:Pharma(?:ceuticals)?|Biotech(?:nology)?|Therapeutics|Biosciences?)] *)
Definition domain_word : regex :=
  alts (Seq (Lit (lit "Pharma")) (Opt (Lit (lit "ceuticals"))))
    [ Seq (Lit (lit "Biotech")) (Opt (Lit (lit "nology")));
      Lit (lit "Therapeutics");
      Seq (Lit (lit "Bioscience")) (Opt (Lit (lit "s"))) ].

(** [[A-Z][A-Za-z0-9\-\s]+] followed by [tail]; the capturing group of
    both patterns spans the whole match. *)
Definition capitalized_phrase (tail : regex) : regex :=
  Seq (Chr is_upper) (Seq (Plus name_char) tail).

Definition suffix_pattern : regex := capitalized_phrase legal_suffix.
Definition domain_pattern : regex := capitalized_phrase domain_word.

Definition patterns : list regex := [suffix_pattern; domain_pattern].

(** ** Company-name extraction *)

(** [for pattern in patterns: match = re.search(...); if match: return
    match.group(1).strip()] *)
Fixpoint pattern_loop (ps : list regex) (affiliation : str) : option str :=
  match ps with
  | [] => None
  | pattern :: rest =>
      match search pattern affiliation with
      | Some m => Some (strip m)
      | None => pattern_loop rest affiliation
      end
  end.

(** [for keyword in PHARMA_BIOTECH_KEYWORDS:
       if keyword in part_lower and len(part) < 50: return part] *)
Fixpoint keyword_loop (keywords : list str) (part part_lower : str) : option str :=
  match keywords with
  | [] => None
  | keyword :: rest =>
      if contains keyword part_lower && (length part <? 50)
      then Some part
      else keyword_loop rest part part_lower
  end.

Fixpoint parts_loop (affiliation_parts : list str) : option str :=
  match affiliation_parts with
  | [] => None
  | part :: rest =>
      let part := strip part in
      let part_lower := lower part in
      match keyword_loop PHARMA_BIOTECH_KEYWORDS part part_lower with
      | Some r => Some r
      | None => parts_loop rest
      end
  end.

Definition extract_company_name (affiliation : option str) : option str :=
  match affiliation with
  | None | Some [] => None
  | Some a =>
      match pattern_loop patterns a with
      | Some r => Some r
      | None => parts_loop (split "," a)
      end
  end.

(** ** Exceptions and results *)

Inductive exn : Type :=
  | ValueError
  | AttributeError
  | TypeError
  | ValidationError (message : str)
  (** [attempts] requests were made; the payload is that of the last
      failure: its text and, if it carried a response, the status code. *)
  | APIError (attempts : nat) (detail : str) (status : option Z)
  | ParseError
  (** [requests.exceptions.RequestException]; [status] is the status code of
      the response attached to it, if any. *)
  | RequestException (detail : str) (status : option Z)
  (** [xml.etree.ElementTree.ParseError] *)
  | XMLParseError.

Inductive result (A : Type) : Type :=
  | Ok (a : A)
  | Raise (e : exn).
Arguments Ok {A} a.
Arguments Raise {A} e.

Definition is_ok {A} (r : result A) : bool :=
  match r with Ok _ => true | Raise _ => false end.

(** ** Integers read and written as Python does *)

(** The whitespace that [int(s)] skips around the number in 7-bit text. *)
Definition is_int_space (c : ascii) : bool :=
  in_range 9 13 c || (code c =? 32)%N.

Fixpoint skip_int_space (s : str) : str :=
  match s with
  | c :: s' => if is_int_space c then skip_int_space s' else s
  | [] => []
  end.

Definition digit_value (c : ascii) : Z := Z.of_N (code c) - 48.

(** Digits with single underscores between them, then optional whitespace
    to the end; [acc] is the value read so far and [after_digit] tells
    whether the previous character was a digit. *)
Fixpoint int_digits (s : str) (acc : Z) (after_digit : bool) : option Z :=
  match s with
  | [] => if after_digit then Some acc else None
  | c :: s' =>
      if is_digit c then int_digits s' (10 * acc + digit_value c) true
      else if (code c =? 95)%N then
        if after_digit then
          match s' with
          | d :: _ => if is_digit d then int_digits s' acc false else None
          | [] => None
          end
        else None
      else if after_digit && forallb is_int_space s then Some acc
      else None
  end.

(** [int(s)] for a string [s]: [None] stands for [ValueError].  The
    interpreter's cap on the number of digits, which also surfaces as a
    [ValueError], is left out. *)
Definition int_of_str (s : str) : option Z :=
  match skip_int_space s with
  | c :: s' =>
      if is_char "-" c then Z.opp <$> int_digits s' 0 false
      else if is_char "+" c then int_digits s' 0 false
      else int_digits (c :: s') 0 false
  | [] => None
  end.

(** [str(n)] for a natural number. *)
Definition decimal (n : Z) : str :=
  lit (DecimalString.NilZero.string_of_uint (N.to_uint (Z.to_N n))).

(** [str(n)] for any integer. *)
Definition str_of_int (n : Z) : str :=
  if (n <? 0)%Z then lit "-" ++ decimal (- n) else decimal n.

(** [f"{n:02d}"]: at least two characters, the sign counting as one. *)
Definition format_02d (n : Z) : str :=
  if (n <? 0)%Z then lit "-" ++ decimal (- n)
  else if (n <? 10)%Z then lit "0" ++ decimal n
  else decimal n.

Definition month_abbreviations : list str := map lit
  [ "jan"; "feb"; "mar"; "apr"; "may"; "jun";
    "jul"; "aug"; "sep"; "oct"; "nov"; "dec" ]%string.

Fixpoint index_of (x : str) (l : list str) (i : nat) : option nat :=
  match l with
  | [] => None
  | y :: l' => if bool_decide (x = y) then Some i else index_of x l' (S i)
  end.

(** [datetime.strptime(s, '%b').month] in the C locale: the whole string is
    a month abbreviation, in any case; [None] stands for [ValueError]. *)
Definition strptime_b_month (s : str) : option Z :=
  (fun i => Z.of_nat (S i)) <$> index_of (lower s) month_abbreviations 0.

(** ** Element trees *)

Inductive Element : Type :=
  | mkElement (tag : str) (text : option str) (children : list Element).

Definition tag (e : Element) : str := let 'mkElement t _ _ := e in t.
Definition text (e : Element) : option str := let 'mkElement _ t _ := e in t.
Definition children (e : Element) : list Element := let 'mkElement _ _ c := e in c.

(** The elements below [e] in document order, [e] itself excluded:
    [e.findall('.//*')]. *)
Fixpoint descendants (e : Element) : list Element :=
  match e with
  | mkElement _ _ cs =>
      (fix below (l : list Element) : list Element :=
         match l with
         | [] => []
         | c :: l' => c :: descendants c ++ below l'
         end) cs
  end.

Definition has_tag (name : str) (e : Element) : bool := bool_decide (tag e = name).

(** [e.findall(name)] and [e.find(name)]: direct children. *)
Definition findall_child (name : str) (e : Element) : list Element :=
  List.filter (has_tag name) (children e).
Definition find_child (name : str) (e : Element) : option Element :=
  head (findall_child name e).

(** [e.findall('.//' + name)] and [e.find('.//' + name)]. *)
Definition findall_below (name : str) (e : Element) : list Element :=
  List.filter (has_tag name) (descendants e).
Definition find_below (name : str) (e : Element) : option Element :=
  head (findall_below name e).

(** ** The publication date *)

(** [elem.text if elem is not None else default] *)
Definition text_or (default : str) (elem : option Element) : option str :=
  match elem with
  | Some e => text e
  | None => Some default
  end.

(** [int(x)] where [x] is a string, [None] (a [TypeError]) or already an
    integer. *)
Definition py_int (x : option str + Z) : result Z :=
  match x with
  | inr n => Ok n
  | inl None => Raise TypeError
  | inl (Some s) =>
      match int_of_str s with
      | Some n => Ok n
      | None => Raise ValueError
      end
  end.

(** The body of the inner [try]: the month is resolved if it is alphabetic,
    then the date is formatted if the year is truthy. *)
Definition format_pub_date (year month day : option str) : result str :=
  match
    match month with
    | None => Raise AttributeError
    | Some m =>
        if isalpha m then
          match strptime_b_month m with
          | Some k => Ok (inr k)
          | None => Raise ValueError
          end
        else Ok (inl month)
    end
  with
  | Raise e => Raise e
  | Ok month =>
      if truthy year then
        match py_int month with
        | Raise e => Raise e
        | Ok m =>
            match py_int (inl day) with
            | Raise e => Raise e
            | Ok d =>
                Ok (default [] year ++ lit "-" ++ format_02d m
                      ++ lit "-" ++ format_02d d)
            end
        end
      else Ok (lit "N/A")
  end.

(** The statements under [if pub_date_elem is not None], with the handler
    [except (ValueError, AttributeError)]; any other exception leaves the
    block. *)
Definition pub_date_of_fields (year_elem month_elem day_elem : option Element)
  : result str :=
  let year := text_or (lit "") year_elem in
  let month := text_or (lit "01") month_elem in
  let day := text_or (lit "01") day_elem in
  match format_pub_date year month day with
  | Ok pub_date => Ok pub_date
  | Raise ValueError | Raise AttributeError =>
      Ok (if truthy year then default [] year else lit "N/A")
  | Raise e => Raise e
  end.

Definition extract_pub_date (article : Element) : result str :=
  match find_below (lit "PubDate") article with
  | None => Ok (lit "N/A")
  | Some pub_date_elem =>
      pub_date_of_fields (find_child (lit "Year") pub_date_elem)
                         (find_child (lit "Month") pub_date_elem)
                         (find_child (lit "Day") pub_date_elem)
  end.

(** ** The record parser *)

(** The pattern [[\w.+-]+@[\w-]+\.[\w.-]+]. *)
Definition email_local (c : ascii) : bool :=
  is_word c || is_char "." c || is_char "+" c || is_char "-" c.
Definition email_label (c : ascii) : bool := is_word c || is_char "-" c.
Definition email_domain (c : ascii) : bool :=
  is_word c || is_char "." c || is_char "-" c.

Definition email_pattern : regex :=
  Seq (Plus email_local)
    (Seq (Chr (is_char "@"))
       (Seq (Plus email_label) (Seq (Chr (is_char ".")) (Plus email_domain)))).

(** What an f-string writes for an optional text: [None] prints as its name. *)
Definition fstr (o : option str) : str := default (lit "None") o.

(** The name of an author element, before the test [if not author_name]. *)
Definition author_name_of (author_elem : Element) : option str :=
  match find_child (lit "LastName") author_elem with
  | None => Some []
  | Some last_name =>
      let author_name := text last_name in
      match find_child (lit "ForeName") author_elem with
      | Some fore_name => Some (fstr (text fore_name) ++ lit " " ++ fstr author_name)
      | None =>
          match find_child (lit "Initials") author_elem with
          | Some initials => Some (fstr (text initials) ++ lit " " ++ fstr author_name)
          | None => author_name
          end
      end
  end.

(** [for affil in affiliation_info: ... if affil_text is not None and
    affil_text.text: author_affiliations.append(affil_text.text)] *)
Fixpoint affiliation_info_loop (affiliation_info : list Element) : list str :=
  match affiliation_info with
  | [] => []
  | affil :: rest =>
      match find_child (lit "Affiliation") affil with
      | Some affil_text =>
          match text affil_text with
          | Some (c :: t) => (c :: t) :: affiliation_info_loop rest
          | _ => affiliation_info_loop rest
          end
      | None => affiliation_info_loop rest
      end
  end.

Definition author_affiliations_of (author_elem : Element) : list str :=
  match affiliation_info_loop (findall_below (lit "AffiliationInfo") author_elem) with
  | [] =>
      match find_child (lit "Affiliation") author_elem with
      | Some affil_elem =>
          match text affil_elem with
          | Some (c :: t) => [c :: t]
          | _ => []
          end
      | None => []
      end
  | author_affiliations => author_affiliations
  end.

(** The variables that the loop over the authors updates. *)
Record ParseState : Type := mkParseState {
  authors : list str;
  affiliations : list str;
  non_academic_authors : list str;
  company_affiliations : gset str;
  corresponding_email : str
}.

Definition initial_state : ParseState :=
  mkParseState [] [] [] ∅ (lit "N/A").

(** [for affiliation in author_affiliations]: the flag [is_non_academic],
    and the two accumulators the loop body touches. *)
Fixpoint affiliation_loop (author_affiliations : list str)
    (is_non_academic : bool) (affiliations : list str)
    (company_affiliations : gset str) : bool * list str * gset str :=
  match author_affiliations with
  | [] => (is_non_academic, affiliations, company_affiliations)
  | affiliation :: rest =>
      let affiliations := affiliations ++ [affiliation] in
      if is_non_academic_affiliation (Some affiliation) then
        match extract_company_name (Some affiliation) with
        | Some (c :: t) =>
            affiliation_loop rest true affiliations
              (company_affiliations ∪ {[ c :: t ]})
        | _ => affiliation_loop rest true affiliations company_affiliations
        end
      else affiliation_loop rest is_non_academic affiliations company_affiliations
  end.

(** [for affil in author_affiliations: email_match = re.search(...);
    if email_match: ...; break] *)
Fixpoint email_loop (texts : list str) : option str :=
  match texts with
  | [] => None
  | affil :: rest =>
      match search email_pattern affil with
      | Some email => Some email
      | None => email_loop rest
      end
  end.

Definition is_NA (s : str) : bool := bool_decide (s = lit "N/A").

(** One iteration of [for author_elem in author_list.findall('Author')]. *)
Definition author_step (st : ParseState) (author_elem : Element) : ParseState :=
  match author_name_of author_elem with
  | None | Some [] => st
  | Some author_name =>
      let author_affiliations := author_affiliations_of author_elem in
      let '(is_non_academic, affiliations, company_affiliations) :=
        affiliation_loop author_affiliations false
          (affiliations st) (company_affiliations st) in
      mkParseState
        (authors st ++ [author_name])
        affiliations
        (if is_non_academic
         then non_academic_authors st ++ [author_name]
         else non_academic_authors st)
        company_affiliations
        (if is_NA (corresponding_email st)
         then default (corresponding_email st) (email_loop author_affiliations)
         else corresponding_email st)
  end.

Definition author_elems (article : Element) : list Element :=
  match find_below (lit "AuthorList") article with
  | Some author_list => findall_child (lit "Author") author_list
  | None => []
  end.

Definition authors_loop (article : Element) : ParseState :=
  foldl author_step initial_state (author_elems article).

(** [for elem in article.findall('.//*'): if elem.text and '@' in elem.text:
    ... if email_match: ...; break] *)
Fixpoint metadata_email_loop (elems : list Element) : option str :=
  match elems with
  | [] => None
  | elem :: rest =>
      match text elem with
      | Some (c :: t) =>
          if contains (lit "@") (c :: t) then
            match search email_pattern (c :: t) with
            | Some email => Some email
            | None => metadata_email_loop rest
            end
          else metadata_email_loop rest
      | _ => metadata_email_loop rest
      end
  end.

(** The value of [corresponding_email] when the record is built. *)
Definition final_email (article : Element) : str :=
  let st := authors_loop article in
  if is_NA (corresponding_email st)
  then default (corresponding_email st) (metadata_email_loop (descendants article))
  else corresponding_email st.

(** The dictionary [paper_info]; its keys are fixed. *)
Record PaperInfo : Type := mkPaperInfo {
  PubmedID : option str;
  Title : option str;
  Publication_Date : str;
  Non_academic_Authors : str;
  Company_Affiliations : str;
  Corresponding_Author_Email : str;
  All_Authors : str;
  All_Affiliations : str
}.

(** [sep.join(xs) if xs else "N/A"] *)
Definition join_or_NA (xs : list str) : str :=
  match xs with
  | [] => lit "N/A"
  | _ => join (lit "; ") xs
  end.

Section Parser.

(** The order in which Python iterates over a set is not specified: it is
    some enumeration of the elements, which the properties below assume to
    be a permutation of [elements]. *)
Variable iteration_order : gset str -> list str.

(** [parse_pubmed_article]: [None] when an exception reaches the outer
    handler. *)
Definition parse_pubmed_article (article : Element) : option PaperInfo :=
  let pmid := text_or (lit "N/A") (find_below (lit "PMID") article) in
  let title := text_or (lit "N/A") (find_below (lit "ArticleTitle") article) in
  match extract_pub_date article with
  | Raise _ => None
  | Ok pub_date =>
      let st := authors_loop article in
      Some (mkPaperInfo pmid title pub_date
              (join_or_NA (non_academic_authors st))
              (join_or_NA (iteration_order (company_affiliations st)))
              (final_email article)
              (join (lit "; ") (authors st))
              (join (lit "; ") (affiliations st)))
  end.

End Parser.

(** ** The world: the remote service, the clock and the output sink *)

Abbreviation PMID := (list ascii).

(** What the body of a reply decodes to.  [XmlDocument]: a document for
    [ET.fromstring].  [JsonDocument]: for [.json()], an object in which
    ['esearchresult'], when present, is an object and ['idlist'], when
    present, is a list of identifiers; an absent key reads as the empty
    list, as the defaults of the two [.get] calls have it.  [JsonNotObject]:
    for [.json()], a value that is not an object (an array, a string, a
    number, [true], [false] or [null]), or an object whose
    ['esearchresult'] is not one; [.get] is then not an attribute of it.
    [Unreadable]: neither decoder accepts the body.  A value under
    ['idlist'] that is not a list of strings is outside the model. *)
Inductive Content : Type :=
  | XmlDocument (root : Element)
  | JsonDocument (idlist : list PMID)
  | JsonNotObject
  | Unreadable.

(** The outcome of one [requests.get]: an exception without a response, or
    a response. *)
Inductive Reply : Type :=
  | NoResponse (detail : str)
  | HttpResponse (status_code : Z) (content : Content) (url : str).

Inductive Event : Type :=
  | Requested (url : str) (params : gmap str str)
  | Slept (seconds : Q)
  (** [save_to_csv] has been given the records and has reached the sink *)
  | Handed (papers : list PaperInfo) (output_file : option str)
  (** the sink has written the records *)
  | Saved (papers : list PaperInfo) (output_file : option str).

Record World : Type := mkWorld {
  (** the reply to the request number [n], counting from 0 *)
  replies : nat -> Reply;
  (** the failure of the sink on a given call, if it fails *)
  sink_failure : list PaperInfo -> option str -> option str;
  (** what has been done so far, oldest first *)
  log : list Event
}.

Definition is_request (e : Event) : bool :=
  match e with Requested _ _ => true | _ => false end.

Definition requests_made (w : World) : nat :=
  length (List.filter is_request (log w)).

Definition sleeps (w : World) : list Q :=
  omap (fun e => match e with Slept d => Some d | _ => None end) (log w).

Definition record (e : Event) (w : World) : World :=
  mkWorld (replies w) (sink_failure w) (log w ++ [e]).

(** Computations that read and extend the world and may raise. *)
Definition M (A : Type) : Type := World -> result A * World.

Definition ret {A} (a : A) : M A := fun w => (Ok a, w).
Definition raise {A} (e : exn) : M A := fun w => (Raise e, w).
Definition bind {A B} (m : M A) (k : A -> M B) : M B :=
  fun w =>
    match m w with
    | (Ok a, w') => k a w'
    | (Raise e, w') => (Raise e, w')
    end.
Definition lift {A} (r : result A) : M A := fun w => (r, w).

(** [try: m except ...: handler]; the handler answers [None] for the
    exceptions that the [except] clauses do not name. *)
Definition catch {A} (m : M A) (handler : exn -> option (M A)) : M A :=
  fun w =>
    match m w with
    | (Ok a, w') => (Ok a, w')
    | (Raise e, w') =>
        match handler e with
        | Some h => h w'
        | None => (Raise e, w')
        end
    end.

Notation "'let*' x ':=' m 'in' k" := (bind m (fun x => k))
  (at level 10, x binder, m at level 100, k at level 200).

(** [time.sleep(seconds)] *)
Definition sleep (seconds : Q) : M unit :=
  fun w => (Ok tt, record (Slept seconds) w).

Record Response : Type := mkResponse {
  status_code : Z;
  content : Content;
  url : str
}.

(** [requests.get(url, params=params)] *)
Definition requests_get (url : str) (params : gmap str str) : M Response :=
  fun w =>
    let w' := record (Requested url params) w in
    match replies w (requests_made w) with
    | NoResponse detail => (Raise (RequestException detail None), w')
    | HttpResponse sc c u => (Ok (mkResponse sc c u), w')
    end.

(** [response.raise_for_status()] *)
Definition raise_for_status (response : Response) : M unit :=
  if ((400 <=? status_code response) && (status_code response <? 600))%Z
  then raise (RequestException (lit "HTTPError") (Some (status_code response)))
  else ret tt.

(** [ET.fromstring(response.content)] *)
Definition ET_fromstring (c : Content) : result Element :=
  match c with
  | XmlDocument root => Ok root
  | _ => Raise XMLParseError
  end.

(** [response.json().get('esearchresult', {}).get('idlist', [])]:
    [.json()] raises a [ValueError] on a body that is not JSON, and [.get]
    an [AttributeError] on a value that is not an object. *)
Definition json_idlist (c : Content) : result (list PMID) :=
  match c with
  | JsonDocument idlist => Ok idlist
  | JsonNotObject => Raise AttributeError
  | XmlDocument _ | Unreadable => Raise ValueError
  end.

(** ** The retrieval client *)

Record Finder : Type := mkFinder {
  api_key : option str;
  debug : bool
}.

Definition esearch_url : str :=
  lit "https://eutils.ncbi.nlm.nih.gov/entrez/eutils/esearch.fcgi".
Definition efetch_url : str :=
  lit "https://eutils.ncbi.nlm.nih.gov/entrez/eutils/efetch.fcgi".

Definition base_params (self : Finder) : gmap str str :=
  match api_key self with
  | Some (c :: k) => {[ lit "api_key" := c :: k ]}
  | _ => ∅
  end.

Definition max_retries : nat := 3.

(** [for attempt in range(max_retries)] in [_make_api_request]; falling out
    of the loop returns [None]. *)
Fixpoint attempt_loop (attempts : list nat) (url : str) (params : gmap str str)
  : M (option Response) :=
  match attempts with
  | [] => ret None
  | attempt :: rest =>
      catch
        (let* response := requests_get url params in
         let* _ := raise_for_status response in
         ret (Some response))
        (fun e =>
           match e with
           | RequestException detail status =>
               Some (if attempt =? max_retries - 1
                     then raise (APIError max_retries detail status)
                     else let* _ := sleep (inject_Z (2 ^ Z.of_nat attempt)) in
                          attempt_loop rest url params)
           | _ => None
           end)
  end.

Definition _make_api_request (url : str) (params : gmap str str)
  : M (option Response) :=
  attempt_loop (seq 0 max_retries) url params.

Definition validate_query (query : str) : result unit :=
  if negb (truthy (Some query)) || negb (truthy (Some (strip query)))
  then Raise (ValidationError (lit "Search query cannot be empty"))
  else if 1000 <? length query
  then Raise (ValidationError (lit "Search query is too long (max 1000 characters)"))
  else Ok tt.

Definition search_params (self : Finder) (query : str) (max_results : Z)
  : gmap str str :=
  <[ lit "sort" := lit "relevance" ]>
  (<[ lit "retmode" := lit "json" ]>
  (<[ lit "retmax" := str_of_int max_results ]>
  (<[ lit "term" := query ]>
  (<[ lit "db" := lit "pubmed" ]> (base_params self))))).

Definition search_papers (self : Finder) (query : str) (max_results : Z)
  : M (list PMID) :=
  let* _ := lift (validate_query query) in
  if (max_results <? 1)%Z
  then raise (ValidationError (lit "max_results must be greater than 0"))
  else
    let* response :=
      _make_api_request esearch_url (search_params self query max_results) in
    match response with
    | None => raise AttributeError
    | Some response =>
        catch
          (let* search_data := requests_get (url response) ∅ in
           let* pmids := lift (json_idlist (content search_data)) in
           ret pmids)
          (fun e =>
             match e with
             | ValueError => Some (raise ParseError)
             | _ => None
             end)
    end.

Definition batch_size : nat := 100.

(** [range(start, stop, step)] for a positive step; [fuel] bounds the number
    of elements and [stop] itself is always enough. *)
Fixpoint range_from (fuel start stop step : nat) : list nat :=
  match fuel with
  | 0 => []
  | S fuel' =>
      if start <? stop then start :: range_from fuel' (start + step) stop step
      else []
  end.

Definition range (start stop step : nat) : list nat :=
  range_from stop start stop step.

Definition fetch_params (self : Finder) (batch_pmids : list PMID) : gmap str str :=
  <[ lit "retmode" := lit "xml" ]>
  (<[ lit "id" := join (lit ",") batch_pmids ]>
  (<[ lit "db" := lit "pubmed" ]> (base_params self))).

Section Pipeline.

Variable iteration_order : gset str -> list str.

(** [for article in root.findall('.//PubmedArticle'): ... if paper_info:
    all_papers.append(paper_info)] *)
Definition parse_articles (root : Element) : list PaperInfo :=
  omap (parse_pubmed_article iteration_order)
       (findall_below (lit "PubmedArticle") root).

(** The body of the loop over the batches: the [try] block with its two
    handlers; it yields the new value of [all_papers]. *)
Definition fetch_batch (self : Finder) (batch_pmids : list PMID)
    (all_papers : list PaperInfo) : M (list PaperInfo) :=
  catch
    (let* response := requests_get efetch_url (fetch_params self batch_pmids) in
     let* _ := raise_for_status response in
     let* root := lift (ET_fromstring (content response)) in
     let all_papers := all_papers ++ parse_articles root in
     let* _ := sleep (1 # 2) in
     ret all_papers)
    (fun e =>
       match e with
       | RequestException _ _ => Some (ret all_papers)
       | XMLParseError => Some (ret all_papers)
       | _ => None
       end).

(** [for i in range(0, len(pmids), batch_size)] *)
Fixpoint batch_loop (self : Finder) (starts : list nat) (pmids : list PMID)
    (all_papers : list PaperInfo) : M (list PaperInfo) :=
  match starts with
  | [] => ret all_papers
  | i :: rest =>
      let batch_pmids := take batch_size (drop i pmids) in
      let* all_papers := fetch_batch self batch_pmids all_papers in
      batch_loop self rest pmids all_papers
  end.

Definition fetch_paper_details (self : Finder) (pmids : list PMID)
  : M (list PaperInfo) :=
  match pmids with
  | [] => ret []
  | _ => batch_loop self (range 0 (length pmids) batch_size) pmids []
  end.

(** ** The filter and the pipeline *)

(** [for paper in papers] in the filter.  With [debug] on, the message
    for an included paper slices its title, which fails on a title that
    is [None]. *)
Fixpoint filter_loop (self : Finder) (papers filtered_papers : list PaperInfo)
  : result (list PaperInfo) :=
  match papers with
  | [] => Ok filtered_papers
  | paper :: rest =>
      if negb (is_NA (Company_Affiliations paper)) then
        let filtered_papers := filtered_papers ++ [paper] in
        if debug self then
          match Title paper with
          | Some _ => filter_loop self rest filtered_papers
          | None => Raise TypeError
          end
        else filter_loop self rest filtered_papers
      else filter_loop self rest filtered_papers
  end.

Definition filter_papers_with_pharma_biotech_affiliations
    (self : Finder) (papers : list PaperInfo) : result (list PaperInfo) :=
  filter_loop self papers [].

(** [save_to_csv], the output sink: it does nothing on an empty list;
    otherwise it takes the records to the data frame and the file or the
    console, and whatever goes wrong there surfaces as a
    [ValidationError]. *)
Definition save_to_csv (papers : list PaperInfo) (output_file : option str)
  : M unit :=
  match papers with
  | [] => ret tt
  | _ =>
      fun w =>
        let w' := record (Handed papers output_file) w in
        match sink_failure w papers output_file with
        | Some message => (Raise (ValidationError message), w')
        | None => (Ok tt, record (Saved papers output_file) w')
        end
  end.

Definition run (self : Finder) (query : str) (max_results : Z)
    (output_file : option str) : M (list PaperInfo) :=
  let* pmids := search_papers self query max_results in
  match pmids with
  | [] => ret []
  | _ =>
      let* papers := fetch_paper_details self pmids in
      let* filtered_papers :=
        lift (filter_papers_with_pharma_biotech_affiliations self papers) in
      let* _ :=
        match filtered_papers with
        | [] => ret tt
        | _ => save_to_csv filtered_papers output_file
        end in
      ret filtered_papers
  end.

End Pipeline.

(** ** Specification vocabulary *)

(** [k] occurs in [s] as a run of consecutive characters. *)
Definition occurs_in (k s : str) : Prop := exists p q, s = p ++ k ++ q.

(** The lower-cased text contains an entry of the table. *)
Definition names_any (keywords : list str) (s : str) : Prop :=
  exists k, k ∈ keywords /\ occurs_in k (lower s).

(** The texts that a pattern matches as a whole. *)
Inductive lang : regex -> str -> Prop :=
  | lang_Chr p c : p c = true -> lang (Chr p) [c]
  | lang_Lit w : lang (Lit w) w
  | lang_Seq a b u v : lang a u -> lang b v -> lang (Seq a b) (u ++ v)
  | lang_Alt_l a b u : lang a u -> lang (Alt a b) u
  | lang_Alt_r a b u : lang b u -> lang (Alt a b) u
  | lang_Opt_some a u : lang a u -> lang (Opt a) u
  | lang_Opt_none a : lang (Opt a) []
  | lang_Plus p u : u <> [] -> forallb p u = true -> lang (Plus p) u.

(** A capitalized phrase: an upper-case letter, then one or more name
    characters, then an ending among [endings]. *)
Definition capitalized_with (endings : list str) (m : str) : Prop :=
  exists c body ending,
    m = c :: body ++ ending /\ is_upper c = true /\ body <> [] /\
    forallb name_char body = true /\ ending ∈ endings.

Definition LEGAL_SUFFIXES : list str := map lit
  [ "Inc."; "Inc"; "LLC"; "Ltd."; "Ltd"; "Corp."; "Corp"; "Corporation";
    "Company"; "Co."; "GmbH"; "S.A."; "B.V."; "N.V." ]%string.

Definition DOMAIN_WORDS : list str := map lit
  [ "Pharmaceuticals"; "Pharma"; "Biotechnology"; "Biotech"; "Therapeutics";
    "Biosciences"; "Bioscience" ]%string.

(** [m] is where [re.search(r, s)] matches: it is matched by [r], it is the
    first candidate at its position, and [r] matches nowhere further left. *)
Definition first_match (r : regex) (s m : str) : Prop :=
  exists pre post,
    s = pre ++ m ++ post /\ lang r m /\
    head (matches r (m ++ post)) = Some (length m) /\
    forall i, i < length pre -> matches r (drop i s) = [].


(** The text has no white space at either end. *)
Definition trimmed (s : str) : Prop := lstrip s = s /\ lstrip (rev s) = rev s.

(** A comma-segment qualifies as an organization name when it is shorter
    than 50 characters and its lower-cased form contains an industry term. *)
Definition qualifies (part : str) : bool :=
  (length part <? 50) &&
  existsb (fun keyword => contains keyword (lower part)) PHARMA_BIOTECH_KEYWORDS.

(** The organization-name extraction as the specification words it:
    the suffix pattern, else the domain-word pattern, the match trimmed;
    else the first qualifying trimmed comma-segment; else absent. *)
Definition spec_extractOrganizationName (text : option str) : option str :=
  match text with
  | None | Some [] => None
  | Some a =>
      match search suffix_pattern a with
      | Some m => Some (strip m)
      | None =>
          match search domain_pattern a with
          | Some m => Some (strip m)
          | None => List.find qualifies (map strip (split "," a))
          end
      end
  end.


(** The author elements that the parser does not skip, their names, and
    whether one of an author's affiliations is classified non-academic. *)
Definition has_name (author_elem : Element) : bool :=
  truthy (author_name_of author_elem).

Definition named_authors (article : Element) : list Element :=
  List.filter has_name (author_elems article).

Definition name_of (author_elem : Element) : str :=
  default [] (author_name_of author_elem).

Definition is_industry_author (author_elem : Element) : bool :=
  existsb (fun a => is_non_academic_affiliation (Some a))
          (author_affiliations_of author_elem).

(** The company name that one affiliation contributes, if any. *)
Definition company_of (affiliation : str) : option str :=
  if is_non_academic_affiliation (Some affiliation)
  then extract_company_name (Some affiliation)
  else None.

(** The affiliation strings of a record, in document order. *)
Definition affiliation_texts (article : Element) : list str :=
  named_authors article ≫= author_affiliations_of.

(** The texts of the nodes of a record, in document order. *)
Definition node_texts (article : Element) : list str :=
  omap text (descendants article).

(** The first match of the e-mail pattern found while scanning the texts
    in order. *)
Definition first_email (texts : list str) : option str :=
  head (omap (search email_pattern) texts).

(** [local@label.domain] with the character classes of the pattern. *)
Definition email_shaped (e : str) : Prop :=
  exists l d1 d2,
    e = l ++ lit "@" ++ d1 ++ lit "." ++ d2 /\
    l <> [] /\ forallb email_local l = true /\
    d1 <> [] /\ forallb email_label d1 = true /\
    d2 <> [] /\ forallb email_domain d2 = true.

(** The filter predicate on a finished record. *)
Definition kept (paper : PaperInfo) : bool :=
  negb (is_NA (Company_Affiliations paper)).




(** A record whose publication date has a year and an empty [Day]
    element. *)
Definition empty_day_article : Element :=
  mkElement (lit "PubmedArticle") None
    [ mkElement (lit "PMID") (Some (lit "7")) [];
      mkElement (lit "PubDate") None
        [ mkElement (lit "Year") (Some (lit "2021")) [];
          mkElement (lit "Day") None [] ] ].


(** ** Vocabulary for the client *)

(** The world after further events. *)
Definition extend (w : World) (events : list Event) : World :=
  mkWorld (replies w) (sink_failure w) (log w ++ events).

(** A reply that makes [requests.get] or [raise_for_status] raise: the text
    and the status code carried by the exception. *)
Definition failure_of (r : Reply) : option (str * option Z) :=
  match r with
  | NoResponse detail => Some (detail, None)
  | HttpResponse sc _ _ =>
      if ((400 <=? sc) && (sc <? 600))%Z
      then Some (lit "HTTPError", Some sc) else None
  end.

Definition response_of (r : Reply) : option Response :=
  match r with
  | NoResponse _ => None
  | HttpResponse sc c u => Some (mkResponse sc c u)
  end.

(** Three attempts at most, a pause of 1 after the first failure and of 2
    after the second, and an [APIError] with the payload of the third. *)
Definition backoff_outcome (url : str) (params : gmap str str) (w : World)
  : result (option Response) * World :=
  let n := requests_made w in
  let req := Requested url params in
  match failure_of (replies w n) with
  | None => (Ok (response_of (replies w n)), extend w [req])
  | Some _ =>
      match failure_of (replies w (n + 1)) with
      | None => (Ok (response_of (replies w (n + 1))),
                 extend w [req; Slept 1; req])
      | Some _ =>
          match failure_of (replies w (n + 2)) with
          | None => (Ok (response_of (replies w (n + 2))),
                     extend w [req; Slept 1; req; Slept 2; req])
          | Some (detail, status) =>
              (Raise (APIError 3 detail status),
               extend w [req; Slept 1; req; Slept 2; req])
          end
      end
  end.

(** The document of a reply that a batch can use. *)
Definition batch_document (r : Reply) : option Element :=
  match failure_of r, r with
  | None, HttpResponse _ (XmlDocument root) _ => Some root
  | _, _ => None
  end.

(** The batches of a list of identifiers: the slices that the loop takes. *)
Definition batches (pmids : list PMID) : list (list PMID) :=
  map (fun i => take batch_size (drop i pmids))
      (range 0 (length pmids) batch_size).

(** The events of the loop over the batches, the first batch being answered
    by the reply number [n]: one request per batch, followed by a pause when
    the batch yields a document. *)
Fixpoint fetch_events (replies : nat -> Reply) (n : nat) (self : Finder)
    (bs : list (list PMID)) : list Event :=
  match bs with
  | [] => []
  | b :: bs' =>
      Requested efetch_url (fetch_params self b)
        :: match batch_document (replies n) with
           | Some _ => [Slept (1 # 2)]
           | None => []
           end
        ++ fetch_events replies (S n) self bs'
  end.

(** The inputs that [search_papers] rejects. *)
Definition invalid_search (query : str) (max_results : Z) : Prop :=
  strip query = [] \/ 1000 < length query \/ (max_results < 1)%Z.

(** A service that never answers, and one whose first answer is a failure
    and whose later answers are an empty document. *)
Definition service_down : World :=
  mkWorld (fun _ => NoResponse (lit "timeout")) (fun _ _ => None) [].

Definition service_flaky : World :=
  mkWorld (fun n => match n with
                    | 0 => NoResponse (lit "timeout")
                    | _ => HttpResponse 200
                             (XmlDocument (mkElement (lit "PubmedArticleSet") None []))
                             efetch_url
                    end)
          (fun _ _ => None) [].

Definition plain_finder : Finder := mkFinder None false.


(** A service that answers a search with two identifiers and a fetch with
    two records, one from a company and one from a university. *)
Definition demo_author (fore last affiliation : string) : Element :=
  mkElement (lit "Author") None
    [ mkElement (lit "LastName") (Some (lit last)) [];
      mkElement (lit "ForeName") (Some (lit fore)) [];
      mkElement (lit "AffiliationInfo") None
        [ mkElement (lit "Affiliation") (Some (lit affiliation)) [] ] ].

Definition demo_article (pmid : string) (author : Element) : Element :=
  mkElement (lit "PubmedArticle") None
    [ mkElement (lit "PMID") (Some (lit pmid)) [];
      mkElement (lit "ArticleTitle") (Some (lit "A title")) [];
      mkElement (lit "AuthorList") None [author] ].

Definition demo_document : Element :=
  mkElement (lit "PubmedArticleSet") None
    [ demo_article "1"
        (demo_author "Jane" "Doe" "Genentech, South San Francisco, CA");
      demo_article "2"
        (demo_author "Rick" "Roe" "Stanford University") ].

Definition demo_service : World :=
  mkWorld (fun n => match n with
                    | 0 | 1 => HttpResponse 200
                                 (JsonDocument [lit "1"; lit "2"]) esearch_url
                    | _ => HttpResponse 200 (XmlDocument demo_document) efetch_url
                    end)
          (fun _ _ => None) [].


(** A client with debug messages on. *)
Definition debug_finder : Finder := mkFinder None true.

(** A record of a company author whose [ArticleTitle] element has no
    text, and a service that answers a search with its identifier and a
    fetch with the record. *)
Definition untitled_article : Element :=
  mkElement (lit "PubmedArticle") None
    [ mkElement (lit "PMID") (Some (lit "7")) [];
      mkElement (lit "ArticleTitle") None [];
      mkElement (lit "AuthorList") None
        [ demo_author "Jane" "Doe" "Genentech, South San Francisco, CA" ] ].

Definition untitled_document : Element :=
  mkElement (lit "PubmedArticleSet") None [untitled_article].

Definition untitled_service : World :=
  mkWorld (fun n => match n with
                    | 0 | 1 => HttpResponse 200 (JsonDocument [lit "7"]) esearch_url
                    | _ => HttpResponse 200 (XmlDocument untitled_document) efetch_url
                    end)
          (fun _ _ => None) [].

(** The service of [demo_service] with a sink that fails. *)
Definition service_full_disk : World :=
  mkWorld (replies demo_service) (fun _ _ => Some (lit "disk full")) [].

(** ** Vocabulary for the further properties *)

(** The text has visible characters at both ends. *)
Definition visible_ends (k : str) : bool :=
  match k, rev k with
  | c :: _, d :: _ => negb (is_space c) && negb (is_space d)
  | _, _ => false
  end.

(** A record whose only e-mail address stands in a node outside the
    author list. *)
Definition contact_article : Element :=
  mkElement (lit "PubmedArticle") None
    [ mkElement (lit "PMID") (Some (lit "9")) [];
      mkElement (lit "Abstract") None
        [ mkElement (lit "AbstractText")
            (Some (lit "Questions to office@journal.example.org please")) [] ];
      mkElement (lit "AuthorList") None
        [ demo_author "Rick" "Roe" "Stanford University" ] ].

(** The number that [int(month)] gives in the date block, when the month
    can be read: a month name through [strptime], any other text through
    [int]. *)
Definition month_number (month : option str) : option Z :=
  match month with
  | None => None
  | Some m => if isalpha m then strptime_b_month m else int_of_str m
  end.

(** The numbers that the interpreter converts to and from text: by default
    it refuses a conversion of more than 4300 digits with a [ValueError]. *)
Definition within_digit_cap (n : Z) : Prop := (Z.abs n < 10 ^ 4300)%Z.

(** The texts that [int] reads without meeting that cap. *)
Definition within_text_cap (t : option str) : Prop :=
  match t with
  | Some s => (Z.of_nat (length s) <= 4300)%Z
  | None => True
  end.

(** The value of a decimal numeral read from its first digit on, [acc]
    being the value of the digits before it. *)
Fixpoint uint_value (d : Decimal.uint) (acc : Z) : Z :=
  match d with
  | Decimal.Nil => acc
  | Decimal.D0 d' => uint_value d' (10 * acc)
  | Decimal.D1 d' => uint_value d' (10 * acc + 1)
  | Decimal.D2 d' => uint_value d' (10 * acc + 2)
  | Decimal.D3 d' => uint_value d' (10 * acc + 3)
  | Decimal.D4 d' => uint_value d' (10 * acc + 4)
  | Decimal.D5 d' => uint_value d' (10 * acc + 5)
  | Decimal.D6 d' => uint_value d' (10 * acc + 6)
  | Decimal.D7 d' => uint_value d' (10 * acc + 7)
  | Decimal.D8 d' => uint_value d' (10 * acc + 8)
  | Decimal.D9 d' => uint_value d' (10 * acc + 9)
  end.

(** The records that the loop over the batches collects, the first batch
    being answered by the reply number [n]: those parsed from the document
    of each batch that yields one, in the order of the batches. *)
Fixpoint fetch_results (iteration_order : gset str -> list str)
    (replies : nat -> Reply) (n : nat) (bs : list (list PMID)) : list PaperInfo :=
  match bs with
  | [] => []
  | _ :: bs' =>
      match batch_document (replies n) with
      | Some root => parse_articles iteration_order root
      | None => []
      end ++ fetch_results iteration_order replies (S n) bs'
  end.

(** The access token in use: an empty one counts as none. *)
Definition configured_key (self : Finder) : option str :=
  match api_key self with
  | Some (c :: k) => Some (c :: k)
  | _ => None
  end.

(** What the sink has written so far. *)
Definition saved (w : World) : list (list PaperInfo * option str) :=
  omap (fun e => match e with Saved papers o => Some (papers, o) | _ => None end)
       (log w).

(** What [save_to_csv] has taken to the sink so far, written or not. *)
Definition handed (w : World) : list (list PaperInfo * option str) :=
  omap (fun e => match e with Handed papers o => Some (papers, o) | _ => None end)
       (log w).

(** How a search ends once its first request has been answered, by the
    reply to the follow-up request. *)
Definition decode_outcome (r : Reply) : result (list PMID) :=
  match r with
  | NoResponse detail => Raise (RequestException detail None)
  | HttpResponse _ (JsonDocument idlist) _ => Ok idlist
  | HttpResponse _ JsonNotObject _ => Raise AttributeError
  | HttpResponse _ (XmlDocument _) _ | HttpResponse _ Unreadable _ =>
      Raise ParseError
  end.

(** A service whose answer to the follow-up request of a search is a JSON
    array. *)
Definition service_json_array : World :=
  mkWorld (fun _ => HttpResponse 200 JsonNotObject esearch_url)
          (fun _ _ => None) [].

(** A record that the filter keeps and whose title has no text. *)
Definition kept_untitled (paper : PaperInfo) : bool :=
  kept paper && negb (bool_decide (is_Some (Title paper))).

(** ** The command line *)

(** [s.endswith(suffix)] *)
Definition endswith (s suffix : str) : bool := startswith (rev suffix) (rev s).

(** [if not output_file.endswith('.csv'): output_file += '.csv'] *)
Definition csv_name (output_file : str) : str :=
  if endswith output_file (lit ".csv") then output_file
  else output_file ++ lit ".csv".

(** How [main] ends: it returns an exit code, or the [UnboundLocalError]
    raised inside its last handler leaves it. *)
Inductive MainOutcome : Type :=
  | Exit (code : Z)
  | Unbound.

(** [main] of the command line, [stdin] being the lines that [input()]
    will return, in order; [input()] raises [EOFError] when no line is
    left, and the handler that catches it reads [debug_mode] before any
    value was given to it.  [env_api_key] is the access token found in the
    environment. *)
Definition main (iteration_order : gset str -> list str)
    (env_api_key : option str) (stdin : list str)
  : World -> MainOutcome * World :=
  fun w =>
    match stdin with
    | [] => (Unbound, w)
    | query :: stdin =>
        match stdin with
        | [] => (Unbound, w)
        | max_results :: stdin =>
            let max_results := strip max_results in
            match (if truthy (Some max_results) then int_of_str max_results
                   else Some 100%Z) with
            | None => (Exit 1, w)
            | Some max_results =>
                match stdin with
                | [] => (Unbound, w)
                | output_choice :: stdin =>
                    let output_choice := strip (lower output_choice) in
                    match (if bool_decide (output_choice = lit "y") then
                             match stdin with
                             | [] => None
                             | output_file :: stdin =>
                                 Some (Some (csv_name (strip output_file)), stdin)
                             end
                           else Some (None, stdin)) with
                    | None => (Unbound, w)
                    | Some (output_file, stdin) =>
                        match stdin with
                        | [] => (Unbound, w)
                        | debug_line :: _ =>
                            let debug_mode :=
                              bool_decide (strip (lower debug_line) = lit "y") in
                            let finder := mkFinder env_api_key debug_mode in
                            match run iteration_order finder query max_results
                                    output_file w with
                            | (Ok _, w') => (Exit 0, w')
                            | (Raise _, w') => (Exit 1, w')
                            end
                        end
                    end
                end
            end
        end
    end.

(** The number of replies, among the [k] replies from number [n] on, that
    give a batch its document. *)
Fixpoint documents (replies : nat -> Reply) (n k : nat) : nat :=
  match k with
  | 0 => 0
  | S k' =>
      match batch_document (replies n) with
      | Some _ => 1
      | None => 0
      end + documents replies (S n) k'
  end.

(** * Properties *)

(** ** Text primitives *)

Lemma eqb_char_true a b : eqb_char a b = true <-> a = b.
Proof. unfold eqb_char. apply Ascii.eqb_eq. Qed.

Lemma startswith_spec k s : startswith k s = true <-> exists q, s = k ++ q.
Proof.
  revert s. induction k as [|a k IH]; intros s; simpl.
  - split; [intros _; by exists s | done].
  - destruct s as [|b s]; simpl.
    + split; [done | intros [q Hq]; discriminate].
    + rewrite andb_true_iff, eqb_char_true, IH. split.
      * intros [-> [q ->]]. by exists q.
      * intros [q Hq]. injection Hq as -> ->. split; [done | by exists q].
Qed.

Lemma contains_spec k s : contains k s = true <-> occurs_in k s.
Proof.
  induction s as [|c s IH].
  - simpl. rewrite orb_false_r, startswith_spec. split.
    + intros [q Hq]. by exists [], q.
    + intros (p & q & Hpq). destruct p; simpl in *.
      * by exists q.
      * discriminate.
  - change (contains k (c :: s)) with (startswith k (c :: s) || contains k s).
    rewrite orb_true_iff, startswith_spec, IH. split.
    + intros [[q Hq] | (p & q & ->)].
      * by exists [], q.
      * by exists (c :: p), q.
    + intros (p & q & Hpq). destruct p as [|c' p]; simpl in Hpq.
      * left. by exists q.
      * injection Hpq as -> ->. right. by exists p, q.
Qed.

Lemma contains_false k s : contains k s = false <-> ~ occurs_in k s.
Proof. rewrite <- contains_spec. by destruct (contains k s). Qed.

Lemma first_keyword_in_Some keywords text k :
  first_keyword_in keywords text = Some k ->
  k ∈ keywords /\ contains k text = true.
Proof.
  induction keywords as [|k' kws IH]; simpl; [done|].
  destruct (contains k' text) eqn:E.
  - intros [= <-]. split; [left | done].
  - intros H. destruct (IH H). split; [by right | done].
Qed.

Lemma first_keyword_in_None keywords text :
  first_keyword_in keywords text = None <->
  forall k, k ∈ keywords -> contains k text = false.
Proof.
  induction keywords as [|k' kws IH]; simpl.
  - split; [intros _ k Hk; inversion Hk | done].
  - destruct (contains k' text) eqn:E.
    + split; [done|]. intros H. specialize (H k' ltac:(left)). congruence.
    + rewrite IH. split.
      * intros H k Hk. inversion Hk; subst; auto.
      * intros H k Hk. apply H. by right.
Qed.

Lemma first_keyword_in_is_Some keywords text :
  is_Some (first_keyword_in keywords text) <->
  exists k, k ∈ keywords /\ occurs_in k text.
Proof.
  split.
  - intros [k Hk]. apply first_keyword_in_Some in Hk as [? ?].
    exists k. by rewrite <- contains_spec.
  - intros (k & Hin & Hocc).
    destruct (first_keyword_in keywords text) eqn:E; [by eexists|].
    rewrite first_keyword_in_None in E. apply contains_spec in Hocc.
    rewrite (E k Hin) in Hocc. discriminate.
Qed.

(** ** The classifier *)

(** C1. Empty or absent text is not non-academic; a text whose lower-cased
    form contains an academic term is not non-academic, whatever else it
    contains; any other text is non-academic exactly when its lower-cased
    form contains an industry term. *)
Theorem is_non_academic_affiliation_spec (affiliation : option str) :
  (truthy affiliation = false ->
     is_non_academic_affiliation affiliation = false) /\
  (forall s, affiliation = Some s -> s <> [] ->
     (names_any ACADEMIC_KEYWORDS s ->
        is_non_academic_affiliation affiliation = false) /\
     (~ names_any ACADEMIC_KEYWORDS s ->
        (is_non_academic_affiliation affiliation = true <->
         names_any PHARMA_BIOTECH_KEYWORDS s))).
Proof.
  split.
  - destruct affiliation as [[|c s]|]; simpl; done.
  - intros s -> Hs. destruct s as [|c s]; [done|].
    unfold is_non_academic_affiliation, names_any.
    set (l := lower (c :: s)).
    pose proof (first_keyword_in_is_Some ACADEMIC_KEYWORDS l) as HA.
    pose proof (first_keyword_in_is_Some PHARMA_BIOTECH_KEYWORDS l) as HP.
    destruct (first_keyword_in ACADEMIC_KEYWORDS l) as [ka|].
    + split; [done|]. intros Hn. exfalso. apply Hn, HA. by eexists.
    + split.
      * intros Hy. apply HA in Hy. by destruct Hy.
      * intros _. rewrite <- HP.
        destruct (first_keyword_in PHARMA_BIOTECH_KEYWORDS l).
        -- split; [by eexists | done].
        -- split; [done | intros [? ?]; done].
Qed.

Lemma occurs_in_compute k s : contains k s = true -> occurs_in k s.
Proof. apply contains_spec. Qed.

Lemma is_non_academic_affiliation_spec_witness :
  is_non_academic_affiliation (Some (lit "Pfizer Inc., University Park")) = false.
Proof.
  apply (is_non_academic_affiliation_spec
           (Some (lit "Pfizer Inc., University Park"))) with
    (s := lit "Pfizer Inc., University Park").
  - reflexivity.
  - discriminate.
  - exists (lit "university"). split.
    + left.
    + apply occurs_in_compute. vm_compute. reflexivity.
Defined.

(** ** The matcher *)

Lemma countdown_elem n m : n ∈ countdown m <-> 1 <= n <= m.
Proof.
  induction m as [|m IH]; simpl.
  - split; [intros H; inversion H | lia].
  - rewrite elem_of_cons, IH. lia.
Qed.

Lemma countdown_filter k m :
  filter (fun n => n <= k) (countdown m) = countdown (m `min` k).
Proof.
  induction m as [|m IH]; [done|].
  change (countdown (S m)) with (S m :: countdown m).
  destruct (decide (S m <= k)) as [Hle|Hgt].
  - rewrite filter_cons_True, IH by done.
    replace (m `min` k) with m by lia. by replace (S m `min` k) with (S m) by lia.
  - rewrite filter_cons_False, IH by done. f_equal. lia.
Qed.

Lemma span_app p x y : span p x = span p (x ++ y) `min` length x.
Proof.
  induction x as [|c x IH]; simpl; [lia|].
  destruct (p c); simpl; [by rewrite IH | done].
Qed.

Lemma span_le p s : span p s <= length s.
Proof. induction s as [|c s IH]; simpl; [done|]. destruct (p c); simpl; lia. Qed.

Lemma span_forallb p s n : n <= span p s -> forallb p (take n s) = true.
Proof.
  revert n. induction s as [|c s IH]; intros [|n]; simpl; try done.
  destruct (p c) eqn:E; [|lia]. intros H. simpl. apply IH. lia.
Qed.

Lemma startswith_length w s : startswith w s = true -> length w <= length s.
Proof. rewrite startswith_spec. intros [q ->]. rewrite length_app. lia. Qed.

Lemma startswith_take w s : startswith w s = true -> take (length w) s = w.
Proof. rewrite startswith_spec. intros [q ->]. apply take_app_length. Qed.

Lemma startswith_app w x y :
  length w <= length x -> startswith w (x ++ y) = startswith w x.
Proof.
  revert x. induction w as [|a w IH]; intros [|b x]; simpl; try done; [lia|].
  intros H. rewrite IH by lia. done.
Qed.

Lemma filter_bind_le (k : nat) (f g : nat -> list nat) (l : list nat) :
  (forall n, n <= k -> filter (fun m => m <= k) (f n) = g n) ->
  (forall n, k < n -> filter (fun m => m <= k) (f n) = []) ->
  filter (fun m => m <= k) (l ≫= f) = filter (fun m => m <= k) l ≫= g.
Proof.
  intros Hle Hgt. induction l as [|n l IH]; [done|].
  rewrite bind_cons, filter_app, IH.
  destruct (decide (n <= k)).
  - by rewrite filter_cons_True, bind_cons, Hle.
  - rewrite filter_cons_False, Hgt by lia. done.
Qed.

Lemma filter_le_fmap_add (k n : nat) (l : list nat) :
  n <= k ->
  filter (fun m => m <= k) (Nat.add n <$> l)
  = Nat.add n <$> filter (fun m => m <= k - n) l.
Proof.
  intros Hn. induction l as [|m l IH]; [done|].
  rewrite fmap_cons. destruct (decide (m <= k - n)).
  - rewrite !filter_cons_True, fmap_cons, IH by lia. done.
  - rewrite !filter_cons_False, IH by lia. done.
Qed.

Lemma filter_le_fmap_add_gt (k n : nat) (l : list nat) :
  k < n -> filter (fun m => m <= k) (Nat.add n <$> l) = [].
Proof.
  intros Hn. induction l as [|m l IH]; [done|].
  rewrite fmap_cons, filter_cons_False by lia. done.
Qed.

(** The candidates that fit in a prefix of the text are the candidates on
    that prefix alone, in the same order: matching does not look ahead. *)
Lemma matches_app r x y :
  filter (fun n => n <= length x) (matches r (x ++ y)) = matches r x.
Proof.
  revert x y. induction r as [p|w|a IHa b IHb|a IHa b IHb|a IHa|p]; intros x y.
  - destruct x as [|c x]; simpl.
    + destruct y as [|c y]; [done|]. destruct (p c); [|done].
      by rewrite filter_cons_False by (simpl; lia).
    + destruct (p c); [|done]. by rewrite filter_cons_True by (simpl; lia).
  - simpl. destruct (decide (length w <= length x)) as [Hle|Hgt].
    + rewrite startswith_app by done. destruct (startswith w x); [|done].
      by rewrite filter_cons_True.
    + destruct (startswith w x) eqn:E.
      { apply startswith_length in E. lia. }
      destruct (startswith w (x ++ y)); [|done].
      by rewrite filter_cons_False.
  - simpl.
    rewrite (filter_bind_le (length x) _
               (fun n => Nat.add n <$> matches b (drop n x))).
    + by rewrite IHa.
    + intros n Hn. rewrite filter_le_fmap_add by done.
      rewrite drop_app_le by done. f_equal.
      rewrite <- (IHb (drop n x) y). by rewrite length_drop.
    + intros n Hn. by apply filter_le_fmap_add_gt.
  - simpl. by rewrite filter_app, IHa, IHb.
  - simpl. rewrite filter_app, IHa. f_equal.
  - simpl. by rewrite countdown_filter, <- span_app.
Qed.

Lemma take_add (s : str) n1 n2 :
  take (n1 + n2) s = take n1 s ++ take n2 (drop n1 s).
Proof.
  revert s. induction n1 as [|n1 IH]; intros s; simpl.
  - by rewrite drop_0.
  - destruct s as [|c s]; simpl; [by rewrite take_nil | by rewrite IH].
Qed.

(** Every candidate is a match. *)
Lemma matches_sound r s n :
  n ∈ matches r s -> n <= length s /\ lang r (take n s).
Proof.
  revert s n. induction r as [p|w|a IHa b IHb|a IHa b IHb|a IHa|p]; intros s n; simpl.
  - destruct s as [|c s]; [intros H; inversion H|].
    destruct (p c) eqn:E; [|intros H; inversion H].
    rewrite list_elem_of_singleton. intros ->. simpl. split; [lia|].
    rewrite take_0. by constructor.
  - destruct (startswith w s) eqn:E; [|intros H; inversion H].
    rewrite list_elem_of_singleton. intros ->. split.
    + by apply startswith_length.
    + rewrite startswith_take by done. constructor.
  - rewrite list_elem_of_bind. intros (n1 & Hn & Hn1).
    apply list_elem_of_fmap in Hn as (n2 & -> & Hn2).
    apply IHa in Hn1 as [Hl1 HL1]. apply IHb in Hn2 as [Hl2 HL2].
    rewrite length_drop in Hl2. split; [lia|].
    rewrite take_add. by constructor.
  - rewrite elem_of_app. intros [H|H].
    + apply IHa in H as [? ?]. split; [done | by apply lang_Alt_l].
    + apply IHb in H as [? ?]. split; [done | by apply lang_Alt_r].
  - rewrite elem_of_app, list_elem_of_singleton. intros [H| ->].
    + apply IHa in H as [? ?]. split; [done | by apply lang_Opt_some].
    + split; [lia|]. rewrite take_0. apply lang_Opt_none.
  - rewrite countdown_elem. intros [H1 H2]. pose proof (span_le p s). split; [lia|].
    apply lang_Plus; [|by apply span_forallb].
    destruct s as [|c s]; [simpl in *; lia|]. destruct n; [lia | done].
Qed.

(** ** Searching *)

Lemma search_first_match r s m : search r s = Some m -> first_match r s m.
Proof.
  induction s as [|c s IH].
  - simpl. destruct (head (matches r [])) as [n|] eqn:E; [|done].
    intros [= <-]. exists [], []. apply head_Some in E as [l' E].
    assert (Hn : n ∈ matches r []) by (rewrite E; left).
    apply matches_sound in Hn as [Hn HL]. simpl in Hn.
    assert (n = 0) as -> by lia. rewrite take_0 in *. simpl.
    repeat split; [done | by rewrite E | simpl; lia].
  - change (search r (c :: s)) with
      (match head (matches r (c :: s)) with
       | Some n => Some (take n (c :: s))
       | None => search r s
       end).
    destruct (head (matches r (c :: s))) as [n|] eqn:E.
    + intros [= <-]. exists [], (drop n (c :: s)).
      pose proof E as E'. apply head_Some in E' as [l' E'].
      assert (Hn : n ∈ matches r (c :: s)) by (rewrite E'; left).
      apply matches_sound in Hn as [Hn HL].
      rewrite length_take_le by done.
      repeat split; [by rewrite take_drop | done | by rewrite take_drop | simpl; lia].
    + intros H. destruct (IH H) as (pre & post & -> & HL & Hh & Hleft).
      exists (c :: pre), post. repeat split; [done | done |].
      intros [|i] Hi; [by apply head_None | apply Hleft; simpl in Hi; lia].
Qed.

Lemma search_None r s :
  search r s = None <-> forall i, i <= length s -> matches r (drop i s) = [].
Proof.
  induction s as [|c s IH].
  - simpl. destruct (head (matches r [])) eqn:E.
    + split; [done|]. intros H. specialize (H 0 ltac:(lia)). simpl in H.
      rewrite H in E. done.
    + apply head_None in E. split; [|done]. intros _ i _. by rewrite drop_nil.
  - change (search r (c :: s)) with
      (match head (matches r (c :: s)) with
       | Some n => Some (take n (c :: s))
       | None => search r s
       end).
    destruct (head (matches r (c :: s))) eqn:E.
    + split; [done|]. intros H. specialize (H 0 ltac:(lia)). simpl in H.
      rewrite H in E. done.
    + apply head_None in E. rewrite IH. split.
      * intros H [|i] Hi; [done | apply H; simpl in Hi; lia].
      * intros H i Hi. apply (H (S i)). simpl. lia.
Qed.

Lemma head_filter_first (P : nat -> Prop) `{!forall n, Decision (P n)} l n :
  head l = Some n -> P n -> head (filter P l) = Some n.
Proof.
  intros Hh Hp. apply head_Some in Hh as [l' ->]. by rewrite filter_cons_True.
Qed.

(** Searching in the text that a search has matched finds that text. *)
Lemma search_again r s m : search r s = Some m -> search r m = Some m.
Proof.
  intros H. apply search_first_match in H as (pre & post & _ & _ & Hh & _).
  assert (E : head (matches r m) = Some (length m)).
  { rewrite <- (matches_app r m post). by apply head_filter_first. }
  destruct m as [|c m]; simpl in *.
  - by rewrite E.
  - rewrite E. by rewrite take_ge.
Qed.

(** A pattern that matches nowhere in a text matches nowhere in a part of
    that text. *)
Lemma search_None_part r s m :
  search r s = None -> occurs_in m s -> search r m = None.
Proof.
  rewrite !search_None. intros H (p & q & ->) i Hi.
  rewrite <- (matches_app r (drop i m) q).
  specialize (H (length p + i)).
  rewrite drop_app_ge, Nat.add_comm, Nat.add_sub in H by lia.
  rewrite drop_app_le in H by done.
  rewrite H; [done|]. rewrite !length_app. lia.
Qed.

(** ** Trimming and splitting *)

Lemma lstrip_suffix s : exists p, s = p ++ lstrip s.
Proof.
  induction s as [|c s [p IH]]; simpl; [by exists []|].
  destruct (is_space c).
  - exists (c :: p). simpl. by f_equal.
  - by exists [].
Qed.

Lemma lstrip_lstrip s : lstrip (lstrip s) = lstrip s.
Proof.
  induction s as [|c s IH]; simpl; [done|].
  destruct (is_space c) eqn:E; [done|]. simpl. by rewrite E.
Qed.

Lemma lstrip_snoc s c : is_space c = false -> lstrip (s ++ [c]) = lstrip s ++ [c].
Proof.
  intros Hc. induction s as [|d s IH]; simpl.
  - by rewrite Hc.
  - destruct (is_space d); [done | done].
Qed.

Lemma strip_occurs s : occurs_in (strip s) s.
Proof.
  unfold strip, rstrip. destruct (lstrip_suffix s) as [p Hp].
  destruct (lstrip_suffix (rev (lstrip s))) as [q Hq].
  exists p, (rev q). rewrite Hp at 1. f_equal.
  rewrite <- (rev_involutive (lstrip s)) at 1. rewrite Hq at 1.
  by rewrite rev_app_distr.
Qed.

Lemma strip_trimmed s : trimmed (strip s).
Proof.
  unfold trimmed, strip, rstrip. split.
  - destruct (lstrip s) as [|c t] eqn:E; [done|].
    assert (Hc : is_space c = false).
    { pose proof (lstrip_lstrip s) as H. rewrite E in H. simpl in H.
      destruct (is_space c) eqn:Hc; [|done].
      pose proof (lstrip_suffix t) as [p Hp]. rewrite H in Hp.
      apply (f_equal length) in Hp. rewrite length_app in Hp. simpl in Hp. lia. }
    simpl. rewrite lstrip_snoc, rev_app_distr by done. simpl. by rewrite Hc.
  - by rewrite rev_involutive, lstrip_lstrip.
Qed.

Lemma trimmed_strip s : trimmed s -> strip s = s.
Proof.
  intros [H1 H2]. unfold strip, rstrip. by rewrite H1, H2, rev_involutive.
Qed.

Lemma strip_strip s : strip (strip s) = strip s.
Proof. apply trimmed_strip, strip_trimmed. Qed.

Lemma trimmed_ends c s d :
  is_space c = false -> is_space d = false -> trimmed (c :: s ++ [d]).
Proof.
  intros Hc Hd. split; simpl; [by rewrite Hc|].
  rewrite rev_app_distr. simpl. by rewrite Hd.
Qed.

Lemma occurs_in_trans a b c : occurs_in a b -> occurs_in b c -> occurs_in a c.
Proof.
  intros (p & q & ->) (p' & q' & ->). exists (p' ++ p), (q ++ q').
  by rewrite <- !app_assoc.
Qed.

Lemma occurs_in_elem a b x : occurs_in a b -> x ∈ a -> x ∈ b.
Proof. intros (p & q & ->) H. rewrite !elem_of_app. auto. Qed.

Lemma occurs_in_cons c a s : occurs_in a s -> occurs_in a (c :: s).
Proof. intros (p & q & ->). by exists (c :: p), q. Qed.

Lemma split_shape sep s :
  exists seg segs,
    split sep s = seg :: segs /\ (exists q, s = seg ++ q) /\ (sep ∉ seg) /\
    forall x, x ∈ segs -> occurs_in x s /\ sep ∉ x.
Proof.
  induction s as [|c s IH]; simpl.
  - exists [], []. split; [done|]. split; [by exists []|].
    split; [by inversion 1|]. intros x Hx. inversion Hx.
  - destruct IH as (seg0 & segs0 & E & [q Hq] & Hn & Hrest).
    rewrite E. destruct (eqb_char c sep) eqn:Ec.
    + exists [], (seg0 :: segs0). split; [done|]. split; [by exists (c :: s)|].
      split; [by inversion 1|]. intros x Hx.
      apply elem_of_cons in Hx as [-> | Hx].
      * split; [|done]. apply occurs_in_cons. exists [], q. by rewrite Hq at 1.
      * destruct (Hrest x Hx). split; [by apply occurs_in_cons | done].
    + assert (c <> sep) by (rewrite <- eqb_char_true; congruence).
      exists (c :: seg0), segs0. split; [done|]. split.
      { exists q. simpl. by rewrite Hq at 1. }
      split.
      { rewrite elem_of_cons. intros [?|?]; congruence. }
      intros x Hx. destruct (Hrest x Hx). split; [by apply occurs_in_cons | done].
Qed.

Lemma split_segments sep s seg :
  seg ∈ split sep s -> occurs_in seg s /\ sep ∉ seg.
Proof.
  destruct (split_shape sep s) as (seg0 & segs0 & -> & [q Hq] & Hn & Hrest).
  rewrite elem_of_cons. intros [-> | Hx]; [|by apply Hrest].
  split; [|done]. exists [], q. by rewrite Hq at 1.
Qed.

Lemma split_no_sep sep s : sep ∉ s -> split sep s = [s].
Proof.
  induction s as [|c s IH]; simpl; [done|].
  rewrite not_elem_of_cons. intros [Hc Hs].
  destruct (eqb_char c sep) eqn:E.
  - apply eqb_char_true in E. congruence.
  - by rewrite IH.
Qed.

(** ** The two company-name patterns *)

Ltac invert_lang :=
  repeat match goal with
         | H : lang (Seq _ _) _ |- _ => inversion H; subst; clear H
         | H : lang (Alt _ _) _ |- _ => inversion H; subst; clear H
         | H : lang (Opt _) _ |- _ => inversion H; subst; clear H
         | H : lang (Lit _) _ |- _ => inversion H; subst; clear H
         | H : lang (Chr _) _ |- _ => inversion H; subst; clear H
         end.

Lemma is_char_eq c d : is_char c d = true -> d = c.
Proof. unfold is_char. rewrite eqb_char_true. done. Qed.

Lemma lang_legal_suffix u : lang legal_suffix u -> u ∈ LEGAL_SUFFIXES.
Proof.
  intros H. cbv [legal_suffix alts foldl opt_dot] in H. invert_lang;
    repeat match goal with
           | H : is_char _ _ = true |- _ => apply is_char_eq in H; subst
           end;
    vm_compute; repeat first [by left | right].
Qed.

Lemma lang_domain_word u : lang domain_word u -> u ∈ DOMAIN_WORDS.
Proof.
  intros H. cbv [domain_word alts foldl] in H. invert_lang;
    vm_compute; repeat first [by left | right].
Qed.

Lemma lang_capitalized tail endings m :
  (forall u, lang tail u -> u ∈ endings) ->
  lang (capitalized_phrase tail) m -> capitalized_with endings m.
Proof.
  intros Htail H. unfold capitalized_phrase in H. invert_lang.
  match goal with
  | H : lang (Plus _) _ |- _ => inversion H; subst; clear H
  end.
  match goal with
  | Hc : is_upper ?c = true, Hb : forallb name_char ?b = true,
    Ht : lang tail ?e |- _ => exists c, b, e
  end.
  repeat split; auto.
Qed.

Lemma endings_visible (endings : list str) :
  forallb (fun e => match rev e with
                    | d :: _ => negb (is_space d)
                    | [] => false
                    end) endings = true ->
  forall e, e ∈ endings -> exists w d, e = w ++ [d] /\ is_space d = false.
Proof.
  rewrite forallb_forall. intros H e He. apply list_elem_of_In, H in He.
  destruct (rev e) as [|d w] eqn:E; [done|].
  exists (rev w), d. split.
  - by rewrite <- (rev_involutive e), E.
  - by destruct (is_space d).
Qed.

Lemma is_upper_not_space c : is_upper c = true -> is_space c = false.
Proof.
  unfold is_upper, is_space, in_range. generalize (code c). intros n.
  rewrite !andb_true_iff, !N.leb_le. intros [? ?].
  apply orb_false_iff. split; apply andb_false_iff; rewrite !N.leb_gt; lia.
Qed.

Lemma capitalized_trimmed endings m :
  (forall e, e ∈ endings -> exists w d, e = w ++ [d] /\ is_space d = false) ->
  capitalized_with endings m -> trimmed m.
Proof.
  intros Hend (c & body & e & -> & Hc & _ & _ & He).
  destruct (Hend e He) as (w & d & -> & Hd).
  rewrite !app_assoc. apply trimmed_ends; [by apply is_upper_not_space | done].
Qed.

Lemma legal_suffixes_visible e :
  e ∈ LEGAL_SUFFIXES -> exists w d, e = w ++ [d] /\ is_space d = false.
Proof. by apply endings_visible. Qed.

Lemma domain_words_visible e :
  e ∈ DOMAIN_WORDS -> exists w d, e = w ++ [d] /\ is_space d = false.
Proof. by apply endings_visible. Qed.

Lemma first_match_occurs r s m : first_match r s m -> occurs_in m s.
Proof. intros (pre & post & -> & _). by exists pre, post. Qed.

Lemma search_suffix_pattern s m :
  search suffix_pattern s = Some m ->
  first_match suffix_pattern s m /\ capitalized_with LEGAL_SUFFIXES m /\ strip m = m.
Proof.
  intros H. apply search_first_match in H. split; [done|].
  assert (Hc : capitalized_with LEGAL_SUFFIXES m).
  { destruct H as (? & ? & _ & HL & _).
    eapply lang_capitalized; [apply lang_legal_suffix | done]. }
  split; [done|]. eapply trimmed_strip, capitalized_trimmed; [|done].
  apply legal_suffixes_visible.
Qed.

Lemma search_domain_pattern s m :
  search domain_pattern s = Some m ->
  first_match domain_pattern s m /\ capitalized_with DOMAIN_WORDS m /\ strip m = m.
Proof.
  intros H. apply search_first_match in H. split; [done|].
  assert (Hc : capitalized_with DOMAIN_WORDS m).
  { destruct H as (? & ? & _ & HL & _).
    eapply lang_capitalized; [apply lang_domain_word | done]. }
  split; [done|]. eapply trimmed_strip, capitalized_trimmed; [|done].
  apply domain_words_visible.
Qed.

(** ** Company-name extraction *)

Lemma keyword_loop_spec keywords part part_lower :
  keyword_loop keywords part part_lower
  = if (length part <? 50) && existsb (fun k => contains k part_lower) keywords
    then Some part else None.
Proof.
  induction keywords as [|k kws IH]; simpl.
  - by rewrite andb_false_r.
  - rewrite IH. by destruct (contains k part_lower), (length part <? 50).
Qed.

Lemma parts_loop_spec parts :
  parts_loop parts = List.find qualifies (map strip parts).
Proof.
  induction parts as [|part rest IH]; [done|].
  change (parts_loop (part :: rest)) with
    (match keyword_loop PHARMA_BIOTECH_KEYWORDS (strip part) (lower (strip part)) with
     | Some r => Some r
     | None => parts_loop rest
     end).
  change (map strip (part :: rest)) with (strip part :: map strip rest).
  rewrite keyword_loop_spec. cbn [List.find]. fold (qualifies (strip part)).
  by destruct (qualifies (strip part)).
Qed.

Lemma extract_company_name_refines text :
  extract_company_name text = spec_extractOrganizationName text.
Proof.
  destruct text as [[|c a]|]; try done.
  unfold extract_company_name, spec_extractOrganizationName, patterns, pattern_loop.
  destruct (search suffix_pattern (c :: a)); [done|].
  destruct (search domain_pattern (c :: a)); [done|].
  apply parts_loop_spec.
Qed.

(** C4. Extraction is absent on empty or absent text; otherwise the
    capitalized phrase ending in a legal-entity suffix found by the first
    pattern, else the capitalized phrase ending in a domain word found by the
    second, the match trimmed; else the first trimmed comma-segment shorter
    than 50 characters whose lower-cased form contains an industry term; else
    absent.  On "Pfizer Inc., New York, NY" the classifier answers true and
    the extraction is "Pfizer Inc.". *)
Theorem extract_company_name_spec :
  (forall text, extract_company_name text = spec_extractOrganizationName text) /\
  (forall s m, search suffix_pattern s = Some m ->
     first_match suffix_pattern s m /\ capitalized_with LEGAL_SUFFIXES m /\
     strip m = m) /\
  (forall s m, search domain_pattern s = Some m ->
     first_match domain_pattern s m /\ capitalized_with DOMAIN_WORDS m /\
     strip m = m) /\
  is_non_academic_affiliation (Some (lit "Pfizer Inc., New York, NY")) = true /\
  extract_company_name (Some (lit "Pfizer Inc., New York, NY"))
  = Some (lit "Pfizer Inc.").
Proof.
  split; [apply extract_company_name_refines|].
  split; [apply search_suffix_pattern|].
  split; [apply search_domain_pattern|].
  split; vm_compute; reflexivity.
Qed.

Lemma extract_company_name_spec_witness :
  capitalized_with LEGAL_SUFFIXES (lit "Pfizer Inc.").
Proof.
  destruct extract_company_name_spec as (_ & H & _).
  apply (H (lit "Pfizer Inc., New York, NY") (lit "Pfizer Inc.")).
  vm_compute. reflexivity.
Defined.

Lemma find_qualifies parts r :
  List.find qualifies parts = Some r -> r ∈ parts /\ qualifies r = true.
Proof.
  intros H. apply find_some in H as [H1 H2]. by rewrite list_elem_of_In.
Qed.

Lemma qualifies_nonempty r : qualifies r = true -> r <> [].
Proof. intros H ->. vm_compute in H. discriminate. Qed.

Lemma capitalized_nonempty endings m : capitalized_with endings m -> m <> [].
Proof. intros (c & body & e & -> & _). done. Qed.

(** What the extraction returns is one of three things. *)
Lemma extract_company_name_cases s r :
  extract_company_name (Some s) = Some r ->
  (search suffix_pattern s = Some r /\ capitalized_with LEGAL_SUFFIXES r /\
   strip r = r) \/
  (search suffix_pattern s = None /\ search domain_pattern s = Some r /\
   capitalized_with DOMAIN_WORDS r /\ strip r = r) \/
  (search suffix_pattern s = None /\ search domain_pattern s = None /\
   exists seg, seg ∈ split "," s /\ r = strip seg /\ qualifies r = true).
Proof.
  rewrite extract_company_name_refines. destruct s as [|c s]; [done|].
  unfold spec_extractOrganizationName.
  destruct (search suffix_pattern (c :: s)) as [m|] eqn:E1.
  { destruct (search_suffix_pattern _ _ E1) as (_ & Hc & Hs).
    rewrite Hs. intros [= <-]. by left. }
  destruct (search domain_pattern (c :: s)) as [m|] eqn:E2.
  { destruct (search_domain_pattern _ _ E2) as (_ & Hc & Hs).
    rewrite Hs. intros [= <-]. right; by left. }
  intros H. apply find_qualifies in H as [H1 H2].
  apply list_elem_of_fmap in H1 as (seg & -> & Hseg).
  right; right. repeat split; try done. by exists seg.
Qed.

(** The extraction returns a non-empty text. *)
Lemma extract_company_name_nonempty s r :
  extract_company_name (Some s) = Some r -> r <> [].
Proof.
  intros H. apply extract_company_name_cases in H
    as [(_ & Hc & _) | [(_ & _ & Hc & _) | (_ & _ & seg & _ & _ & Hq)]];
    eauto using capitalized_nonempty, qualifies_nonempty.
Qed.

(** Extraction leaves its own results unchanged. *)
Lemma extract_company_name_fixed s r :
  extract_company_name (Some s) = Some r ->
  extract_company_name (Some r) = Some r.
Proof.
  intros H. pose proof (extract_company_name_nonempty _ _ H) as Hne.
  rewrite extract_company_name_refines.
  destruct r as [|c r]; [done|]. unfold spec_extractOrganizationName.
  apply extract_company_name_cases in H
    as [(E1 & _ & Hs) | [(E1 & E2 & _ & Hs) | (E1 & E2 & seg & Hseg & Hr & Hq)]].
  - by rewrite (search_again _ _ _ E1), Hs.
  - assert (Hocc : occurs_in (c :: r) s)
      by (eapply first_match_occurs, search_first_match, E2).
    by rewrite (search_None_part _ _ _ E1 Hocc), (search_again _ _ _ E2), Hs.
  - apply split_segments in Hseg as [Hocc Hcomma].
    assert (Hocc' : occurs_in (c :: r) s).
    { rewrite Hr. eapply occurs_in_trans; [apply strip_occurs | done]. }
    rewrite (search_None_part _ _ _ E1 Hocc'), (search_None_part _ _ _ E2 Hocc').
    assert (Hnc : ","%char ∉ c :: r).
    { rewrite Hr. intros Hin. apply Hcomma.
      eapply occurs_in_elem; [apply strip_occurs | done]. }
    rewrite (split_no_sep _ _ Hnc).
    change (map strip [c :: r]) with [strip (c :: r)].
    rewrite Hr, strip_strip, <- Hr. cbn [List.find]. by rewrite Hq.
Qed.

(** C9. Extraction is idempotent: when it returns a result that contains
    no comma, running it on that result returns the same text or nothing. *)
Theorem extract_company_name_idempotent (text : option str) (r : str) :
  extract_company_name text = Some r ->
  ","%char ∉ r ->
  extract_company_name (Some r) = Some r \/ extract_company_name (Some r) = None.
Proof.
  intros H _. left. destruct text as [s|]; [|done].
  by apply extract_company_name_fixed with s.
Qed.

Lemma extract_company_name_idempotent_witness :
  extract_company_name (Some (lit "Genentech")) = Some (lit "Genentech") \/
  extract_company_name (Some (lit "Genentech")) = None.
Proof.
  apply (extract_company_name_idempotent
           (Some (lit "Genentech, South San Francisco, CA")) (lit "Genentech")).
  - vm_compute. reflexivity.
  - apply (bool_decide_unpack _). vm_compute. exact I.
Defined.

(** ** The loop over the authors *)

Lemma affiliation_loop_spec affs flag A C :
  affiliation_loop affs flag A C
  = (flag || existsb (fun a => is_non_academic_affiliation (Some a)) affs,
     A ++ affs,
     C ∪ list_to_set (omap company_of affs)).
Proof.
  revert flag A C. induction affs as [|a affs IH]; intros flag A C.
  - simpl. rewrite orb_false_r, app_nil_r. f_equal. set_solver.
  - change (affiliation_loop (a :: affs) flag A C) with
      (if is_non_academic_affiliation (Some a) then
         match extract_company_name (Some a) with
         | Some (c :: t) => affiliation_loop affs true (A ++ [a]) (C ∪ {[ c :: t ]})
         | _ => affiliation_loop affs true (A ++ [a]) C
         end
       else affiliation_loop affs flag (A ++ [a]) C).
    cbn [existsb omap list_omap]. unfold company_of at 1.
    destruct (is_non_academic_affiliation (Some a)) eqn:En.
    + destruct (extract_company_name (Some a)) as [[|c t]|] eqn:Ee.
      * by apply extract_company_name_nonempty in Ee.
      * rewrite IH, orb_true_r, <- app_assoc. simpl. f_equal. set_solver.
      * rewrite IH, orb_true_r, <- app_assoc. done.
    + rewrite IH, <- app_assoc, orb_false_l. done.
Qed.

Lemma author_step_skip st a : has_name a = false -> author_step st a = st.
Proof.
  unfold has_name, author_step. by destruct (author_name_of a) as [[|]|].
Qed.

Lemma author_step_named st a :
  has_name a = true ->
  author_step st a =
    mkParseState
      (authors st ++ [name_of a])
      (affiliations st ++ author_affiliations_of a)
      (if is_industry_author a
       then non_academic_authors st ++ [name_of a]
       else non_academic_authors st)
      (company_affiliations st
         ∪ list_to_set (omap company_of (author_affiliations_of a)))
      (if is_NA (corresponding_email st)
       then default (corresponding_email st) (email_loop (author_affiliations_of a))
       else corresponding_email st).
Proof.
  unfold has_name, author_step, name_of, is_industry_author.
  destruct (author_name_of a) as [[|c n]|]; try done. intros _.
  by rewrite affiliation_loop_spec.
Qed.

Lemma foldl_author_step_names st elems :
  non_academic_authors (foldl author_step st elems)
  = non_academic_authors st
    ++ map name_of (List.filter is_industry_author (List.filter has_name elems)).
Proof.
  revert st. induction elems as [|a elems IH]; intros st; simpl.
  - by rewrite app_nil_r.
  - rewrite IH. destruct (has_name a) eqn:E.
    + rewrite author_step_named by done. simpl.
      destruct (is_industry_author a); simpl; [by rewrite <- app_assoc | done].
    + by rewrite author_step_skip.
Qed.

Lemma foldl_author_step_companies st elems :
  company_affiliations (foldl author_step st elems)
  = company_affiliations st
    ∪ list_to_set (omap company_of (List.filter has_name elems ≫= author_affiliations_of)).
Proof.
  revert st. induction elems as [|a elems IH]; intros st.
  - simpl. set_solver.
  - cbn [foldl List.filter]. rewrite IH. destruct (has_name a) eqn:E.
    + rewrite author_step_named by done. cbn [company_affiliations].
      rewrite bind_cons, omap_app, list_to_set_app_L. set_solver.
    + by rewrite author_step_skip.
Qed.

Lemma email_loop_first texts : email_loop texts = first_email texts.
Proof.
  unfold first_email. induction texts as [|t texts IH]; simpl; [done|].
  destruct (search email_pattern t); [done | apply IH].
Qed.

Lemma first_email_app t1 t2 :
  first_email (t1 ++ t2)
  = match first_email t1 with Some e => Some e | None => first_email t2 end.
Proof.
  unfold first_email. rewrite omap_app.
  destruct (omap (search email_pattern) t1); done.
Qed.

(** ** The corresponding e-mail *)

Lemma lang_email_shaped e : lang email_pattern e -> email_shaped e.
Proof.
  intros H. unfold email_pattern in H. invert_lang.
  repeat match goal with
         | H : lang (Plus _) _ |- _ => inversion H; subst; clear H
         | H : is_char _ _ = true |- _ => apply is_char_eq in H; subst
         end.
  match goal with
  | H1 : forallb email_local ?l = true, H2 : forallb email_label ?d1 = true,
    H3 : forallb email_domain ?d2 = true |- _ => exists l, d1, d2
  end.
  repeat split; auto.
Qed.

Lemma email_shaped_at e : email_shaped e -> "@"%char ∈ e.
Proof.
  intros (l & d1 & d2 & -> & _). rewrite elem_of_app. right. left.
Qed.

Lemma search_email_shaped t e :
  search email_pattern t = Some e -> email_shaped e /\ occurs_in e t.
Proof.
  intros H. apply search_first_match in H. split.
  - destruct H as (? & ? & _ & HL & _). by apply lang_email_shaped.
  - by eapply first_match_occurs.
Qed.

Lemma search_email_not_NA t e : search email_pattern t = Some e -> is_NA e = false.
Proof.
  intros H. apply search_email_shaped in H as [H _]. apply email_shaped_at in H.
  unfold is_NA. apply bool_decide_eq_false. intros ->.
  revert H. apply (bool_decide_unpack _). vm_compute. exact I.
Qed.

Lemma search_email_contains_at t e :
  search email_pattern t = Some e -> contains (lit "@") t = true.
Proof.
  intros H. apply search_email_shaped in H as [Hs Ho]. apply contains_spec.
  eapply occurs_in_trans; [|apply Ho].
  destruct Hs as (l & d1 & d2 & -> & _). by exists l, (d1 ++ lit "." ++ d2).
Qed.

Lemma first_email_cons t texts :
  first_email (t :: texts)
  = match search email_pattern t with
    | Some e => Some e
    | None => first_email texts
    end.
Proof. unfold first_email. simpl. by destruct (search email_pattern t). Qed.

Lemma first_email_found texts e :
  first_email texts = Some e ->
  exists before t after,
    texts = before ++ t :: after /\ search email_pattern t = Some e /\
    Forall (fun u => search email_pattern u = None) before.
Proof.
  induction texts as [|t texts IH]; [done|].
  rewrite first_email_cons. destruct (search email_pattern t) as [e'|] eqn:E.
  - intros [= ->]. by exists [], t, texts.
  - intros H. destruct (IH H) as (before & t' & after & -> & Ht & Hb).
    exists (t :: before), t', after. repeat split; [done|]. by constructor.
Qed.

Lemma first_email_not_NA texts e : first_email texts = Some e -> is_NA e = false.
Proof.
  intros H. apply first_email_found in H as (? & t & ? & _ & H & _).
  by eapply search_email_not_NA.
Qed.

Lemma metadata_email_loop_first elems :
  metadata_email_loop elems = first_email (omap text elems).
Proof.
  induction elems as [|elem rest IH]; [done|].
  cbn [metadata_email_loop omap list_omap].
  destruct (text elem) as [[|c t]|]; [|rewrite first_email_cons|done].
  - rewrite first_email_cons.
    replace (search email_pattern []) with (@None str) by (vm_compute; reflexivity).
    done.
  - destruct (contains (lit "@") (c :: t)) eqn:E.
    + by destruct (search email_pattern (c :: t)).
    + destruct (search email_pattern (c :: t)) eqn:Es; [|done].
      apply search_email_contains_at in Es. congruence.
Qed.

Lemma foldl_author_step_email st elems :
  corresponding_email (foldl author_step st elems)
  = if is_NA (corresponding_email st)
    then default (corresponding_email st)
           (first_email (List.filter has_name elems ≫= author_affiliations_of))
    else corresponding_email st.
Proof.
  revert st. induction elems as [|a elems IH]; intros st.
  - simpl. by destruct (is_NA (corresponding_email st)).
  - cbn [foldl List.filter]. rewrite IH. destruct (has_name a) eqn:E.
    + rewrite author_step_named by done. cbn [corresponding_email].
      rewrite bind_cons, first_email_app, email_loop_first.
      destruct (is_NA (corresponding_email st)) eqn:Ena; [|by rewrite Ena].
      destruct (first_email (author_affiliations_of a)) as [e|] eqn:Ef; simpl.
      * by rewrite (first_email_not_NA _ _ Ef).
      * by rewrite Ena.
    + by rewrite author_step_skip.
Qed.

(** C8. The corresponding e-mail is the first match of the pattern met
    when the affiliation strings of the authors are scanned in document
    order; when no affiliation has a match, it is the first match met when
    the texts of all nodes of the record are scanned; otherwise it is "N/A".
    A match has the form local@label.domain. *)
Theorem corresponding_email_spec (article : Element) :
  final_email article
  = match first_email (affiliation_texts article) with
    | Some e => e
    | None => default (lit "N/A") (first_email (node_texts article))
    end /\
  (forall texts e, first_email texts = Some e ->
     email_shaped e /\
     exists before t after,
       texts = before ++ t :: after /\ first_match email_pattern t e /\
       Forall (fun u => search email_pattern u = None) before).
Proof.
  split.
  - unfold final_email, authors_loop, affiliation_texts, named_authors, node_texts.
    rewrite foldl_author_step_email. cbn [initial_state corresponding_email].
    replace (is_NA (lit "N/A")) with true by (vm_compute; reflexivity).
    destruct (first_email _) as [e|] eqn:E; simpl.
    + by rewrite (first_email_not_NA _ _ E).
    + replace (is_NA (lit "N/A")) with true by (vm_compute; reflexivity).
      by rewrite metadata_email_loop_first.
  - intros texts e H. apply first_email_found in H as (before & t & after & -> & Ht & Hb).
    split; [by apply search_email_shaped in Ht as [? _]|].
    exists before, t, after. repeat split; [|done]. by apply search_first_match.
Qed.

Lemma corresponding_email_spec_witness :
  email_shaped (lit "jd@gene.com").
Proof.
  apply (corresponding_email_spec (mkElement [] None []))
    with (texts := [lit "Genentech, CA."; lit "Contact: jd@gene.com"]).
  vm_compute. reflexivity.
Defined.

(** ** Company names and the company field of a record *)

Lemma extract_company_name_not_NA s r :
  extract_company_name (Some s) = Some r -> r <> lit "N/A".
Proof.
  assert (Hcap : forall endings, capitalized_with endings (lit "N/A") -> False).
  { intros endings (c & body & e & E & _ & Hne & Hb & _).
    destruct body as [|b body]; [done|].
    vm_compute in E. injection E as _ <- _.
    cbn [forallb] in Hb. apply andb_true_iff in Hb as [Hb _].
    vm_compute in Hb. discriminate. }
  intros H ->. apply extract_company_name_cases in H
    as [(_ & Hc & _) | [(_ & _ & Hc & _) | (_ & _ & seg & _ & _ & Hq)]];
    [by eapply Hcap | by eapply Hcap |].
  vm_compute in Hq. discriminate.
Qed.

Lemma company_of_Some a x :
  company_of a = Some x -> x <> [] /\ x <> lit "N/A".
Proof.
  unfold company_of. destruct (is_non_academic_affiliation (Some a)); [|done].
  eauto using extract_company_name_nonempty, extract_company_name_not_NA.
Qed.

Lemma authors_loop_companies article :
  company_affiliations (authors_loop article)
  = list_to_set (omap company_of (affiliation_texts article)).
Proof.
  unfold authors_loop, affiliation_texts, named_authors.
  rewrite foldl_author_step_companies. simpl. set_solver.
Qed.

Lemma company_elements article x :
  x ∈ company_affiliations (authors_loop article) ->
  x <> [] /\ x <> lit "N/A".
Proof.
  rewrite authors_loop_companies, elem_of_list_to_set, list_elem_of_omap.
  intros (a & _ & Ha). by eapply company_of_Some.
Qed.

Lemma join_length_two sep x y l :
  length x + length sep + length y <= length (join sep (x :: y :: l)).
Proof.
  change (join sep (x :: y :: l)) with (x ++ sep ++ join sep (y :: l)).
  rewrite !length_app. destruct l as [|z l]; simpl; [lia|].
  rewrite length_app. lia.
Qed.

Lemma join_or_NA_is_NA (l : list str) :
  (forall x, x ∈ l -> x <> [] /\ x <> lit "N/A") ->
  is_NA (join_or_NA l) = true <-> l = [].
Proof.
  intros Hl. unfold is_NA. rewrite bool_decide_eq_true. split; [|by intros ->].
  destruct l as [|x [|y l]]; [done| |].
  - simpl. intros Hx. destruct (Hl x) as [_ Hn]; [left | done].
  - intros H. exfalso. apply (f_equal length) in H.
    pose proof (join_length_two (lit "; ") x y l) as Hlen.
    destruct (Hl y) as [Hy _]; [right; left|].
    destruct (Hl x) as [Hx _]; [left|].
    unfold join_or_NA in H. rewrite H in Hlen.
    change (length (lit "N/A")) with 3 in Hlen.
    change (length (lit "; ")) with 2 in Hlen.
    destruct x, y; try done. simpl in Hlen. lia.
Qed.


Section Records.

Variable iteration_order : gset str -> list str.
Hypothesis iteration_order_perm :
  forall X : gset str, iteration_order X ≡ₚ elements X.

Lemma iteration_order_elem X x : x ∈ iteration_order X <-> x ∈ X.
Proof using iteration_order_perm.
  by rewrite iteration_order_perm, elem_of_elements.
Qed.

Lemma iteration_order_nil X : iteration_order X = [] <-> X = ∅.
Proof using iteration_order_perm.
  split.
  - intros H. apply leibniz_equiv, elements_empty_inv.
    symmetry. apply Permutation_nil_l. rewrite <- H. apply iteration_order_perm.
  - intros ->. apply Permutation_nil_r.
    etrans; [apply iteration_order_perm|]. by rewrite elements_empty.
Qed.

Lemma parse_company_field article paper :
  parse_pubmed_article iteration_order article = Some paper ->
  Company_Affiliations paper
  = join_or_NA (iteration_order (company_affiliations (authors_loop article))).
Proof using Type.
  unfold parse_pubmed_article. destruct (extract_pub_date article); [|done].
  by intros [= <-].
Qed.

(** A record passes the filter exactly when its set of company
    affiliations is not empty. *)
Lemma kept_iff article paper :
  parse_pubmed_article iteration_order article = Some paper ->
  kept paper = true <-> company_affiliations (authors_loop article) <> ∅.
Proof using iteration_order_perm.
  intros H. unfold kept. rewrite (parse_company_field _ _ H).
  rewrite negb_true_iff, <- not_true_iff_false, join_or_NA_is_NA.
  - by rewrite iteration_order_nil.
  - intros x Hx. apply iteration_order_elem in Hx. by eapply company_elements.
Qed.


End Records.

Lemma elements_perm (X : gset str) : elements X ≡ₚ elements X.
Proof. done. Qed.


(** ** The publication date *)

Lemma pub_date_year_absent month_elem day_elem :
  pub_date_of_fields None month_elem day_elem = Ok (lit "N/A").
Proof.
  unfold pub_date_of_fields, format_pub_date. cbn [text_or truthy lit].
  destruct (text_or (lit "01") month_elem) as [m|]; [|done].
  destruct (isalpha m); [|done]. by destruct (strptime_b_month m).
Qed.

Lemma pub_date_defaults year :
  truthy (Some year) = true ->
  pub_date_of_fields (Some (mkElement (lit "Year") (Some year) [])) None None
  = Ok (year ++ lit "-01-01").
Proof.
  intros Hy. unfold pub_date_of_fields, format_pub_date.
  cbn [text_or text]. rewrite Hy.
  replace (isalpha (lit "01")) with false by (vm_compute; reflexivity).
  replace (py_int (inl (Some (lit "01")))) with (Ok 1%Z) by (vm_compute; reflexivity).
  done.
Qed.

Lemma pub_date_month_name year m k :
  truthy (Some year) = true -> isalpha m = true ->
  strptime_b_month m = Some k ->
  pub_date_of_fields (Some (mkElement (lit "Year") (Some year) []))
                     (Some (mkElement (lit "Month") (Some m) [])) None
  = Ok (year ++ lit "-" ++ format_02d k ++ lit "-01").
Proof.
  intros Hy Ha Hk. unfold pub_date_of_fields, format_pub_date.
  cbn [text_or text]. rewrite Hy, Ha, Hk. cbn [py_int].
  replace (py_int (inl (Some (lit "01")))) with (Ok 1%Z) by (vm_compute; reflexivity).
  done.
Qed.

Lemma pub_date_month_unresolved year_elem m day_elem :
  isalpha m = true -> strptime_b_month m = None ->
  pub_date_of_fields year_elem (Some (mkElement (lit "Month") (Some m) [])) day_elem
  = Ok (if truthy (text_or (lit "") year_elem)
        then default [] (text_or (lit "") year_elem) else lit "N/A").
Proof.
  intros Ha Hk. unfold pub_date_of_fields, format_pub_date.
  cbn [text_or text]. by rewrite Ha, Hk.
Qed.

(** The date block returns whenever the day is absent or has a text. *)
Lemma pub_date_returns year_elem month_elem day_elem :
  (forall e, day_elem = Some e -> is_Some (text e)) ->
  is_ok (pub_date_of_fields year_elem month_elem day_elem) = true.
Proof.
  intros Hday. unfold pub_date_of_fields, format_pub_date.
  assert (Hd : exists d, text_or (lit "01") day_elem = Some d).
  { destruct day_elem as [e|]; [|by eexists].
    destruct (Hday e eq_refl) as [d Hd]. by exists d. }
  destruct Hd as [d ->].
  destruct (text_or (lit "01") month_elem) as [m|]; [|done].
  assert (Hint : forall x, match py_int (inl (Some x)) with
                           | Ok _ => True | Raise e => e = ValueError end).
  { intros x. unfold py_int. by destruct (int_of_str x). }
  pose proof (Hint d) as Hd.
  destruct (isalpha m).
  - destruct (strptime_b_month m) as [k|]; [|done].
    destruct (truthy _); [|done]. change (py_int (inr k)) with (Ok k).
    destruct (py_int (inl (Some d))); [done | by subst].
  - destruct (truthy _); [|done]. pose proof (Hint m) as Hm.
    destruct (py_int (inl (Some m))); [|by subst].
    destruct (py_int (inl (Some d))); [done | by subst].
Qed.

(** C5, where the code departs from it.  With a year, a resolvable month and
    a [Day] element that has no text, the date block raises [TypeError], an
    exception that its handler does not name; the parser then gives the
    record up.  The scenarios of the claim hold: year 2021, month "Jan", no
    day gives "2021-01-01", and an absent year gives "N/A". *)
Theorem pub_date_empty_day_raises :
  pub_date_of_fields (Some (mkElement (lit "Year") (Some (lit "2021")) []))
                     None
                     (Some (mkElement (lit "Day") None []))
  = Raise TypeError /\
  (forall iteration_order,
     parse_pubmed_article iteration_order empty_day_article = None) /\
  pub_date_of_fields (Some (mkElement (lit "Year") (Some (lit "2021")) []))
                     (Some (mkElement (lit "Month") (Some (lit "Jan")) []))
                     None
  = Ok (lit "2021-01-01") /\
  (forall month_elem day_elem,
     pub_date_of_fields None month_elem day_elem = Ok (lit "N/A")).
Proof.
  split; [vm_compute; reflexivity|]. split.
  - intros io. unfold parse_pubmed_article.
    by replace (extract_pub_date empty_day_article) with (@Raise str TypeError)
      by (vm_compute; reflexivity).
  - split; [vm_compute; reflexivity | apply pub_date_year_absent].
Qed.

(** ** The world *)

Lemma extend_nil w : extend w [] = w.
Proof. destruct w. unfold extend. simpl. by rewrite app_nil_r. Qed.

Lemma extend_extend w es es' : extend (extend w es) es' = extend w (es ++ es').
Proof. unfold extend. simpl. by rewrite app_assoc. Qed.

Lemma record_extend e w : record e w = extend w [e].
Proof. done. Qed.

Lemma requests_made_extend w es :
  requests_made (extend w es)
  = requests_made w + length (List.filter is_request es).
Proof. unfold requests_made, extend. simpl. by rewrite List.filter_app, length_app. Qed.

Lemma sleeps_extend w es :
  sleeps (extend w es)
  = sleeps w ++ omap (fun e => match e with Slept d => Some d | _ => None end) es.
Proof. unfold sleeps, extend. simpl. by rewrite omap_app. Qed.

(** One [requests.get] followed by [raise_for_status]. *)
Lemma attempt_outcome url params w :
  (let* response := requests_get url params in
   let* _ := raise_for_status response in
   ret (Some response)) w
  = match failure_of (replies w (requests_made w)) with
    | Some (detail, status) =>
        (Raise (RequestException detail status), extend w [Requested url params])
    | None =>
        (Ok (response_of (replies w (requests_made w))),
         extend w [Requested url params])
    end.
Proof.
  unfold bind, requests_get, raise_for_status, failure_of, response_of.
  destruct (replies w (requests_made w)) as [d|sc c u]; [done|].
  cbn [status_code]. by destruct ((400 <=? sc) && (sc <? 600))%Z.
Qed.

(** ** Retry and backoff *)

Lemma attempt_loop_cons attempt rest url params w :
  attempt_loop (attempt :: rest) url params w
  = match failure_of (replies w (requests_made w)) with
    | None =>
        (Ok (response_of (replies w (requests_made w))),
         extend w [Requested url params])
    | Some (detail, status) =>
        if attempt =? max_retries - 1
        then (Raise (APIError max_retries detail status),
              extend w [Requested url params])
        else attempt_loop rest url params
               (extend w [Requested url params;
                          Slept (inject_Z (2 ^ Z.of_nat attempt))])
    end.
Proof.
  cbn [attempt_loop]. unfold catch. rewrite attempt_outcome.
  destruct (failure_of (replies w (requests_made w))) as [[d s]|]; [|done].
  destruct (attempt =? max_retries - 1); [done|].
  unfold bind, sleep. by rewrite record_extend, extend_extend.
Qed.

Lemma _make_api_request_outcome url params w :
  _make_api_request url params w = backoff_outcome url params w.
Proof.
  unfold _make_api_request, backoff_outcome.
  change (seq 0 max_retries) with [0; 1; 2].
  rewrite attempt_loop_cons.
  destruct (failure_of (replies w (requests_made w))) as [[d1 s1]|]; [|done].
  change (0 =? max_retries - 1) with false. cbv iota.
  rewrite attempt_loop_cons, requests_made_extend.
  cbn [List.filter is_request length replies extend].
  destruct (failure_of (replies w (requests_made w + 1))) as [[d2 s2]|];
    [|by rewrite extend_extend].
  change (1 =? max_retries - 1) with false. cbv iota.
  rewrite extend_extend, attempt_loop_cons, requests_made_extend.
  cbn [List.filter is_request length replies extend app].
  destruct (failure_of (replies w (requests_made w + 2))) as [[d3 s3]|];
    by rewrite extend_extend.
Qed.

(** ** Validation in [search_papers] *)

Lemma truthy_false s : truthy (Some s) = false <-> s = [].
Proof. by destruct s. Qed.

Lemma validate_query_invalid query :
  strip query = [] \/ 1000 < length query ->
  exists message, validate_query query = Raise (ValidationError message).
Proof.
  unfold validate_query. intros [H|H].
  - rewrite H. cbn [truthy negb]. rewrite orb_true_r. by eexists.
  - destruct (_ || _); [by eexists|].
    apply Nat.ltb_lt in H. rewrite H. by eexists.
Qed.

Lemma validate_query_valid query :
  strip query <> [] -> ~ 1000 < length query -> validate_query query = Ok tt.
Proof.
  unfold validate_query. intros H1 H2.
  assert (query <> []) by (intros ->; by apply H1).
  destruct query as [|c q]; [done|]. destruct (strip (c :: q)); [done|].
  cbn [truthy negb orb]. apply Nat.ltb_nlt in H2. by rewrite H2.
Qed.

(** What follows the first request of a search never raises a
    [ValidationError]. *)
Lemma search_decode_outcome (response : option Response) w message :
  fst (match response with
       | None => raise AttributeError
       | Some response =>
           catch
             (let* search_data := requests_get (url response) ∅ in
              let* pmids := lift (json_idlist (content search_data)) in
              ret pmids)
             (fun e => match e with
                       | ValueError => Some (raise ParseError)
                       | _ => None
                       end)
       end w) <> Raise (ValidationError message).
Proof.
  destruct response as [response|]; [|done].
  unfold catch, bind, requests_get, lift, ret, raise.
  destruct (replies w (requests_made w)) as [d|sc c u]; [done|].
  cbn [content]. by destruct c.
Qed.

(** C6. [search_papers] raises [ValidationError], with the world untouched,
    exactly when the query is empty after trimming, is longer than 1000
    characters, or [max_results] is below 1.  On any other input it raises
    no [ValidationError], and when the service answers it returns the list
    of identifiers of the answer, empty or not. *)
Theorem search_papers_validation self query max_results w :
  (invalid_search query max_results ->
     exists message,
       search_papers self query max_results w
       = (Raise (ValidationError message), w)) /\
  (~ invalid_search query max_results ->
     (forall message,
        fst (search_papers self query max_results w)
        <> Raise (ValidationError message)) /\
     (forall sc c u sc' idlist u',
        replies w (requests_made w) = HttpResponse sc c u ->
        failure_of (HttpResponse sc c u) = None ->
        replies w (S (requests_made w)) = HttpResponse sc' (JsonDocument idlist) u' ->
        fst (search_papers self query max_results w) = Ok idlist)).
Proof.
  unfold invalid_search, search_papers. split.
  - intros Hinv. unfold bind at 1, lift.
    destruct (decide (strip query = [] \/ 1000 < length query)) as [Hq|Hq].
    + destruct (validate_query_invalid _ Hq) as [message ->]. by exists message.
    + rewrite validate_query_valid by tauto.
      assert (max_results < 1)%Z as Hm by tauto.
      apply Z.ltb_lt in Hm. rewrite Hm. by eexists.
  - intros Hv. unfold bind at 1, lift.
    rewrite validate_query_valid by tauto.
    assert ((max_results <? 1)%Z = false) as -> by (apply Z.ltb_ge; lia).
    unfold bind. rewrite _make_api_request_outcome. split.
    + intros message. unfold backoff_outcome.
      repeat match goal with
             | |- context [failure_of ?r] => destruct (failure_of r) as [[? ?]|]
             end;
        solve [done | apply search_decode_outcome].
    + intros sc c u sc' idlist u' H1 Hok H2. unfold backoff_outcome.
      rewrite H1, Hok. cbn [response_of].
      unfold catch, bind, requests_get, lift, ret.
      rewrite requests_made_extend.
      cbn [List.filter is_request length replies extend].
      rewrite Nat.add_1_r, H2. done.
Qed.

Lemma search_papers_validation_witness :
  exists message,
    search_papers plain_finder (lit "cancer") 0 service_down
    = (Raise (ValidationError message), service_down).
Proof.
  apply (search_papers_validation plain_finder (lit "cancer") 0 service_down).
  right. right. reflexivity.
Defined.

(** ** Batches *)

Lemma range_from_bound fuel start stop step i :
  i ∈ range_from fuel start stop step -> i < stop.
Proof.
  revert start. induction fuel as [|fuel IH]; intros start; simpl; [by inversion 1|].
  destruct (start <? stop) eqn:E; [|by inversion 1].
  apply Nat.ltb_lt in E. rewrite elem_of_cons. intros [-> | H]; [done | by eapply IH].
Qed.

Lemma range_from_concat (l : list PMID) k fuel i :
  0 < k -> length l <= fuel + i ->
  concat (map (fun j => take k (drop j l)) (range_from fuel i (length l) k))
  = drop i l.
Proof.
  intros Hk. revert i. induction fuel as [|fuel IH]; intros i Hf; simpl.
  - by rewrite drop_ge by lia.
  - destruct (i <? length l) eqn:E.
    + simpl. rewrite IH by lia.
      rewrite <- (drop_drop l k i), take_drop. done.
    + apply Nat.ltb_ge in E. by rewrite drop_ge.
Qed.

Lemma range_from_length fuel i n :
  n <= fuel + i ->
  length (range_from fuel i n batch_size) = (n - i + 99) / 100.
Proof.
  unfold batch_size. revert i.
  induction fuel as [|fuel IH]; intros i Hf; cbn [range_from].
  - replace (n - i) with 0 by lia. done.
  - destruct (i <? n) eqn:E.
    + apply Nat.ltb_lt in E. cbn [length]. rewrite IH by lia.
      destruct (decide (n - i <= 100)) as [Hs|Hs].
      * replace (n - (i + 100)) with 0 by lia.
        change ((0 + 99) / 100) with 0.
        apply (Nat.div_unique (n - i + 99) 100 1 (n - i - 1)); lia.
      * assert (Hd : (n - i + 99) / 100 = (n - (i + 100) + 99) / 100 + 1).
        { rewrite <- (Nat.div_add _ 1 100) by lia. f_equal. lia. }
        rewrite Hd. lia.
    + apply Nat.ltb_ge in E. replace (n - i) with 0 by lia. done.
Qed.

Lemma batches_concat pmids : concat (batches pmids) = pmids.
Proof.
  unfold batches, range. rewrite range_from_concat; [done | unfold batch_size; lia | lia].
Qed.

Lemma batches_length pmids : length (batches pmids) = (length pmids + 99) / 100.
Proof.
  unfold batches, range. rewrite length_map, range_from_length by lia.
  by rewrite Nat.sub_0_r.
Qed.

Lemma batches_sizes pmids :
  Forall (fun b => 0 < length b <= 100) (batches pmids).
Proof.
  unfold batches, range. apply Forall_fmap, Forall_forall. intros i Hi.
  apply range_from_bound in Hi. simpl.
  rewrite length_take, length_drop. unfold batch_size. lia.
Qed.

(** ** Fetching *)

(** One pass through the body of the loop: one request, whose failure or
    undecodable answer leaves the accumulated list as it is and skips the
    pause. *)
Lemma fetch_batch_outcome io self b all w :
  fetch_batch io self b all w
  = match batch_document (replies w (requests_made w)) with
    | Some root =>
        (Ok (all ++ parse_articles io root),
         extend w [Requested efetch_url (fetch_params self b); Slept (1 # 2)])
    | None => (Ok all, extend w [Requested efetch_url (fetch_params self b)])
    end.
Proof.
  unfold fetch_batch, catch, bind, requests_get, raise_for_status, lift, sleep,
    ret, raise, batch_document, failure_of.
  destruct (replies w (requests_made w)) as [d|sc c u]; [done|].
  cbn [status_code content].
  destruct ((400 <=? sc) && (sc <? 600))%Z; [done|].
  destruct c; try done. cbn [ET_fromstring].
  by rewrite !record_extend, extend_extend.
Qed.

Lemma fetch_events_requests replies n self bs :
  List.filter is_request (fetch_events replies n self bs)
  = map (fun b => Requested efetch_url (fetch_params self b)) bs.
Proof.
  revert n. induction bs as [|b bs IH]; intros n; [done|].
  cbn [fetch_events map List.filter is_request].
  rewrite List.filter_app, IH. by destruct (batch_document (replies n)).
Qed.

Lemma batch_loop_outcome io self starts pmids all w :
  exists papers,
    batch_loop io self starts pmids all w
    = (Ok papers,
       extend w (fetch_events (replies w) (requests_made w) self
                   (map (fun i => take batch_size (drop i pmids)) starts))) /\
    forall P : PaperInfo -> Prop,
      Forall P all ->
      (forall article paper,
         parse_pubmed_article io article = Some paper -> P paper) ->
      Forall P papers.
Proof.
  revert all w. induction starts as [|i starts IH]; intros all w.
  - exists all. simpl. unfold ret. by rewrite extend_nil.
  - cbn [batch_loop map fetch_events]. unfold bind. rewrite fetch_batch_outcome.
    destruct (batch_document (replies w (requests_made w))) as [root|].
    + destruct (IH (all ++ parse_articles io root)
                  (extend w [Requested efetch_url
                               (fetch_params self (take batch_size (drop i pmids)));
                             Slept (1 # 2)])) as (papers & E & HP).
      exists papers. split.
      * rewrite E, extend_extend, requests_made_extend.
        cbn [List.filter is_request length replies extend].
        by rewrite Nat.add_1_r.
      * intros P Hall Hparse. apply HP; [|done]. apply Forall_app. split; [done|].
        unfold parse_articles. apply Forall_forall. intros paper Hin.
        apply list_elem_of_omap in Hin as (article & _ & Ha). by eapply Hparse.
    + destruct (IH all
                  (extend w [Requested efetch_url
                               (fetch_params self (take batch_size (drop i pmids)))]))
        as (papers & E & HP).
      exists papers. split; [|done].
      rewrite E, extend_extend, requests_made_extend.
      cbn [List.filter is_request length replies extend].
      by rewrite Nat.add_1_r.
Qed.

Lemma fetch_paper_details_outcome io self pmids w :
  exists papers,
    fetch_paper_details io self pmids w
    = (Ok papers,
       extend w (fetch_events (replies w) (requests_made w) self (batches pmids))) /\
    forall P : PaperInfo -> Prop,
      (forall article paper,
         parse_pubmed_article io article = Some paper -> P paper) ->
      Forall P papers.
Proof.
  destruct pmids as [|p pmids].
  - exists []. split; [|by intros]. simpl. unfold ret. by rewrite extend_nil.
  - destruct (batch_loop_outcome io self
                (range 0 (length (p :: pmids)) batch_size) (p :: pmids) [] w)
      as (papers & E & HP).
    exists papers. split; [done|]. intros P HP'. by apply HP.
Qed.

(** C7, as the code has it.  [fetch_paper_details] always returns; it cuts
    the identifiers into consecutive batches of 1 to 100 identifiers, which
    put together give the list back; it issues one request per batch, so
    ceil(N/100) requests for N identifiers and none for the empty list; and
    it pauses for half a time unit after each batch that yields a document,
    but not after a batch whose request fails or whose answer does not
    decode. *)
Theorem fetch_paper_details_batches io self pmids w :
  (exists papers,
     fetch_paper_details io self pmids w
     = (Ok papers,
        extend w (fetch_events (replies w) (requests_made w) self (batches pmids)))) /\
  concat (batches pmids) = pmids /\
  Forall (fun b => 0 < length b <= 100) (batches pmids) /\
  List.filter is_request
    (fetch_events (replies w) (requests_made w) self (batches pmids))
  = map (fun b => Requested efetch_url (fetch_params self b)) (batches pmids) /\
  requests_made (snd (fetch_paper_details io self pmids w))
  = requests_made w + (length pmids + 99) / 100.
Proof.
  destruct (fetch_paper_details_outcome io self pmids w) as (papers & E & _).
  split; [by exists papers|].
  split; [apply batches_concat|].
  split; [apply batches_sizes|].
  split; [apply fetch_events_requests|].
  rewrite E. cbn [snd]. rewrite requests_made_extend, fetch_events_requests.
  by rewrite length_map, batches_length.
Qed.

(** Against C7 as stated: the pause is not unconditional.  When the only
    batch gets no answer, the request is made and no pause follows. *)
Lemma pause_skipped_on_failure :
  let w := snd (fetch_paper_details elements plain_finder [lit "1"] service_down) in
  length (batches [lit "1"]) = 1 /\ requests_made w = 1 /\ sleeps w = [].
Proof. vm_compute. done. Qed.

(** C3, as the code has it.  [_make_api_request] makes at most three
    attempts, pausing for 1 and then 2 time units between them, and when all
    three fail it raises an [APIError] with the payload of the third
    failure; the request of a batch is made once, without retry, and its
    failure leaves the batch empty. *)
Theorem retry_policy url params io self b all w :
  let r := _make_api_request url params w in
  let n := requests_made w in
  r = backoff_outcome url params w /\
  (exists k, 1 <= k <= 3 /\ requests_made (snd r) = n + k /\
             sleeps (snd r) = sleeps w ++ take (k - 1) [1; 2]%Q) /\
  ((forall i, i < 3 -> is_Some (failure_of (replies w (n + i)))) ->
   exists detail status,
     failure_of (replies w (n + 2)) = Some (detail, status) /\
     fst r = Raise (APIError 3 detail status)) /\
  fetch_batch io self b all w
  = match batch_document (replies w n) with
    | Some root =>
        (Ok (all ++ parse_articles io root),
         extend w [Requested efetch_url (fetch_params self b); Slept (1 # 2)])
    | None => (Ok all, extend w [Requested efetch_url (fetch_params self b)])
    end /\
  requests_made (snd (fetch_batch io self b all w)) = n + 1.
Proof.
  cbv zeta. rewrite _make_api_request_outcome, fetch_batch_outcome.
  split; [done|]. split; [|split; [|split; [done|]]].
  - unfold backoff_outcome.
    destruct (failure_of (replies w (requests_made w))) as [[? ?]|];
      [|exists 1; cbn [snd]; split; [lia|];
        by rewrite requests_made_extend, sleeps_extend].
    destruct (failure_of (replies w (requests_made w + 1))) as [[? ?]|];
      [|exists 2; cbn [snd]; split; [lia|];
        by rewrite requests_made_extend, sleeps_extend].
    exists 3.
    destruct (failure_of (replies w (requests_made w + 2))) as [[? ?]|];
      cbn [snd]; (split; [lia|]);
      by rewrite requests_made_extend, sleeps_extend.
  - intros Hfail. unfold backoff_outcome.
    destruct (Hfail 0 ltac:(lia)) as [[d1 s1] H1].
    destruct (Hfail 1 ltac:(lia)) as [[d2 s2] H2].
    destruct (Hfail 2 ltac:(lia)) as [[d3 s3] H3].
    rewrite Nat.add_0_r in H1. rewrite H1, H2, H3. by exists d3, s3.
  - destruct (batch_document (replies w (requests_made w))); cbn [snd];
      by rewrite requests_made_extend.
Qed.

Lemma retry_policy_witness :
  exists detail status,
    failure_of (replies service_down (requests_made service_down + 2))
    = Some (detail, status) /\
    fst (_make_api_request esearch_url ∅ service_down)
    = Raise (APIError 3 detail status).
Proof.
  apply (retry_policy esearch_url ∅ elements plain_finder [] [] service_down).
  intros i _. vm_compute. by eexists.
Defined.

(** Against C3 as stated: a failing batch request is not retried,
    although the next answer would have been good; and the pauses of an
    exhausted [_make_api_request] are 1 and 2, never 4. *)
Lemma batch_request_not_retried :
  (let r := fetch_paper_details elements plain_finder [lit "1"] service_flaky in
   fst r = Ok [] /\ requests_made (snd r) = 1 /\ sleeps (snd r) = []) /\
  (let r := _make_api_request esearch_url ∅ service_down in
   fst r = Raise (APIError 3 (lit "timeout") None) /\
   requests_made (snd r) = 3 /\ sleeps (snd r) = [1; 2]%Q).
Proof. vm_compute. done. Qed.

(** ** The filter and the pipeline *)

Lemma filter_loop_outcome self papers filtered_papers :
  filter_loop self papers filtered_papers
  = if debug self && existsb kept_untitled papers
    then Raise TypeError
    else Ok (filtered_papers ++ List.filter kept papers).
Proof.
  revert filtered_papers. induction papers as [|paper rest IH]; intros acc.
  - simpl. by rewrite andb_false_r, app_nil_r.
  - cbn [filter_loop List.filter existsb]. fold (kept paper).
    unfold kept_untitled at 1. rewrite !IH.
    destruct (kept paper), (debug self); cbn [andb orb negb];
      rewrite <- ?app_assoc; try done.
    destruct (Title paper) as [t|].
    + by rewrite bool_decide_eq_true_2 by (by eexists).
    + by rewrite bool_decide_eq_false_2 by (by intros [? ?]).
Qed.

Lemma search_papers_frame self query max_results w r w1 :
  search_papers self query max_results w = (r, w1) ->
  sink_failure w1 = sink_failure w.
Proof.
  unfold search_papers, bind at 1, lift.
  destruct (validate_query query); [|by intros [= _ <-]].
  destruct (max_results <? 1)%Z; [by intros [= _ <-]|].
  unfold bind. rewrite _make_api_request_outcome. unfold backoff_outcome.
  assert (Hdec : forall (response : option Response) w' r' w1',
            match response with
            | None => raise AttributeError
            | Some response =>
                catch
                  (let* search_data := requests_get (url response) ∅ in
                   let* pmids := lift (json_idlist (content search_data)) in
                   ret pmids)
                  (fun e => match e with
                            | ValueError => Some (raise ParseError)
                            | _ => None
                            end)
            end w' = (r', w1') -> sink_failure w1' = sink_failure w').
  { intros [response|] w' r' w1'; [|by intros [= _ <-]].
    unfold catch, bind, requests_get, lift, ret, raise.
    destruct (replies w' (requests_made w')) as [d|sc c u]; [by intros [= _ <-]|].
    cbn [content]. destruct c; by intros [= _ <-]. }
  repeat match goal with
         | |- context [failure_of ?x] => destruct (failure_of x) as [[? ?]|]
         end;
    first [ by intros [= _ <-] | intros H; by apply Hdec in H ].
Qed.

Section Run.

Variable iteration_order : gset str -> list str.
Hypothesis iteration_order_perm :
  forall X : gset str, iteration_order X ≡ₚ elements X.

Lemma no_affiliation_no_company article :
  Forall (fun a => author_affiliations_of a = []) (author_elems article) ->
  company_affiliations (authors_loop article) = ∅.
Proof using Type.
  intros H. rewrite authors_loop_companies.
  assert (affiliation_texts article = []) as ->; [|done].
  unfold affiliation_texts, named_authors.
  induction H as [|a l Ha _ IH]; [done|].
  cbn [List.filter]. destruct (has_name a); [|done].
  by rewrite bind_cons, Ha, IH.
Qed.

Lemma run_outcome self query max_results output_file w pmids w1 :
  search_papers self query max_results w = (Ok pmids, w1) ->
  exists papers w2,
    fetch_paper_details iteration_order self pmids w1 = (Ok papers, w2) /\
    Forall (fun paper =>
              exists article,
                parse_pubmed_article iteration_order article = Some paper /\
                (kept paper = true <->
                 company_affiliations (authors_loop article) <> ∅)) papers /\
    (pmids = [] ->
       run iteration_order self query max_results output_file w = (Ok [], w1)) /\
    (pmids <> [] ->
       fst (run iteration_order self query max_results output_file w)
       = if debug self && existsb kept_untitled papers then Raise TypeError
         else match List.filter kept papers with
              | [] => Ok []
              | p :: ps =>
                  match sink_failure w (p :: ps) output_file with
                  | Some message => Raise (ValidationError message)
                  | None => Ok (p :: ps)
                  end
              end).
Proof using iteration_order_perm.
  intros Hs.
  destruct (fetch_paper_details_outcome iteration_order self pmids w1)
    as (papers & E & HP).
  exists papers, (extend w1 (fetch_events (replies w1) (requests_made w1)
                               self (batches pmids))).
  split; [done|]. split.
  { apply HP. intros article paper Hp. exists article. split; [done|].
    by apply (kept_iff iteration_order iteration_order_perm). }
  split.
  { intros ->. unfold run, bind. by rewrite Hs. }
  intros Hne. unfold run, bind at 1. rewrite Hs.
  destruct pmids as [|p pmids]; [done|].
  unfold bind at 1. rewrite E. unfold bind at 1, lift.
  unfold filter_papers_with_pharma_biotech_affiliations.
  rewrite filter_loop_outcome. cbn [app].
  destruct (debug self && existsb kept_untitled papers); [done|].
  unfold bind, ret. destruct (List.filter kept papers) as [|k ks]; [done|].
  unfold save_to_csv. cbv zeta. cbn [sink_failure extend].
  rewrite (search_papers_frame _ _ _ _ _ _ Hs).
  by destruct (sink_failure w (k :: ks) output_file).
Qed.

Lemma no_affiliation_dropped article paper :
  parse_pubmed_article iteration_order article = Some paper ->
  Forall (fun a => author_affiliations_of a = []) (author_elems article) ->
  company_affiliations (authors_loop article) = ∅ /\ kept paper = false.
Proof using iteration_order_perm.
  intros Hp Hno.
  pose proof (no_affiliation_no_company _ Hno) as HE. split; [done|].
  apply not_true_iff_false. rewrite (kept_iff _ iteration_order_perm _ _ Hp).
  by intros [].
Qed.

End Run.

(** C2. With debug messages on, [run] raises a [TypeError] instead of
    returning the industry records when one of them has a title without
    text: the record of [untitled_article] has a company affiliation, [run]
    returns it with debug messages off and raises with them on.  In every
    run whose search yields identifiers, the records are fetched, a fetched
    record is kept exactly when its set of company affiliations is not
    empty, and [run] raises the [TypeError] exactly when debug messages are
    on and some kept record has a title without text; otherwise it returns
    the kept records in their order, unless the sink fails on them.  With
    no identifier it returns the empty list, and a record none of whose
    authors has an affiliation text has an empty set and is left out. *)
Theorem run_raises_on_untitled_record :
  (exists paper,
     parse_pubmed_article elements untitled_article = Some paper /\
     Title paper = None /\
     kept paper = true /\
     fst (run elements plain_finder (lit "cancer") 10 None untitled_service)
     = Ok [paper] /\
     fst (run elements debug_finder (lit "cancer") 10 None untitled_service)
     = Raise TypeError) /\
  (forall iteration_order : gset str -> list str,
     (forall X : gset str, iteration_order X ≡ₚ elements X) ->
     forall self query max_results output_file w pmids w1,
       search_papers self query max_results w = (Ok pmids, w1) ->
       exists papers w2,
         fetch_paper_details iteration_order self pmids w1 = (Ok papers, w2) /\
         Forall (fun paper =>
                   exists article,
                     parse_pubmed_article iteration_order article = Some paper /\
                     (kept paper = true <->
                      company_affiliations (authors_loop article) <> ∅)) papers /\
         (pmids = [] ->
            run iteration_order self query max_results output_file w
            = (Ok [], w1)) /\
         (pmids <> [] ->
            fst (run iteration_order self query max_results output_file w)
            = if debug self && existsb kept_untitled papers then Raise TypeError
              else match List.filter kept papers with
                   | [] => Ok []
                   | p :: ps =>
                       match sink_failure w (p :: ps) output_file with
                       | Some message => Raise (ValidationError message)
                       | None => Ok (p :: ps)
                       end
                   end)) /\
  (forall iteration_order : gset str -> list str,
     (forall X : gset str, iteration_order X ≡ₚ elements X) ->
     forall article paper,
       parse_pubmed_article iteration_order article = Some paper ->
       Forall (fun a => author_affiliations_of a = []) (author_elems article) ->
       company_affiliations (authors_loop article) = ∅ /\ kept paper = false).
Proof.
  split; [|split].
  - eexists. split; [vm_compute; reflexivity|].
    repeat split; vm_compute; reflexivity.
  - intros io Hio self query max_results output_file w pmids w1.
    apply (run_outcome io Hio).
  - intros io Hio article paper. apply (no_affiliation_dropped io Hio).
Qed.

(** * Further properties of the classifier and the parser *)

(** ** What the extraction returns *)

Lemma name_char_not_comma c : name_char c = true -> c <> ","%char.
Proof. intros H ->. vm_compute in H. discriminate. Qed.

Lemma forallb_name_char_no_comma body :
  forallb name_char body = true -> ","%char ∉ body.
Proof.
  induction body as [|b body IH]; simpl; [by inversion 2|].
  rewrite andb_true_iff, not_elem_of_cons. intros [Hb Hbody]. split; [|by apply IH].
  intros E. by apply (name_char_not_comma b).
Qed.

Lemma capitalized_no_comma endings m :
  Forall (fun e => ","%char ∉ e) endings ->
  capitalized_with endings m -> ","%char ∉ m.
Proof.
  intros Hend (c & body & e & -> & Hc & _ & Hb & He).
  rewrite not_elem_of_cons, not_elem_of_app. split; [|split].
  - intros <-. vm_compute in Hc. discriminate.
  - by apply forallb_name_char_no_comma.
  - by apply (proj1 (Forall_forall _ _) Hend).
Qed.

Lemma legal_suffixes_no_comma : Forall (fun e => ","%char ∉ e) LEGAL_SUFFIXES.
Proof. apply (bool_decide_unpack _). vm_compute. exact I. Qed.

Lemma domain_words_no_comma : Forall (fun e => ","%char ∉ e) DOMAIN_WORDS.
Proof. apply (bool_decide_unpack _). vm_compute. exact I. Qed.

Lemma extract_company_name_occurs (a r : str) :
  extract_company_name (Some a) = Some r -> occurs_in r a.
Proof.
  intros H. apply extract_company_name_cases in H
    as [(E1 & _) | [(_ & E2 & _) | (_ & _ & seg & Hseg & -> & _)]].
  - eapply first_match_occurs, search_first_match, E1.
  - eapply first_match_occurs, search_first_match, E2.
  - apply split_segments in Hseg as [Hocc _].
    eapply occurs_in_trans; [apply strip_occurs | done].
Qed.

(** X1. A company name returned by the extraction is a non-empty piece of
    the affiliation, without white space at its ends and without a comma, and
    it is never the placeholder "N/A". *)
Theorem extract_company_name_result (a r : str) :
  extract_company_name (Some a) = Some r ->
  r <> [] /\ r <> lit "N/A" /\ occurs_in r a /\ strip r = r /\ ","%char ∉ r.
Proof.
  intros H.
  split; [by eapply extract_company_name_nonempty|].
  split; [by eapply extract_company_name_not_NA|].
  apply extract_company_name_cases in H
    as [(E1 & Hc & Hs) | [(_ & E2 & Hc & Hs) | (_ & _ & seg & Hseg & -> & Hq)]].
  - split; [eapply first_match_occurs, search_first_match, E1|].
    split; [done|]. eapply capitalized_no_comma; [apply legal_suffixes_no_comma | done].
  - split; [eapply first_match_occurs, search_first_match, E2|].
    split; [done|]. eapply capitalized_no_comma; [apply domain_words_no_comma | done].
  - apply split_segments in Hseg as [Hocc Hcomma].
    split; [eapply occurs_in_trans; [apply strip_occurs | done]|].
    split; [apply strip_strip|].
    intros Hin. apply Hcomma. eapply occurs_in_elem; [apply strip_occurs | done].
Qed.

Lemma extract_company_name_result_witness :
  lit "Novartis Pharmaceuticals" <> [] /\
  lit "Novartis Pharmaceuticals" <> lit "N/A" /\
  occurs_in (lit "Novartis Pharmaceuticals")
            (lit "Novartis Pharmaceuticals, Basel, Switzerland") /\
  strip (lit "Novartis Pharmaceuticals") = lit "Novartis Pharmaceuticals" /\
  ","%char ∉ lit "Novartis Pharmaceuticals".
Proof.
  apply (extract_company_name_result
           (lit "Novartis Pharmaceuticals, Basel, Switzerland")).
  vm_compute. reflexivity.
Defined.

(** ** The lists that the loop over the authors builds *)

Lemma has_name_nonempty a : has_name a = true -> name_of a <> [].
Proof.
  unfold has_name, name_of. by destruct (author_name_of a) as [[|c n]|].
Qed.

Lemma affiliation_info_loop_nonempty infos :
  Forall (fun t => t <> []) (affiliation_info_loop infos).
Proof.
  induction infos as [|affil rest IH]; cbn [affiliation_info_loop]; [constructor|].
  destruct (find_child (lit "Affiliation") affil) as [e|]; [|done].
  destruct (text e) as [[|c t]|]; try done. by constructor.
Qed.

Lemma author_affiliations_nonempty a :
  Forall (fun t => t <> []) (author_affiliations_of a).
Proof.
  unfold author_affiliations_of.
  pose proof (affiliation_info_loop_nonempty
                (findall_below (lit "AffiliationInfo") a)) as H.
  destruct (affiliation_info_loop _) as [|t ts]; [|done].
  destruct (find_child (lit "Affiliation") a) as [e|]; [|constructor].
  destruct (text e) as [[|c t]|]; repeat constructor. done.
Qed.

Lemma foldl_author_step_authors st elems :
  authors (foldl author_step st elems)
  = authors st ++ map name_of (List.filter has_name elems).
Proof.
  revert st. induction elems as [|a elems IH]; intros st.
  - simpl. by rewrite app_nil_r.
  - cbn [foldl List.filter]. rewrite IH. destruct (has_name a) eqn:E.
    + rewrite author_step_named by done. simpl. by rewrite <- app_assoc.
    + by rewrite author_step_skip.
Qed.

Lemma foldl_author_step_affiliations st elems :
  affiliations (foldl author_step st elems)
  = affiliations st ++ (List.filter has_name elems ≫= author_affiliations_of).
Proof.
  revert st. induction elems as [|a elems IH]; intros st.
  - simpl. by rewrite app_nil_r.
  - cbn [foldl List.filter]. rewrite IH. destruct (has_name a) eqn:E.
    + rewrite author_step_named by done. cbn [affiliations].
      by rewrite bind_cons, <- app_assoc.
    + by rewrite author_step_skip.
Qed.

Lemma map_filter_sublist {A B} (f : A -> B) (p : A -> bool) (l : list A) :
  map f (List.filter p l) `sublist_of` map f l.
Proof.
  induction l as [|x l IH]; simpl; [constructor|].
  destruct (p x); simpl; [by apply sublist_skip | by apply sublist_cons].
Qed.

(** X2. The list of all authors holds the names of the authors that have a
    name, in document order, and no name in it is empty; the list of all
    affiliations holds their affiliation texts in document order, none
    empty; and the non-academic authors form a sub-list of all authors. *)
Theorem authors_loop_lists (article : Element) :
  authors (authors_loop article) = map name_of (named_authors article) /\
  affiliations (authors_loop article) = affiliation_texts article /\
  non_academic_authors (authors_loop article)
    `sublist_of` authors (authors_loop article) /\
  Forall (fun n => n <> []) (authors (authors_loop article)) /\
  Forall (fun t => t <> []) (affiliations (authors_loop article)).
Proof.
  unfold authors_loop, affiliation_texts, named_authors.
  rewrite foldl_author_step_authors, foldl_author_step_affiliations,
    foldl_author_step_names. cbn [initial_state authors affiliations
    non_academic_authors app].
  split; [done|]. split; [done|]. split; [apply map_filter_sublist|]. split.
  - apply Forall_fmap, Forall_forall. intros a Ha. simpl.
    apply list_elem_of_In, filter_In in Ha as [_ Ha]. by apply has_name_nonempty.
  - apply Forall_forall. intros t Ht.
    apply list_elem_of_bind in Ht as (a & Ht & _).
    by apply (proj1 (Forall_forall _ _) (author_affiliations_nonempty a)).
Qed.

(** X3. Every company affiliation of a record comes from one affiliation
    string of one named author: that string is classified non-academic, the
    extraction gives the company name from it, the name is a piece of it,
    and the author is among the non-academic authors. *)
Theorem company_has_source (article : Element) (x : str) :
  x ∈ company_affiliations (authors_loop article) ->
  exists author a,
    author ∈ named_authors article /\
    a ∈ author_affiliations_of author /\
    is_non_academic_affiliation (Some a) = true /\
    extract_company_name (Some a) = Some x /\
    occurs_in x a /\
    name_of author ∈ non_academic_authors (authors_loop article).
Proof.
  rewrite authors_loop_companies, elem_of_list_to_set, list_elem_of_omap.
  intros (a & Ha & Hc). unfold affiliation_texts in Ha.
  apply list_elem_of_bind in Ha as (author & Ha & Hauthor).
  unfold company_of in Hc.
  destruct (is_non_academic_affiliation (Some a)) eqn:En; [|done].
  exists author, a. repeat split; try done.
  - by apply extract_company_name_occurs.
  - unfold authors_loop. rewrite foldl_author_step_names. simpl.
    apply list_elem_of_fmap. exists author. split; [done|].
    apply list_elem_of_In, filter_In. split; [by apply list_elem_of_In|].
    unfold is_industry_author. apply existsb_exists. exists a.
    split; [by apply list_elem_of_In | done].
Qed.

Lemma company_has_source_witness :
  exists author a,
    author ∈ named_authors
               (demo_article "1"
                  (demo_author "Jane" "Doe" "Genentech, South San Francisco, CA")) /\
    a ∈ author_affiliations_of author /\
    is_non_academic_affiliation (Some a) = true /\
    extract_company_name (Some a) = Some (lit "Genentech") /\
    occurs_in (lit "Genentech") a /\
    name_of author ∈ non_academic_authors
      (authors_loop
         (demo_article "1"
            (demo_author "Jane" "Doe" "Genentech, South San Francisco, CA"))).
Proof.
  apply (company_has_source
           (demo_article "1"
              (demo_author "Jane" "Doe" "Genentech, South San Francisco, CA"))
           (lit "Genentech")).
  rewrite authors_loop_companies, elem_of_list_to_set.
  vm_compute. left.
Defined.

(** ** Splitting and joining *)

Lemma join_cons_cons sep (x y : str) l :
  join sep (x :: y :: l) = x ++ sep ++ join sep (y :: l).
Proof. done. Qed.

Lemma join_split sep s : join [sep] (split sep s) = s.
Proof.
  induction s as [|c s IH]; [done|]. cbn [split].
  destruct (split_shape sep s) as (seg & segs & E & _).
  rewrite E in *. destruct (eqb_char c sep) eqn:Ec.
  - apply eqb_char_true in Ec as ->. rewrite join_cons_cons, IH. done.
  - destruct segs as [|y l].
    + cbn [join] in *. by rewrite IH.
    + rewrite join_cons_cons in *. by rewrite <- app_comm_cons, IH.
Qed.

Lemma split_app_sep sep p t :
  sep ∉ p -> split sep (p ++ sep :: t) = p :: split sep t.
Proof.
  induction p as [|c p IH]; intros Hp; simpl.
  - replace (eqb_char sep sep) with true; [done|].
    symmetry. by apply eqb_char_true.
  - apply not_elem_of_cons in Hp as [Hc Hp].
    destruct (eqb_char c sep) eqn:Ec.
    + apply eqb_char_true in Ec. congruence.
    + by rewrite IH.
Qed.

Lemma split_join sep parts :
  parts <> [] -> Forall (fun p => sep ∉ p) parts ->
  split sep (join [sep] parts) = parts.
Proof.
  induction parts as [|p parts IH]; [done|]. intros _ Hall.
  apply Forall_cons in Hall as [Hp Hall]. destruct parts as [|q l].
  - simpl. by apply split_no_sep.
  - rewrite join_cons_cons. change ([sep] ++ ?t) with (sep :: t).
    rewrite split_app_sep by done. by rewrite IH.
Qed.

(** X4. Splitting at a separator and joining with it are inverse to each
    other: joining the segments of a text gives the text back, and
    splitting the join of a non-empty list of texts that do not contain the
    separator gives the list back; so the [id] parameter of a fetch request
    determines its batch. *)
Theorem split_join_round_trip :
  (forall sep s, join [sep] (split sep s) = s) /\
  (forall sep parts,
     parts <> [] -> Forall (fun p => sep ∉ p) parts ->
     split sep (join [sep] parts) = parts) /\
  (forall self batch_pmids,
     batch_pmids <> [] -> Forall (fun p => ","%char ∉ p) batch_pmids ->
     split "," <$> (fetch_params self batch_pmids !! lit "id") = Some batch_pmids).
Proof.
  split; [apply join_split|]. split; [apply split_join|].
  intros self b Hne Hall. unfold fetch_params.
  rewrite lookup_insert_ne by (vm_compute; discriminate).
  rewrite lookup_insert_eq. simpl. f_equal. by apply (split_join ","%char).
Qed.

Lemma split_join_round_trip_witness :
  split "," (join [","%char] [lit "31"; lit "4"; lit "159"])
  = [lit "31"; lit "4"; lit "159"].
Proof.
  apply (proj1 (proj2 split_join_round_trip)).
  - discriminate.
  - apply (bool_decide_unpack _). vm_compute. exact I.
Defined.

(** ** Short industry affiliations always yield a company name *)

Lemma occurs_in_length (k s : str) : occurs_in k s -> length k <= length s.
Proof. intros (p & q & ->). rewrite !length_app. lia. Qed.

Lemma occurs_in_nil (s : str) : occurs_in [] s.
Proof. by exists [], s. Qed.

Lemma occurs_in_app_l (k u v : str) : occurs_in k u -> occurs_in k (u ++ v).
Proof. intros (p & q & ->). exists p, (q ++ v). by rewrite <- !app_assoc. Qed.

Lemma occurs_in_app_r (k u v : str) : occurs_in k v -> occurs_in k (u ++ v).
Proof. intros (p & q & ->). exists (u ++ p), q. by rewrite <- !app_assoc. Qed.

(** A text without the separator that occurs across a separator occurs
    on one side of it. *)
Lemma occurs_in_app_sep (k u v : str) c :
  c ∉ k -> occurs_in k (u ++ c :: v) -> occurs_in k u \/ occurs_in k v.
Proof.
  intros Hc (p & q & E). symmetry in E.
  apply app_eq_app in E as [l [[-> E] | [-> E]]].
  - (* p = u ++ l *)
    destruct l as [|d l]; simpl in E.
    + destruct k as [|d k]; [left; apply occurs_in_nil|].
      injection E as -> _. exfalso. apply Hc. left.
    + injection E as -> ->. right. by exists l, q.
  - (* u = p ++ l *)
    symmetry in E. apply app_eq_app in E as [l' [[-> E] | [-> E]]].
    + left. exists p, l'. done.
    + destruct l' as [|d l']; simpl in E.
      * left. exists p, []. by rewrite !app_nil_r.
      * injection E as -> _. exfalso. apply Hc.
        rewrite elem_of_app. right. left.
Qed.

Lemma occurs_in_join (k : str) sep parts :
  sep ∉ k -> occurs_in k (join [sep] parts) ->
  parts <> [] -> exists part, part ∈ parts /\ occurs_in k part.
Proof.
  intros Hsep. induction parts as [|x parts IH]; [done|]. intros H _.
  destruct parts as [|y l].
  - exists x. split; [left | done].
  - rewrite join_cons_cons in H. change ([sep] ++ ?t) with (sep :: t) in H.
    apply occurs_in_app_sep in H as [H|H]; [| |done].
    + exists x. split; [left | done].
    + destruct (IH H ltac:(done)) as (part & Hin & Ho).
      exists part. split; [by right | done].
Qed.

Lemma lower_app x y : lower (x ++ y) = lower x ++ lower y.
Proof. apply map_app. Qed.

Lemma lower_join sep parts :
  lower (join sep parts) = join (lower sep) (map lower parts).
Proof.
  induction parts as [|x [|y l] IH]; [done | done |].
  rewrite join_cons_cons, !lower_app, IH. done.
Qed.

Lemma is_space_lower_char c : is_space (lower_char c) = is_space c.
Proof.
  unfold lower_char. destruct (is_upper c) eqn:E; [|done].
  rewrite (is_upper_not_space c E).
  destruct c as [[] [] [] [] [] [] [] []]; vm_compute in E; try discriminate;
    vm_compute; reflexivity.
Qed.

Lemma lower_lstrip s : lower (lstrip s) = lstrip (lower s).
Proof.
  induction s as [|c s IH]; [done|]. simpl.
  rewrite is_space_lower_char. by destruct (is_space c).
Qed.

Lemma lower_rev s : lower (rev s) = rev (lower s).
Proof. unfold lower. by rewrite map_rev. Qed.

Lemma lower_strip s : lower (strip s) = strip (lower s).
Proof.
  unfold strip, rstrip.
  by rewrite lower_rev, lower_lstrip, lower_rev, lower_lstrip.
Qed.

Lemma occurs_in_lstrip (k s : str) c t :
  k = c :: t -> is_space c = false -> occurs_in k s -> occurs_in k (lstrip s).
Proof.
  intros -> Hc. induction s as [|d s IH]; [done|]. simpl.
  destruct (is_space d) eqn:Ed; [|done].
  intros (p & q & E). destruct p as [|d' p]; simpl in E.
  - injection E as -> _. congruence.
  - injection E as -> ->. apply IH. by exists p, q.
Qed.

Lemma occurs_in_rev (k s : str) : occurs_in k s -> occurs_in (rev k) (rev s).
Proof.
  intros (p & q & ->). exists (rev q), (rev p).
  by rewrite !rev_app_distr, <- app_assoc.
Qed.

Lemma occurs_in_strip (k s : str) :
  visible_ends k = true -> occurs_in k s -> occurs_in k (strip s).
Proof.
  unfold visible_ends. destruct k as [|c t] eqn:Ek; [done|].
  destruct (rev (c :: t)) as [|d t'] eqn:Er; [done|].
  rewrite andb_true_iff, !negb_true_iff. intros [Hc Hd] H.
  unfold strip, rstrip.
  apply (occurs_in_lstrip _ _ c t eq_refl Hc) in H.
  apply occurs_in_rev in H. rewrite Er in H.
  apply (occurs_in_lstrip _ _ d t' eq_refl Hd) in H.
  apply occurs_in_rev in H. by rewrite <- Er, rev_involutive in H.
Qed.

Lemma keywords_well_formed :
  Forall (fun k => (","%char ∉ k) /\ visible_ends k = true) PHARMA_BIOTECH_KEYWORDS.
Proof. apply (bool_decide_unpack _). vm_compute. exact I. Qed.

Lemma find_is_Some {A} (p : A -> bool) (l : list A) x :
  In x l -> p x = true -> is_Some (List.find p l).
Proof.
  intros Hin Hp. destruct (List.find p l) eqn:E; [by eexists|].
  pose proof (find_none _ _ E x Hin). congruence.
Qed.

(** An industry term of the affiliation lies in one of its comma-segments,
    and survives the trimming of that segment. *)
Lemma keyword_in_segment a k :
  k ∈ PHARMA_BIOTECH_KEYWORDS -> occurs_in k (lower a) ->
  exists seg, seg ∈ split "," a /\ occurs_in k (lower (strip seg)).
Proof.
  intros Hk Ho.
  destruct (proj1 (Forall_forall _ _) keywords_well_formed k Hk) as [Hcomma Hvis].
  rewrite <- (join_split ","%char a), lower_join in Ho.
  apply occurs_in_join in Ho as (part & Hin & Hpart); [|done|].
  - apply list_elem_of_fmap in Hin as (seg & -> & Hseg).
    exists seg. split; [done|]. rewrite lower_strip. by apply occurs_in_strip.
  - destruct (split_shape ","%char a) as (seg & segs & -> & _). done.
Qed.

(** X5. Whenever an affiliation is classified non-academic and each of its
    comma-segments is, once trimmed, shorter than 50 characters, the
    extraction returns a company name; this is so in particular for every
    non-academic affiliation shorter than 50 characters. *)
Theorem extract_company_name_succeeds (a : str) :
  is_non_academic_affiliation (Some a) = true ->
  (Forall (fun seg => length (strip seg) < 50) (split "," a)
   \/ length a < 50) ->
  is_Some (extract_company_name (Some a)).
Proof.
  intros Hn Hshort.
  assert (Hseg : Forall (fun seg => length (strip seg) < 50) (split "," a)).
  { destruct Hshort as [H|H]; [done|]. apply Forall_forall. intros seg Hseg.
    apply split_segments in Hseg as [Ho _].
    pose proof (occurs_in_length _ _ (strip_occurs seg)).
    pose proof (occurs_in_length _ _ Ho). lia. }
  clear Hshort. rewrite extract_company_name_refines.
  destruct a as [|c a]; [done|]. unfold spec_extractOrganizationName.
  destruct (search suffix_pattern (c :: a)); [by eexists|].
  destruct (search domain_pattern (c :: a)); [by eexists|].
  unfold is_non_academic_affiliation in Hn.
  destruct (first_keyword_in ACADEMIC_KEYWORDS (lower (c :: a))); [done|].
  destruct (first_keyword_in PHARMA_BIOTECH_KEYWORDS (lower (c :: a)))
    as [k|] eqn:Ek; [|done].
  apply first_keyword_in_Some in Ek as [Hk Hc]. apply contains_spec in Hc.
  destruct (keyword_in_segment _ _ Hk Hc) as (seg & Hin & Ho).
  apply (find_is_Some _ _ (strip seg)).
  - apply in_map, list_elem_of_In, Hin.
  - unfold qualifies. apply andb_true_iff. split.
    + apply Nat.ltb_lt. by apply (proj1 (Forall_forall _ _) Hseg).
    + apply existsb_exists. exists k. split; [by apply list_elem_of_In|].
      by apply contains_spec.
Qed.

Lemma extract_company_name_succeeds_witness :
  is_Some (extract_company_name (Some (lit "roche diagnostics, basel"))).
Proof.
  apply extract_company_name_succeeds.
  - vm_compute. reflexivity.
  - right. vm_compute. lia.
Defined.

(** ** Element trees *)

Lemma Element_induction (P : Element -> Prop) :
  (forall t x cs, Forall P cs -> P (mkElement t x cs)) -> forall e, P e.
Proof.
  intros H. fix IH 1. intros [t x cs]. apply H.
  induction cs as [|c cs IHcs]; constructor; [apply IH | apply IHcs].
Qed.

Lemma descendants_eq e :
  descendants e = children e ≫= (fun c => c :: descendants c).
Proof.
  destruct e as [t x cs]. cbn [children].
  induction cs as [|c cs IH]; [done|].
  rewrite bind_cons. cbn [descendants app] in *. by rewrite <- IH.
Qed.

Lemma child_descendant e c : c ∈ children e -> c ∈ descendants e.
Proof.
  intros H. rewrite descendants_eq. apply list_elem_of_bind.
  exists c. split; [left | done].
Qed.

Lemma descendant_child e c x :
  c ∈ children e -> x ∈ descendants c -> x ∈ descendants e.
Proof.
  intros Hc Hx. rewrite descendants_eq. apply list_elem_of_bind.
  exists c. split; [by right | done].
Qed.

(** Below an element below [e] is below [e]. *)
Lemma descendants_trans e x y :
  x ∈ descendants e -> y ∈ descendants x -> y ∈ descendants e.
Proof.
  revert x y. induction e as [t tx cs IH] using Element_induction.
  intros x y Hx Hy. rewrite descendants_eq in Hx.
  apply list_elem_of_bind in Hx as (c & Hx & Hc). cbn [children] in Hc.
  apply elem_of_cons in Hx as [-> | Hx].
  - by apply (descendant_child _ c).
  - apply (descendant_child _ c); [done|].
    by apply (proj1 (Forall_forall _ _) IH c Hc x y).
Qed.

Lemma findall_child_elem name e c : c ∈ findall_child name e -> c ∈ children e.
Proof.
  unfold findall_child. rewrite !list_elem_of_In, filter_In. tauto.
Qed.

Lemma find_child_elem name e c : find_child name e = Some c -> c ∈ children e.
Proof.
  unfold find_child. intros H. apply head_Some_elem_of in H.
  by eapply findall_child_elem.
Qed.

Lemma findall_below_elem name e c : c ∈ findall_below name e -> c ∈ descendants e.
Proof.
  unfold findall_below. rewrite !list_elem_of_In, filter_In. tauto.
Qed.

Lemma find_below_elem name e c : find_below name e = Some c -> c ∈ descendants e.
Proof.
  unfold find_below. intros H. apply head_Some_elem_of in H.
  by eapply findall_below_elem.
Qed.

(** ** Where the texts of a record come from *)

Lemma affiliation_info_loop_source infos t :
  t ∈ affiliation_info_loop infos ->
  exists affil e, affil ∈ infos /\ e ∈ children affil /\ text e = Some t.
Proof.
  induction infos as [|affil rest IH]; cbn [affiliation_info_loop]; [by inversion 1|].
  assert (Hrest : t ∈ affiliation_info_loop rest ->
            exists affil0 e, affil0 ∈ affil :: rest /\ e ∈ children affil0 /\
                             text e = Some t).
  { intros H. destruct (IH H) as (a0 & e & ? & ? & ?).
    exists a0, e. split; [by right | done]. }
  destruct (find_child (lit "Affiliation") affil) as [e|] eqn:Ef; [|done].
  destruct (text e) as [[|c u]|] eqn:Et; try done.
  rewrite elem_of_cons. intros [-> | H]; [|by apply Hrest].
  exists affil, e. split; [left|]. split; [by eapply find_child_elem | done].
Qed.

Lemma author_affiliations_source author t :
  t ∈ author_affiliations_of author ->
  exists e, e ∈ descendants author /\ text e = Some t.
Proof.
  unfold author_affiliations_of.
  destruct (affiliation_info_loop (findall_below (lit "AffiliationInfo") author))
    as [|t0 ts] eqn:E.
  - destruct (find_child (lit "Affiliation") author) as [e|] eqn:Ef; [|by inversion 1].
    destruct (text e) as [[|c u]|] eqn:Et; try by inversion 1.
    rewrite list_elem_of_singleton. intros ->. exists e.
    split; [by eapply child_descendant, find_child_elem | done].
  - rewrite <- E. intros H.
    apply affiliation_info_loop_source in H as (affil & e & Ha & He & Ht).
    exists e. split; [|done].
    eapply descendants_trans; [by eapply findall_below_elem|].
    by apply child_descendant.
Qed.

Lemma author_elems_descendants article author :
  author ∈ author_elems article -> author ∈ descendants article.
Proof.
  unfold author_elems.
  destruct (find_below (lit "AuthorList") article) as [l|] eqn:E; [|by inversion 1].
  intros H. eapply descendants_trans; [by eapply find_below_elem|].
  by eapply child_descendant, findall_child_elem.
Qed.

(** Every affiliation string of a record is the text of one of its nodes. *)
Lemma affiliation_texts_node_texts article t :
  t ∈ affiliation_texts article -> t ∈ node_texts article.
Proof.
  unfold affiliation_texts, node_texts, named_authors. intros H.
  apply list_elem_of_bind in H as (author & Ht & Ha).
  apply list_elem_of_In, filter_In in Ha as [Ha _]. apply list_elem_of_In in Ha.
  apply author_affiliations_source in Ht as (e & He & Ht).
  apply list_elem_of_omap. exists e. split; [|done].
  eapply descendants_trans; [by apply author_elems_descendants | done].
Qed.

(** ** The corresponding e-mail, continued *)

Lemma first_email_None texts :
  first_email texts = None <->
  forall t, t ∈ texts -> search email_pattern t = None.
Proof.
  induction texts as [|t texts IH].
  - split; [intros _ t Ht; inversion Ht | done].
  - rewrite first_email_cons. destruct (search email_pattern t) eqn:E.
    + split; [done|]. intros H. specialize (H t ltac:(left)). congruence.
    + rewrite IH. split.
      * intros H u Hu. apply elem_of_cons in Hu as [-> | Hu]; auto.
      * intros H u Hu. apply H. by right.
Qed.

Lemma final_email_first article :
  final_email article
  = match first_email (affiliation_texts article) with
    | Some e => e
    | None => default (lit "N/A") (first_email (node_texts article))
    end.
Proof.
  unfold final_email, authors_loop, affiliation_texts, named_authors, node_texts.
  rewrite foldl_author_step_email. cbn [initial_state corresponding_email].
  replace (is_NA (lit "N/A")) with true by (vm_compute; reflexivity).
  destruct (first_email _) as [e|] eqn:E; simpl.
  - by rewrite (first_email_not_NA _ _ E).
  - replace (is_NA (lit "N/A")) with true by (vm_compute; reflexivity).
    by rewrite metadata_email_loop_first.
Qed.

Lemma email_shaped_one_at e :
  email_shaped e -> length (List.filter (eqb_char "@") e) = 1.
Proof.
  assert (Hno : forall (p : ascii -> bool) u,
            p "@"%char = false -> forallb p u = true ->
            List.filter (eqb_char "@") u = []).
  { intros p u Hp. induction u as [|c u IH]; [done|]. cbn [List.filter forallb].
    rewrite andb_true_iff. intros [Hc Hu]. destruct (eqb_char "@" c) eqn:E.
    - apply eqb_char_true in E as <-. congruence.
    - by apply IH. }
  intros (l & d1 & d2 & -> & _ & Hl & _ & H1 & _ & H2).
  rewrite !List.filter_app, (Hno _ _ eq_refl Hl), (Hno _ _ eq_refl H1),
    (Hno _ _ eq_refl H2). done.
Qed.

(** X6. The corresponding e-mail of a record is "N/A" exactly when the text
    of no node of the record contains a match of the e-mail pattern;
    otherwise it has the form local@label.domain with a single "@" and is
    a piece of the text of one of the nodes. *)
Theorem final_email_cases (article : Element) :
  (final_email article = lit "N/A" <->
   forall t, t ∈ node_texts article -> search email_pattern t = None) /\
  (final_email article <> lit "N/A" ->
   email_shaped (final_email article) /\
   length (List.filter (eqb_char "@") (final_email article)) = 1 /\
   exists t, t ∈ node_texts article /\ occurs_in (final_email article) t).
Proof.
  rewrite final_email_first, <- first_email_None.
  destruct (first_email (affiliation_texts article)) as [e|] eqn:Ea.
  - pose proof (first_email_not_NA _ _ Ea) as Hna.
    apply bool_decide_eq_false in Hna.
    apply first_email_found in Ea as (before & t & after & Et & Hs & _).
    assert (Ht : t ∈ node_texts article).
    { apply affiliation_texts_node_texts. rewrite Et, elem_of_app. right. left. }
    split.
    + split; [done|]. intros Hn. rewrite first_email_None in Hn.
      rewrite (Hn t Ht) in Hs. done.
    + intros _. destruct (search_email_shaped _ _ Hs) as [Hshape Hocc].
      split; [done|]. split; [by apply email_shaped_one_at|]. by exists t.
  - destruct (first_email (node_texts article)) as [e|] eqn:En; simpl.
    + pose proof (first_email_not_NA _ _ En) as Hna.
      apply bool_decide_eq_false in Hna. split; [done|]. intros _.
      apply first_email_found in En as (before & t & after & Et & Hs & _).
      destruct (search_email_shaped _ _ Hs) as [Hshape Hocc].
      split; [done|]. split; [by apply email_shaped_one_at|].
      exists t. split; [|done]. rewrite Et, elem_of_app. right. left.
    + done.
Qed.

Lemma final_email_cases_witness :
  email_shaped (final_email contact_article).
Proof.
  apply (final_email_cases contact_article).
  vm_compute. discriminate.
Defined.

(** * Further properties of the publication date *)

(** X7. The date block as a table, for month and day texts within the
    interpreter's cap on the digits that [int] converts.  Without a usable
    year the date is "N/A".  With a year, the date is the bare year when the
    month or the day cannot be read as a number, and year-MM-DD when both
    can; the one case in which the block fails is a month that can be read
    together with a [Day] element that has no text, and this is the only
    way in which [parse_pubmed_article] gives a record up. *)
Theorem pub_date_table :
  (forall year_elem month_elem day_elem,
     within_text_cap (text_or (lit "01") month_elem) ->
     within_text_cap (text_or (lit "01") day_elem) ->
     pub_date_of_fields year_elem month_elem day_elem
     = let year := text_or (lit "") year_elem in
       if truthy year then
         match month_number (text_or (lit "01") month_elem) with
         | None => Ok (default [] year)
         | Some m =>
             match text_or (lit "01") day_elem with
             | None => Raise TypeError
             | Some day =>
                 match int_of_str day with
                 | None => Ok (default [] year)
                 | Some d =>
                     Ok (default [] year ++ lit "-" ++ format_02d m
                           ++ lit "-" ++ format_02d d)
                 end
             end
         end
       else Ok (lit "N/A")) /\
  (forall iteration_order article,
     (forall pub_date_elem,
        find_below (lit "PubDate") article = Some pub_date_elem ->
        within_text_cap
          (text_or (lit "01") (find_child (lit "Month") pub_date_elem))) ->
     parse_pubmed_article iteration_order article = None <->
     exists pub_date_elem day_elem,
       find_below (lit "PubDate") article = Some pub_date_elem /\
       truthy (text_or (lit "") (find_child (lit "Year") pub_date_elem)) = true /\
       is_Some (month_number
                  (text_or (lit "01") (find_child (lit "Month") pub_date_elem))) /\
       find_child (lit "Day") pub_date_elem = Some day_elem /\
       text day_elem = None).
Proof.
  assert (Htable : forall year_elem month_elem day_elem,
     pub_date_of_fields year_elem month_elem day_elem
     = let year := text_or (lit "") year_elem in
       if truthy year then
         match month_number (text_or (lit "01") month_elem) with
         | None => Ok (default [] year)
         | Some m =>
             match text_or (lit "01") day_elem with
             | None => Raise TypeError
             | Some day =>
                 match int_of_str day with
                 | None => Ok (default [] year)
                 | Some d =>
                     Ok (default [] year ++ lit "-" ++ format_02d m
                           ++ lit "-" ++ format_02d d)
                 end
             end
         end
       else Ok (lit "N/A")).
  { intros year_elem month_elem day_elem. cbv zeta.
    unfold pub_date_of_fields, format_pub_date, month_number.
    destruct (text_or (lit "01") month_elem) as [m|];
      [|by destruct (truthy _)].
    destruct (isalpha m).
    - destruct (strptime_b_month m) as [k|]; [|by destruct (truthy _)].
      destruct (truthy _); [|done]. change (py_int (inr k)) with (Ok k).
      destruct (text_or (lit "01") day_elem) as [d|]; [|done].
      unfold py_int. by destruct (int_of_str d).
    - destruct (truthy _); [|done]. unfold py_int.
      destruct (int_of_str m); [|done].
      destruct (text_or (lit "01") day_elem) as [d|]; [|done].
      by destruct (int_of_str d). }
  split; [intros; apply Htable|].
  intros io article _. unfold parse_pubmed_article, extract_pub_date.
  destruct (find_below (lit "PubDate") article) as [pd|];
    [|split; [done | by intros (? & ? & ? & _)]].
  rewrite Htable. cbv zeta.
  destruct (truthy (text_or (lit "") (find_child (lit "Year") pd))) eqn:Ey;
    [|split; [done|]; intros (pd' & de' & Hpd & Hy & _); congruence].
  destruct (month_number _) as [m|] eqn:Em;
    [|split; [done|]; intros (pd' & de' & Hpd & _ & [m' Hm] & _); congruence].
  destruct (find_child (lit "Day") pd) as [de|] eqn:Ed; cbn [text_or].
  - destruct (text de) as [d|] eqn:Et.
    + split; [by destruct (int_of_str d)|].
      intros (pd' & de' & Hpd & _ & _ & Hd & Ht). congruence.
    + split; [|done]. intros _. exists pd, de. by rewrite Ey, Em.
  - split; [by destruct (int_of_str (lit "01"))|].
    intros (pd' & de' & Hpd & _ & _ & Hd & _). congruence.
Qed.

Lemma pub_date_table_witness :
  exists pub_date_elem day_elem,
    find_below (lit "PubDate") empty_day_article = Some pub_date_elem /\
    truthy (text_or (lit "") (find_child (lit "Year") pub_date_elem)) = true /\
    is_Some (month_number
               (text_or (lit "01") (find_child (lit "Month") pub_date_elem))) /\
    find_child (lit "Day") pub_date_elem = Some day_elem /\
    text day_elem = None.
Proof.
  apply (proj2 pub_date_table elements empty_day_article).
  - intros pub_date_elem H. vm_compute in H. injection H as <-.
    vm_compute. discriminate.
  - vm_compute. reflexivity.
Defined.

(** ** Month names *)

Lemma lower_lower s : lower (lower s) = lower s.
Proof.
  unfold lower. rewrite map_map. apply map_ext. intros c.
  unfold lower_char at 2. destruct (is_upper c) eqn:E; [|by unfold lower_char; rewrite E].
  destruct c as [[] [] [] [] [] [] [] []]; vm_compute in E; try discriminate;
    vm_compute; reflexivity.
Qed.

Lemma is_alpha_lower_char c : is_alpha (lower_char c) = is_alpha c.
Proof.
  unfold lower_char. destruct (is_upper c) eqn:E; [|done].
  destruct c as [[] [] [] [] [] [] [] []]; vm_compute in E; try discriminate;
    vm_compute; reflexivity.
Qed.

Lemma isalpha_lower s : isalpha (lower s) = isalpha s.
Proof.
  destruct s as [|c s]; [done|]. unfold isalpha. cbn [lower map].
  change (map lower_char s) with (lower s).
  cbn [forallb]. rewrite is_alpha_lower_char. f_equal.
  induction s as [|d s IH]; [done|]. cbn [lower map forallb].
  by rewrite is_alpha_lower_char, <- IH.
Qed.

Lemma index_of_bound x l i n : index_of x l i = Some n -> i <= n < i + length l.
Proof.
  revert i. induction l as [|y l IH]; intros i; simpl; [done|].
  destruct (bool_decide (x = y)).
  - intros [= <-]. lia.
  - intros H. apply IH in H. lia.
Qed.

Lemma index_of_elem x l i n : index_of x l i = Some n -> x ∈ l.
Proof.
  revert i. induction l as [|y l IH]; intros i; simpl; [done|].
  destruct (bool_decide (x = y)) eqn:E.
  - apply bool_decide_eq_true in E as ->. intros _. left.
  - intros H. right. by eapply IH.
Qed.

Lemma format_02d_two_digits k :
  (0 <= k <= 99)%Z -> length (format_02d k) = 2.
Proof.
  intros Hk. assert (Hnat : exists n, k = Z.of_nat n /\ n < 100).
  { exists (Z.to_nat k). lia. }
  destruct Hnat as (n & -> & Hn). clear Hk.
  do 100 (destruct n as [|n]; [vm_compute; reflexivity|]). lia.
Qed.

(** X8. A month name is resolved without regard to the case of its
    letters; a name that resolves has three letters and gives a number
    from 1 to 12, which the date shows with two digits. *)
Theorem month_name_resolution (m : str) :
  strptime_b_month (lower m) = strptime_b_month m /\
  (isalpha m = true -> month_number (Some (lower m)) = month_number (Some m)) /\
  (forall k, strptime_b_month m = Some k ->
     (1 <= k <= 12)%Z /\ length m = 3 /\ length (format_02d k) = 2).
Proof.
  split; [unfold strptime_b_month; by rewrite lower_lower|]. split.
  - intros Ha. unfold month_number. rewrite isalpha_lower, Ha.
    unfold strptime_b_month. by rewrite lower_lower.
  - unfold strptime_b_month. intros k Hk.
    destruct (index_of (lower m) month_abbreviations 0) as [i|] eqn:E; [|done].
    injection Hk as <-. pose proof (index_of_bound _ _ _ _ E) as Hb.
    change (length month_abbreviations) with 12 in Hb.
    split; [lia|]. split.
    + apply index_of_elem in E.
      assert (length (lower m) = 3) as Hl.
      { revert E. generalize (lower m). intros s Hs.
        assert (Hall : Forall (fun a : str => length a = 3) month_abbreviations)
          by (apply (bool_decide_unpack _); vm_compute; exact I).
        by apply (proj1 (Forall_forall _ _) Hall). }
      unfold lower in Hl. by rewrite length_map in Hl.
    + apply format_02d_two_digits. lia.
Qed.

Lemma month_name_resolution_witness :
  (1 <= 9 <= 12)%Z /\ length (lit "SeP") = 3 /\ length (format_02d 9) = 2.
Proof.
  apply (proj2 (proj2 (month_name_resolution (lit "SeP")))).
  vm_compute. reflexivity.
Defined.

(** ** Numbers written and read back *)

Lemma uint_value_of_uint_acc d acc :
  Z.pos (Pos.of_uint_acc d acc) = uint_value d (Z.pos acc).
Proof.
  revert acc. induction d as [|d IH|d IH|d IH|d IH|d IH|d IH|d IH|d IH|d IH|d IH];
    intros acc; cbn [Pos.of_uint_acc uint_value]; [done|..];
    rewrite IH; f_equal; lia.
Qed.

Lemma uint_value_of_uint d : Z.of_N (Pos.of_uint d) = uint_value d 0.
Proof.
  induction d as [|d IH|d IH|d IH|d IH|d IH|d IH|d IH|d IH|d IH|d IH];
    cbn [Pos.of_uint uint_value]; [done | exact IH | ..];
    cbn [Z.of_N]; rewrite uint_value_of_uint_acc; f_equal.
Qed.

Lemma uint_value_to_uint n : uint_value (N.to_uint n) 0 = Z.of_N n.
Proof.
  rewrite <- uint_value_of_uint. f_equal. apply DecimalN.Unsigned.of_to.
Qed.

Lemma int_digits_uint d acc :
  int_digits (lit (NilEmpty.string_of_uint d)) acc true = Some (uint_value d acc).
Proof.
  unfold lit. revert acc.
  induction d as [|d IH|d IH|d IH|d IH|d IH|d IH|d IH|d IH|d IH|d IH];
    intros acc; [done|..];
    cbn [NilEmpty.string_of_uint list_ascii_of_string int_digits uint_value];
    match goal with
    | |- context [is_digit ?c] =>
        replace (is_digit c) with true by (vm_compute; reflexivity);
        let v := eval vm_compute in (digit_value c) in
        change (digit_value c) with v
    end;
    cbv iota; rewrite IH; do 2 f_equal; lia.
Qed.

(** The decimal numeral of a number is a digit followed by digits. *)
Lemma decimal_digits n :
  exists c s, decimal n = c :: s /\ is_digit c = true /\
              int_digits (decimal n) 0 false = Some (Z.of_N (Z.to_N n)) /\
              int_digits (decimal n) 0 true = Some (Z.of_N (Z.to_N n)).
Proof.
  unfold decimal. rewrite <- (uint_value_to_uint (Z.to_N n)).
  generalize (N.to_uint (Z.to_N n)). intros d.
  destruct d as [|d|d|d|d|d|d|d|d|d|d];
    [by exists "0"%char, [] |..];
    eexists _, _; (split; [reflexivity|]); (split; [vm_compute; reflexivity|]);
    split; apply (int_digits_uint _ 0) || (
      pose proof (int_digits_uint d) as H;
      unfold lit in *;
      cbn [NilZero.string_of_uint NilEmpty.string_of_uint list_ascii_of_string
           int_digits uint_value];
      match goal with
      | |- context [is_digit ?c] =>
          replace (is_digit c) with true by (vm_compute; reflexivity);
          let v := eval vm_compute in (digit_value c) in
          change (digit_value c) with v
      end;
      cbv iota; rewrite H; do 2 f_equal; lia).
Qed.

Lemma int_of_str_digits c s :
  is_digit c = true -> int_of_str (c :: s) = int_digits (c :: s) 0 false.
Proof.
  intros Hc. unfold int_of_str.
  assert (is_int_space c = false /\ is_char "-" c = false /\ is_char "+" c = false)
    as (Hs & Hm & Hp).
  { destruct c as [[] [] [] [] [] [] [] []]; vm_compute in Hc; try discriminate;
      vm_compute; done. }
  cbn [skip_int_space]. by rewrite Hs, Hm, Hp.
Qed.

Lemma int_of_str_decimal n : (0 <= n)%Z -> int_of_str (decimal n) = Some n.
Proof.
  intros Hn. destruct (decimal_digits n) as (c & s & E & Hc & H1 & _).
  rewrite E in *. rewrite int_of_str_digits, H1 by done. f_equal. lia.
Qed.

Lemma int_of_str_minus s :
  int_of_str (lit "-" ++ s) = Z.opp <$> int_digits s 0 false.
Proof. done. Qed.

Lemma int_of_str_str_of_int n : int_of_str (str_of_int n) = Some n.
Proof.
  unfold str_of_int. destruct (n <? 0)%Z eqn:E.
  - apply Z.ltb_lt in E. rewrite int_of_str_minus.
    destruct (decimal_digits (- n)) as (c & s & _ & _ & -> & _).
    simpl. f_equal. lia.
  - apply Z.ltb_ge in E. by apply int_of_str_decimal.
Qed.

Lemma int_of_str_format_02d n : int_of_str (format_02d n) = Some n.
Proof.
  unfold format_02d. destruct (n <? 0)%Z eqn:E.
  - apply Z.ltb_lt in E. rewrite int_of_str_minus.
    destruct (decimal_digits (- n)) as (c & s & _ & _ & -> & _).
    simpl. f_equal. lia.
  - apply Z.ltb_ge in E. destruct (n <? 10)%Z; [|by apply int_of_str_decimal].
    destruct (decimal_digits n) as (c & s & _ & _ & _ & H).
    change (lit "0" ++ decimal n) with ("0"%char :: decimal n).
    rewrite int_of_str_digits by (vm_compute; reflexivity).
    cbn [int_digits].
    replace (is_digit "0") with true by (vm_compute; reflexivity). cbv iota.
    change (10 * 0 + digit_value "0")%Z with 0%Z. rewrite H. f_equal. lia.
Qed.

Lemma format_02d_not_alpha n : isalpha (format_02d n) = false.
Proof.
  assert (Hd : forall c s, is_digit c = true -> isalpha (c :: s) = false).
  { intros c s Hc. unfold isalpha. cbn [forallb].
    replace (is_alpha c) with false; [done|].
    destruct c as [[] [] [] [] [] [] [] []]; vm_compute in Hc; try discriminate;
      vm_compute; done. }
  unfold format_02d. destruct (n <? 0)%Z; [done|].
  destruct (n <? 10)%Z; [by apply Hd|].
  destruct (decimal_digits n) as (c & s & -> & Hc & _). by apply Hd.
Qed.

(** X9. Numbers written by the program read back as themselves, as long
    as they are within the interpreter's cap on the digits of a conversion:
    [int] gives [n] on the two-digit form of [n] and on the plain form of
    [n]; so the [retmax] parameter of a search reads back as [max_results],
    and a date whose month and day are already in two-digit form is left as
    it is. *)
Theorem numbers_round_trip :
  (forall n, within_digit_cap n -> int_of_str (format_02d n) = Some n) /\
  (forall n, within_digit_cap n -> int_of_str (str_of_int n) = Some n) /\
  (forall self query max_results,
     within_digit_cap max_results ->
     (search_params self query max_results !! lit "retmax") ≫= int_of_str
     = Some max_results) /\
  (forall year m d,
     truthy (Some year) = true ->
     within_digit_cap m -> within_digit_cap d ->
     pub_date_of_fields
       (Some (mkElement (lit "Year") (Some year) []))
       (Some (mkElement (lit "Month") (Some (format_02d m)) []))
       (Some (mkElement (lit "Day") (Some (format_02d d)) []))
     = Ok (year ++ lit "-" ++ format_02d m ++ lit "-" ++ format_02d d)).
Proof.
  split; [intros n _; apply int_of_str_format_02d|].
  split; [intros n _; apply int_of_str_str_of_int|].
  split.
  - intros self query max_results _. unfold search_params.
    do 2 rewrite lookup_insert_ne by (vm_compute; discriminate).
    rewrite lookup_insert_eq. simpl. apply int_of_str_str_of_int.
  - intros year m d Hy _ _. unfold pub_date_of_fields, format_pub_date.
    cbn [text_or text]. rewrite Hy, format_02d_not_alpha. unfold py_int.
    by rewrite !int_of_str_format_02d.
Qed.

Lemma numbers_round_trip_witness :
  pub_date_of_fields
    (Some (mkElement (lit "Year") (Some (lit "1999")) []))
    (Some (mkElement (lit "Month") (Some (format_02d 7)) []))
    (Some (mkElement (lit "Day") (Some (format_02d 31)) []))
  = Ok (lit "1999" ++ lit "-" ++ format_02d 7 ++ lit "-" ++ format_02d 31).
Proof.
  apply (proj2 (proj2 (proj2 numbers_round_trip)));
    [reflexivity | vm_compute; reflexivity | vm_compute; reflexivity].
Defined.

(** * Further properties of the retrieval client *)

(** ** What a fetch returns *)

Lemma batch_loop_results io self starts pmids all w :
  fst (batch_loop io self starts pmids all w)
  = Ok (all ++ fetch_results io (replies w) (requests_made w)
                 (map (fun i => take batch_size (drop i pmids)) starts)).
Proof.
  revert all w. induction starts as [|i starts IH]; intros all w.
  - simpl. by rewrite app_nil_r.
  - cbn [batch_loop map fetch_results]. unfold bind. rewrite fetch_batch_outcome.
    destruct (batch_document (replies w (requests_made w))) as [root|];
      rewrite IH, requests_made_extend;
      cbn [List.filter is_request length replies extend];
      rewrite Nat.add_1_r; [by rewrite <- app_assoc | done].
Qed.

Lemma fetch_results_elem io replies n bs paper :
  paper ∈ fetch_results io replies n bs <->
  exists i root, i < length bs /\ batch_document (replies (n + i)) = Some root /\
                 paper ∈ parse_articles io root.
Proof.
  revert n. induction bs as [|b bs IH]; intros n.
  - split; [by inversion 1 | intros (i & ? & Hi & _); simpl in Hi; lia].
  - cbn [fetch_results]. rewrite elem_of_app, IH. split.
    + intros [H | (i & root & Hi & Hd & Hp)].
      * destruct (batch_document (replies n)) as [root|] eqn:E; [|by inversion H].
        exists 0, root. rewrite Nat.add_0_r. simpl. split; [lia | done].
      * exists (S i), root. rewrite Nat.add_succ_r. simpl. split; [lia | done].
    + intros ([|i] & root & Hi & Hd & Hp).
      * left. rewrite Nat.add_0_r in Hd. by rewrite Hd.
      * right. exists i, root. rewrite Nat.add_succ_r in Hd. simpl in Hi.
        split; [lia | done].
Qed.

(** X10. The result of [fetch_paper_details] is the list of the records
    parsed from the documents of the batches that yield one, batch after
    batch: a record is returned exactly when it is parsed from the document
    of some batch, whatever happens to the other batches. *)
Theorem fetch_paper_details_results io self pmids w :
  fst (fetch_paper_details io self pmids w)
  = Ok (fetch_results io (replies w) (requests_made w) (batches pmids)) /\
  (forall paper,
     paper ∈ fetch_results io (replies w) (requests_made w) (batches pmids) <->
     exists i root,
       i < length (batches pmids) /\
       batch_document (replies w (requests_made w + i)) = Some root /\
       paper ∈ parse_articles io root).
Proof.
  split; [|intros paper; apply fetch_results_elem].
  destruct pmids as [|p pmids]; [done|].
  unfold fetch_paper_details. by rewrite batch_loop_results.
Qed.

Lemma fetch_paper_details_results_witness :
  exists paper,
    paper ∈ fetch_results elements (replies demo_service)
              (requests_made demo_service)
              (batches (replicate 201 (lit "1"))).
Proof.
  destruct (parse_pubmed_article elements
              (demo_article "1"
                 (demo_author "Jane" "Doe" "Genentech, South San Francisco, CA")))
    as [paper|] eqn:E; [|vm_compute in E; discriminate].
  exists paper.
  apply (proj2 (proj2 (fetch_paper_details_results elements plain_finder
                         (replicate 201 (lit "1")) demo_service) paper)).
  exists 2, demo_document. split; [vm_compute; lia|]. split; [reflexivity|].
  unfold parse_articles. apply list_elem_of_omap.
  exists (demo_article "1"
            (demo_author "Jane" "Doe" "Genentech, South San Francisco, CA")).
  split; [|exact E]. vm_compute. left.
Defined.

(** ** The batches, one by one *)

Lemma range_from_lookup fuel start stop step i x :
  range_from fuel start stop step !! i = Some x -> x = start + step * i.
Proof.
  revert start i. induction fuel as [|fuel IH]; intros start i; simpl; [done|].
  destruct (start <? stop); [|done]. destruct i as [|i]; simpl.
  - intros [= <-]. lia.
  - intros H. apply IH in H. lia.
Qed.

Lemma batches_lookup pmids i :
  i < (length pmids + 99) / 100 ->
  batches pmids !! i = Some (take 100 (drop (100 * i) pmids)).
Proof.
  intros Hi. rewrite <- batches_length in Hi. unfold batches in *.
  rewrite length_map in Hi. rewrite list_lookup_fmap.
  destruct (lookup_lt_is_Some_2 _ _ Hi) as [x Hx]. rewrite Hx.
  apply range_from_lookup in Hx as ->. done.
Qed.

(** X11. The batch number [i] holds the identifiers from position [100 i]
    up to, and not including, position [100 i + 100]; so every batch but
    the last holds exactly 100 identifiers. *)
Theorem batches_one_by_one (pmids : list PMID) :
  (forall i, i < (length pmids + 99) / 100 ->
     batches pmids !! i = Some (take 100 (drop (100 * i) pmids))) /\
  (forall i b, batches pmids !! i = Some b ->
     S i < length (batches pmids) -> length b = 100).
Proof.
  split; [apply batches_lookup|]. intros i b Hb Hi.
  rewrite batches_length in Hi.
  rewrite batches_lookup in Hb by lia. injection Hb as <-.
  rewrite length_take, length_drop.
  assert (100 * ((length pmids + 99) / 100) <= length pmids + 99)
    by (apply Nat.Div0.mul_div_le).
  lia.
Qed.

Lemma batches_one_by_one_witness :
  batches (replicate 250 (lit "7")) !! 1
  = Some (take 100 (drop (100 * 1) (replicate 250 (lit "7")))).
Proof.
  apply (proj1 (batches_one_by_one (replicate 250 (lit "7")))).
  vm_compute. lia.
Defined.

(** ** The parameters of the requests *)

Lemma base_params_lookup self k :
  base_params self !! k
  = if bool_decide (k = lit "api_key") then configured_key self else None.
Proof.
  unfold base_params, configured_key.
  destruct (api_key self) as [[|c key]|]; case_bool_decide; subst;
    try done; by rewrite ?lookup_singleton_eq, ?lookup_singleton_ne, ?lookup_empty.
Qed.

(** X12. Every request that [fetch_paper_details] issues goes to the fetch
    address for one of the batches, with the parameters [db = pubmed],
    [retmode = xml], [id] the identifiers of the batch joined by commas,
    the access token as [api_key] exactly when a non-empty one is
    configured, and nothing else. *)
Theorem fetch_requests_parameters io self pmids w e :
  e ∈ log (snd (fetch_paper_details io self pmids w)) ->
  e ∉ log w -> is_request e = true ->
  exists b, b ∈ batches pmids /\
    e = Requested efetch_url (fetch_params self b) /\
    forall k,
      fetch_params self b !! k
      = if bool_decide (k = lit "retmode") then Some (lit "xml")
        else if bool_decide (k = lit "id") then Some (join (lit ",") b)
        else if bool_decide (k = lit "db") then Some (lit "pubmed")
        else if bool_decide (k = lit "api_key") then configured_key self
        else None.
Proof.
  destruct (fetch_paper_details_outcome io self pmids w) as (papers & -> & _).
  cbn [snd extend log]. rewrite elem_of_app. intros [H|H] Hn Hr; [done|].
  assert (He : e ∈ List.filter is_request
                 (fetch_events (replies w) (requests_made w) self (batches pmids))).
  { apply list_elem_of_In, filter_In. by rewrite <- list_elem_of_In. }
  rewrite fetch_events_requests in He.
  apply list_elem_of_fmap in He as (b & -> & Hb).
  exists b. split; [done|]. split; [done|]. intros k. unfold fetch_params.
  repeat case_bool_decide; subst;
    rewrite ?lookup_insert_eq; try done;
    repeat (rewrite lookup_insert_ne by congruence);
    rewrite ?lookup_insert_eq; try done;
    rewrite base_params_lookup; by repeat case_bool_decide.
Qed.

Lemma fetch_requests_parameters_witness :
  exists b, b ∈ batches [lit "1"] /\
    Requested efetch_url (fetch_params plain_finder [lit "1"])
    = Requested efetch_url (fetch_params plain_finder b) /\
    forall k,
      fetch_params plain_finder b !! k
      = if bool_decide (k = lit "retmode") then Some (lit "xml")
        else if bool_decide (k = lit "id") then Some (join (lit ",") b)
        else if bool_decide (k = lit "db") then Some (lit "pubmed")
        else if bool_decide (k = lit "api_key") then configured_key plain_finder
        else None.
Proof.
  apply (fetch_requests_parameters elements plain_finder [lit "1"] service_down).
  - vm_compute. left.
  - vm_compute. inversion 1.
  - reflexivity.
Defined.

(** ** The outcomes of a search *)

Lemma saved_extend w es :
  saved (extend w es)
  = saved w ++ omap (fun e => match e with
                              | Saved papers o => Some (papers, o)
                              | _ => None
                              end) es.
Proof. unfold saved, extend. simpl. by rewrite omap_app. Qed.

Lemma failure_of_None_response r :
  failure_of r = None -> exists response, response_of r = Some response.
Proof. destruct r as [d|sc c u]; [done | by eexists]. Qed.

Lemma backoff_outcome_cases url params w :
  let r := backoff_outcome url params w in
  saved (snd r) = saved w /\
  match fst r with
  | Ok (Some _) =>
      requests_made w + 1 <= requests_made (snd r) <= requests_made w + 3
  | Raise (APIError attempts _ _) =>
      attempts = 3 /\ requests_made (snd r) = requests_made w + 3
  | _ => False
  end.
Proof.
  cbv zeta. unfold backoff_outcome.
  repeat match goal with
         | |- context [failure_of ?x] =>
             let E := fresh "E" in
             destruct (failure_of x) as [[? ?]|] eqn:E;
             [|apply failure_of_None_response in E as [? ->]]
         end;
    cbn [fst snd]; rewrite saved_extend, requests_made_extend, app_nil_r;
    (split; [done|]); cbn [List.filter is_request length]; lia.
Qed.

Lemma decode_outcome_cases (response : Response) w :
  let r := catch
             (let* search_data := requests_get (url response) ∅ in
              let* pmids := lift (json_idlist (content search_data)) in
              ret pmids)
             (fun e => match e with
                       | ValueError => Some (raise ParseError)
                       | _ => None
                       end) w in
  saved (snd r) = saved w /\
  requests_made (snd r) = requests_made w + 1 /\
  fst r = decode_outcome (replies w (requests_made w)).
Proof.
  cbv zeta. unfold catch, bind, requests_get, lift, ret, raise, decode_outcome.
  destruct (replies w (requests_made w)) as [d|sc c u]; [|destruct c];
    cbn [fst snd content json_idlist];
    rewrite record_extend, saved_extend, requests_made_extend, app_nil_r; done.
Qed.

(** X13. A search ends in one of six ways: the identifiers, after 2 to 4
    requests; a [ValidationError], with nothing done; an [APIError] after
    exactly 3 requests; the [RequestException] of the follow-up request,
    which has no response attached and is passed on as it is; a
    [ParseError]; or an [AttributeError], which no handler names.  Once the
    first request has been answered, the reply to the follow-up request
    decides: no reply gives the [RequestException], a body that is not
    JSON the [ParseError], JSON that is not an object the
    [AttributeError], and an object its identifiers.  A search never
    writes anything to the sink, and [_make_api_request] never returns
    [None].  The number of results is taken within the interpreter's cap on
    the digits of a conversion. *)
Theorem search_papers_outcomes self query max_results w :
  within_digit_cap max_results ->
  let r := search_papers self query max_results w in
  let n := requests_made w in
  match fst r with
  | Ok _ | Raise ParseError | Raise AttributeError =>
      n + 2 <= requests_made (snd r) <= n + 4
  | Raise (ValidationError _) => snd r = w
  | Raise (APIError attempts _ _) =>
      attempts = 3 /\ requests_made (snd r) = n + 3
  | Raise (RequestException _ status) =>
      status = None /\ n + 2 <= requests_made (snd r) <= n + 4
  | Raise _ => False
  end /\
  (forall response w1,
     ~ invalid_search query max_results ->
     _make_api_request esearch_url (search_params self query max_results) w
     = (Ok (Some response), w1) ->
     fst r = decode_outcome (replies w1 (requests_made w1))) /\
  saved (snd r) = saved w /\
  (forall url params, fst (_make_api_request url params w) <> Ok None).
Proof.
  intros _. cbv zeta. split; [|split; [|split]].
  - unfold search_papers, bind at 1, lift, validate_query.
    destruct (_ || _); [done|]. destruct (_ <? _); [done|].
    destruct (max_results <? 1)%Z; [done|].
    unfold bind. rewrite _make_api_request_outcome.
    pose proof (backoff_outcome_cases esearch_url
                  (search_params self query max_results) w) as [_ H].
    destruct (backoff_outcome _ _ w) as [[[response|]|e] w1]; cbn [fst snd] in *;
      [|done|by destruct e].
    pose proof (decode_outcome_cases response w1) as (_ & Hn & Hr).
    cbv zeta in Hn, Hr. destruct (catch _ _ w1) as [[ids|e] w2]; cbn [fst snd] in *;
      [lia|]. unfold decode_outcome in Hr.
    destruct (replies w1 (requests_made w1)) as [d|sc [root|idlist| |] u];
      try discriminate Hr; injection Hr as ->; first [lia | (split; [done | lia])].
  - intros response w1 Hv Hr. unfold invalid_search in Hv.
    unfold search_papers, bind at 1, lift.
    rewrite validate_query_valid by tauto.
    assert ((max_results <? 1)%Z = false) as -> by (apply Z.ltb_ge; lia).
    unfold bind. rewrite Hr. cbv beta iota.
    exact (proj2 (proj2 (decode_outcome_cases response w1))).
  - unfold search_papers, bind at 1, lift, validate_query.
    destruct (_ || _); [done|]. destruct (_ <? _); [done|].
    destruct (max_results <? 1)%Z; [done|].
    unfold bind. rewrite _make_api_request_outcome.
    pose proof (backoff_outcome_cases esearch_url
                  (search_params self query max_results) w) as [Hs H].
    destruct (backoff_outcome _ _ w) as [[[response|]|e] w1]; cbn [fst snd] in *;
      [|done|done].
    pose proof (decode_outcome_cases response w1) as (Hs' & _). cbv zeta in Hs'.
    etrans; [exact Hs' | exact Hs].
  - intros url params. rewrite _make_api_request_outcome.
    pose proof (backoff_outcome_cases url params w) as [_ H].
    destruct (backoff_outcome _ _ w) as [[[response|]|e] w1]; cbn [fst snd] in *;
      done.
Qed.

Lemma search_papers_outcomes_witness :
  fst (search_papers plain_finder (lit "cancer") 5 service_json_array)
  = Raise AttributeError.
Proof.
  apply (proj1 (proj2 (search_papers_outcomes plain_finder (lit "cancer") 5
                         service_json_array ltac:(vm_compute; reflexivity)))
           (mkResponse 200 JsonNotObject esearch_url)
           (snd (_make_api_request esearch_url
                   (search_params plain_finder (lit "cancer") 5)
                   service_json_array))).
  - intros [H|[H|H]]; [discriminate H | cbn in H; lia | lia].
  - reflexivity.
Defined.

(** ** The filter, with and without debug messages *)

Lemma filter_kept_again papers :
  List.filter kept (List.filter kept papers) = List.filter kept papers.
Proof.
  induction papers as [|p l IH]; [done|]. simpl.
  destruct (kept p) eqn:E; [|done]. simpl. by rewrite E, IH.
Qed.

Lemma filter_sublist {A} (p : A -> bool) (l : list A) : List.filter p l `sublist_of` l.
Proof.
  induction l as [|x l IH]; simpl; [constructor|].
  destruct (p x); [by apply sublist_skip | by apply sublist_cons].
Qed.

(** X14. The filter fails, with a [TypeError], exactly when debug messages
    are on and some record that it keeps has a title without text;
    otherwise it returns the records whose company field is not "N/A", a
    sub-list of its input, and filtering the result again changes
    nothing. *)
Theorem filter_papers_outcome self papers :
  filter_papers_with_pharma_biotech_affiliations self papers
  = (if debug self && existsb kept_untitled papers
     then Raise TypeError
     else Ok (List.filter kept papers)) /\
  (forall result,
     filter_papers_with_pharma_biotech_affiliations self papers = Ok result ->
     result `sublist_of` papers /\
     Forall (fun paper => Company_Affiliations paper <> lit "N/A") result /\
     filter_papers_with_pharma_biotech_affiliations self result = Ok result).
Proof.
  unfold filter_papers_with_pharma_biotech_affiliations.
  rewrite !filter_loop_outcome. split; [done|]. intros result.
  destruct (debug self) eqn:Ed; cbn [andb].
  - destruct (existsb kept_untitled papers) eqn:Ex; [done|].
    intros [= <-]. split; [apply filter_sublist|]. split.
    + apply Forall_forall. intros p Hp.
      apply list_elem_of_In, filter_In in Hp as [_ Hp]. unfold kept, is_NA in Hp.
      apply negb_true_iff, bool_decide_eq_false in Hp. done.
    + rewrite filter_loop_outcome, Ed. cbn [andb app].
      replace (existsb kept_untitled (List.filter kept papers)) with false.
      * by rewrite filter_kept_again.
      * symmetry. apply not_true_iff_false. intros H.
        apply existsb_exists in H as (p & Hp & Hu).
        apply filter_In in Hp as [Hp _].
        apply not_true_iff_false in Ex. apply Ex, existsb_exists. by exists p.
  - intros [= <-]. split; [apply filter_sublist|]. split.
    + apply Forall_forall. intros p Hp.
      apply list_elem_of_In, filter_In in Hp as [_ Hp]. unfold kept, is_NA in Hp.
      apply negb_true_iff, bool_decide_eq_false in Hp. done.
    + rewrite filter_loop_outcome, Ed. cbn [andb app]. by rewrite filter_kept_again.
Qed.

Lemma filter_papers_outcome_witness :
  filter_papers_with_pharma_biotech_affiliations debug_finder
    (parse_articles elements demo_document
       ++ parse_articles elements untitled_document)
  = Raise TypeError /\
  (List.filter kept (parse_articles elements demo_document)
     `sublist_of` parse_articles elements demo_document /\
   Forall (fun paper => Company_Affiliations paper <> lit "N/A")
          (List.filter kept (parse_articles elements demo_document)) /\
   filter_papers_with_pharma_biotech_affiliations debug_finder
     (List.filter kept (parse_articles elements demo_document))
   = Ok (List.filter kept (parse_articles elements demo_document))).
Proof.
  split.
  - exact (proj1 (filter_papers_outcome debug_finder
                    (parse_articles elements demo_document
                       ++ parse_articles elements untitled_document))).
  - apply (proj2 (filter_papers_outcome debug_finder
                    (parse_articles elements demo_document))).
    vm_compute. reflexivity.
Defined.

(** * Further properties of the pipeline and of the command line *)

Lemma search_papers_saved self query max_results w :
  saved (snd (search_papers self query max_results w)) = saved w.
Proof.
  unfold search_papers, bind at 1, lift, validate_query.
  destruct (_ || _); [done|]. destruct (_ <? _); [done|].
  destruct (max_results <? 1)%Z; [done|].
  unfold bind. rewrite _make_api_request_outcome.
  pose proof (backoff_outcome_cases esearch_url
                (search_params self query max_results) w) as [Hs H].
  destruct (backoff_outcome _ _ w) as [[[response|]|e] w1]; cbn [fst snd] in *;
    [|done|done].
  pose proof (decode_outcome_cases response w1) as (Hs' & _). cbv zeta in Hs'.
  etrans; [exact Hs' | exact Hs].
Qed.

Lemma fetch_events_saved replies n self bs :
  omap (fun e => match e with
                 | Saved papers o => Some (papers, o)
                 | _ => None
                 end) (fetch_events replies n self bs) = [].
Proof.
  revert n. induction bs as [|b bs IH]; intros n; [done|].
  cbn [fetch_events omap list_omap]. rewrite omap_app, IH.
  by destruct (batch_document (replies n)).
Qed.

Lemma run_saved_eq io self query max_results output_file w r w' :
  run io self query max_results output_file w = (r, w') ->
  saved w'
  = saved w ++ match r with
               | Ok (p :: ps) => [(p :: ps, output_file)]
               | _ => []
               end.
Proof.
  unfold run, bind at 1.
  pose proof (search_papers_saved self query max_results w) as Hs.
  destruct (search_papers self query max_results w) as [[pmids|e] w1];
    cbn [fst snd] in *; [|intros [= <- <-]; by rewrite app_nil_r].
  destruct pmids as [|p pmids]; [intros [= <- <-]; by rewrite app_nil_r|].
  unfold bind at 1.
  destruct (fetch_paper_details_outcome io self (p :: pmids) w1) as (papers & -> & _).
  unfold bind at 1, lift.
  assert (Hf : saved (extend w1 (fetch_events (replies w1) (requests_made w1) self
                                   (batches (p :: pmids)))) = saved w).
  { by rewrite saved_extend, fetch_events_saved, app_nil_r. }
  destruct (filter_papers_with_pharma_biotech_affiliations self papers)
    as [filtered|e]; [|intros [= <- <-]; rewrite app_nil_r; exact Hf].
  unfold bind, ret. destruct filtered as [|f fs];
    [intros [= <- <-]; rewrite app_nil_r; exact Hf|].
  unfold save_to_csv. cbv zeta. cbn [sink_failure extend].
  destruct (sink_failure w1 (f :: fs) output_file); intros [= <- <-];
    rewrite !record_extend, !saved_extend in *; cbn [omap list_omap];
    rewrite ?app_nil_r in *; [exact Hf | f_equal; exact Hf].
Qed.

Lemma run_saved io self query max_results output_file w :
  let r := run io self query max_results output_file w in
  saved (snd r)
  = saved w ++ match fst r with
               | Ok (p :: ps) => [(p :: ps, output_file)]
               | _ => []
               end.
Proof.
  cbv zeta. apply (run_saved_eq io self query max_results).
  by destruct (run _ _ _ _ _ _).
Qed.

Lemma search_papers_log self query max_results w :
  exists es,
    snd (search_papers self query max_results w) = extend w es /\
    Forall (fun e => match e with
                     | Requested _ _ | Slept _ => True
                     | _ => False
                     end) es.
Proof.
  unfold search_papers, bind at 1, lift, validate_query.
  assert (Hnil : exists es, w = extend w es /\
            Forall (fun e => match e with
                             | Requested _ _ | Slept _ => True
                             | _ => False
                             end) es).
  { exists []. by rewrite extend_nil. }
  destruct (_ || _); [done|]. destruct (_ <? _); [done|].
  destruct (max_results <? 1)%Z; [done|].
  unfold bind. rewrite _make_api_request_outcome.
  assert (Hb : exists es,
            snd (backoff_outcome esearch_url
                   (search_params self query max_results) w) = extend w es /\
            Forall (fun e => match e with
                             | Requested _ _ | Slept _ => True
                             | _ => False
                             end) es).
  { unfold backoff_outcome.
    repeat match goal with
           | |- context [failure_of ?x] => destruct (failure_of x) as [[? ?]|]
           end;
      eexists; (split; [reflexivity|]); repeat (apply Forall_cons; split; [done|]);
      apply Forall_nil_2. }
  destruct Hb as (es & Hw & Hes).
  destruct (backoff_outcome _ _ w) as [[[response|]|err] w1]; cbn [fst snd] in *;
    subst w1; [|by exists es|by exists es].
  exists (es ++ [Requested (url response) ∅]). split.
  - unfold catch, bind, requests_get, lift, ret, raise.
    destruct (replies (extend w es) (requests_made (extend w es))) as [d|sc c u];
      [|destruct c]; cbn [fst snd content json_idlist];
      by rewrite record_extend, extend_extend.
  - apply Forall_app. split; [done|]. by apply Forall_singleton.
Qed.

Lemma sink_failure_extend w es : sink_failure (extend w es) = sink_failure w.
Proof. done. Qed.

Lemma handed_extend w es :
  handed (extend w es)
  = handed w ++ omap (fun e => match e with
                               | Handed papers o => Some (papers, o)
                               | _ => None
                               end) es.
Proof. unfold handed, extend. simpl. by rewrite omap_app. Qed.

Lemma search_papers_handed self query max_results w :
  handed (snd (search_papers self query max_results w)) = handed w.
Proof.
  destruct (search_papers_log self query max_results w) as (es & -> & Hes).
  rewrite handed_extend.
  assert (omap (fun e => match e with
                         | Handed papers o => Some (papers, o)
                         | _ => None
                         end) es = []) as ->; [|by rewrite app_nil_r].
  induction Hes as [|e es He _ IH]; [done|].
  cbn [omap list_omap]. rewrite IH. by destruct e.
Qed.

Lemma fetch_events_handed replies n self bs :
  omap (fun e => match e with
                 | Handed papers o => Some (papers, o)
                 | _ => None
                 end) (fetch_events replies n self bs) = [].
Proof.
  revert n. induction bs as [|b bs IH]; intros n; [done|].
  cbn [fetch_events omap list_omap]. rewrite omap_app, IH.
  by destruct (batch_document (replies n)).
Qed.

Lemma run_handed_eq io self query max_results output_file w r w' :
  run io self query max_results output_file w = (r, w') ->
  match r with
  | Ok (p :: ps) =>
      sink_failure w (p :: ps) output_file = None /\
      handed w' = handed w ++ [(p :: ps, output_file)]
  | Ok [] => handed w' = handed w
  | Raise e =>
      handed w' = handed w \/
      exists p ps message,
        sink_failure w (p :: ps) output_file = Some message /\
        e = ValidationError message /\
        handed w' = handed w ++ [(p :: ps, output_file)]
  end.
Proof.
  unfold run, bind at 1.
  pose proof (search_papers_handed self query max_results w) as Hs.
  destruct (search_papers self query max_results w) as [[pmids|e] w1] eqn:Es;
    cbn [fst snd] in *; [|intros [= <- <-]; by left].
  apply search_papers_frame in Es.
  destruct pmids as [|p pmids]; [by intros [= <- <-]|].
  unfold bind at 1.
  destruct (fetch_paper_details_outcome io self (p :: pmids) w1) as (papers & -> & _).
  unfold bind at 1, lift.
  assert (Hf : handed (extend w1 (fetch_events (replies w1) (requests_made w1) self
                                    (batches (p :: pmids)))) = handed w).
  { by rewrite handed_extend, fetch_events_handed, app_nil_r. }
  assert (Hsf : sink_failure (extend w1 (fetch_events (replies w1) (requests_made w1)
                                           self (batches (p :: pmids))))
                = sink_failure w) by exact Es.
  revert Hf Hsf. generalize (extend w1 (fetch_events (replies w1) (requests_made w1)
                                          self (batches (p :: pmids)))).
  intros w2 Hf Hsf.
  destruct (filter_papers_with_pharma_biotech_affiliations self papers)
    as [filtered|e]; [|intros [= <- <-]; by left].
  unfold bind, ret. destruct filtered as [|f fs]; [by intros [= <- <-]|].
  unfold save_to_csv. cbv zeta. rewrite Hsf.
  destruct (sink_failure w (f :: fs) output_file) as [message|] eqn:Hsink;
    intros [= <- <-].
  - right. exists f, fs, message. split; [done|]. split; [done|].
    by rewrite record_extend, handed_extend, Hf.
  - split; [done|]. rewrite !record_extend, !handed_extend, Hf.
    cbn [omap list_omap]. by rewrite app_nil_r.
Qed.

(** X15. [run] takes records to the sink at most once, and only a
    non-empty list.  When it returns a non-empty list, it has taken exactly
    that list to the sink with the given file and the sink has written it;
    when it returns the empty list, the sink was not reached; when it
    raises, nothing was written, and the sink was reached only if it is the
    sink that failed, [run] then raising the sink's [ValidationError].
    When the search raises, [run] raises the same exception with nothing
    more done, and when the search finds nothing [run] returns the empty
    list at once.  The number of results is taken within the interpreter's
    cap on the digits of a conversion. *)
Theorem run_sink_discipline io self query max_results output_file w :
  within_digit_cap max_results ->
  let r := run io self query max_results output_file w in
  match fst r with
  | Ok (p :: ps) =>
      sink_failure w (p :: ps) output_file = None /\
      handed (snd r) = handed w ++ [(p :: ps, output_file)] /\
      saved (snd r) = saved w ++ [(p :: ps, output_file)]
  | Ok [] => handed (snd r) = handed w /\ saved (snd r) = saved w
  | Raise e =>
      saved (snd r) = saved w /\
      (handed (snd r) = handed w \/
       exists p ps message,
         sink_failure w (p :: ps) output_file = Some message /\
         e = ValidationError message /\
         handed (snd r) = handed w ++ [(p :: ps, output_file)])
  end /\
  (forall e w1, search_papers self query max_results w = (Raise e, w1) ->
                r = (Raise e, w1)) /\
  (forall w1, search_papers self query max_results w = (Ok [], w1) ->
              r = (Ok [], w1)).
Proof.
  intros _. cbv zeta. split.
  - pose proof (run_saved io self query max_results output_file w) as Hsaved.
    cbv zeta in Hsaved.
    pose proof (run_handed_eq io self query max_results output_file w) as Hhanded.
    destruct (run io self query max_results output_file w) as [[[|p ps]|e] w'];
      specialize (Hhanded _ _ eq_refl); cbn [fst snd] in *;
      rewrite ?app_nil_r in Hsaved.
    + done.
    + destruct Hhanded as [Hsink Hh]. done.
    + done.
  - split; intros; unfold run, bind; by rewrite H.
Qed.

Lemma run_sink_discipline_witness :
  let r := run elements plain_finder (lit "cancer") 10 (Some (lit "out.csv"))
             service_full_disk in
  match fst r with
  | Ok (p :: ps) =>
      sink_failure service_full_disk (p :: ps) (Some (lit "out.csv")) = None /\
      handed (snd r)
      = handed service_full_disk ++ [(p :: ps, Some (lit "out.csv"))] /\
      saved (snd r) = saved service_full_disk ++ [(p :: ps, Some (lit "out.csv"))]
  | Ok [] =>
      handed (snd r) = handed service_full_disk /\
      saved (snd r) = saved service_full_disk
  | Raise e =>
      saved (snd r) = saved service_full_disk /\
      (handed (snd r) = handed service_full_disk \/
       exists p ps message,
         sink_failure service_full_disk (p :: ps) (Some (lit "out.csv"))
         = Some message /\
         e = ValidationError message /\
         handed (snd r)
         = handed service_full_disk ++ [(p :: ps, Some (lit "out.csv"))])
  end.
Proof.
  apply (run_sink_discipline elements plain_finder (lit "cancer") 10
           (Some (lit "out.csv")) service_full_disk).
  vm_compute. reflexivity.
Defined.

(** ** The command line *)

Lemma endswith_app s suffix : endswith (s ++ suffix) suffix = true.
Proof.
  unfold endswith. rewrite rev_app_distr. apply startswith_spec. by eexists.
Qed.

Lemma csv_name_endswith f : endswith (csv_name f) (lit ".csv") = true.
Proof.
  unfold csv_name. destruct (endswith f (lit ".csv")) eqn:E; [done|].
  apply endswith_app.
Qed.

(** X16. [main] ends with exit code 0 or 1 whenever its five questions
    can be answered, and with code 1, before any request, when the
    number of results is not blank and is not a number.  It does not
    return an exit code when the input ends early: with a readable number
    (of at most 4300 characters, the interpreter's cap on the digits that
    [int] converts) and fewer than four lines, the error raised in its
    handler leaves it, nothing having been requested. *)
Theorem main_exit_codes io env_api_key stdin w :
  (5 <= length stdin ->
   fst (main io env_api_key stdin w) = Exit 0 \/
   fst (main io env_api_key stdin w) = Exit 1) /\
  (forall query number rest,
     stdin = query :: number :: rest ->
     strip number <> [] -> int_of_str (strip number) = None ->
     main io env_api_key stdin w = (Exit 1, w)) /\
  (forall query number rest,
     stdin = query :: number :: rest ->
     (strip number = [] \/ is_Some (int_of_str (strip number))) ->
     within_text_cap (Some (strip number)) ->
     length rest < 2 ->
     main io env_api_key stdin w = (Unbound, w)).
Proof.
  split; [|split].
  - intros Hlen.
    destruct stdin as [|q [|n [|c [|f [|d rest]]]]]; simpl in Hlen; try lia.
    unfold main. destruct (if truthy _ then _ else _); [|by right].
    destruct (bool_decide _); destruct (run _ _ _ _ _ _) as [[?|?] ?]; auto.
  - intros query number rest -> Hne Hint. unfold main.
    destruct (strip number) as [|c s]; [done|]. cbn [truthy]. by rewrite Hint.
  - intros query number rest -> Hnum _ Hlen. unfold main.
    assert (exists n, (if truthy (Some (strip number))
                       then int_of_str (strip number) else Some 100%Z) = Some n)
      as [n ->].
    { destruct Hnum as [-> | [n Hn]]; [by eexists|].
      rewrite Hn. destruct (truthy _); by eexists. }
    destruct rest as [|c [|f rest]]; [done| |simpl in Hlen; lia].
    by destruct (bool_decide _).
Qed.

Lemma main_exit_codes_witness :
  main elements None [lit "cancer"; lit "ten"; lit "n"; lit "n"] service_down
  = (Exit 1, service_down).
Proof.
  apply (proj1 (proj2 (main_exit_codes elements None
                         [lit "cancer"; lit "ten"; lit "n"; lit "n"] service_down))
           (lit "cancer") (lit "ten") [lit "n"; lit "n"]).
  - reflexivity.
  - vm_compute. discriminate.
  - vm_compute. reflexivity.
Defined.

(** X17. Whatever the sink writes for [main] goes to the console or to a
    file whose name ends in ".csv". *)
Theorem main_saves_csv io env_api_key stdin w papers output_file :
  (papers, Some output_file) ∈ saved (snd (main io env_api_key stdin w)) ->
  (papers, Some output_file) ∈ saved w \/
  endswith output_file (lit ".csv") = true.
Proof.
  unfold main.
  destruct stdin as [|q stdin]; [by left|].
  destruct stdin as [|n stdin]; [by left|].
  destruct (if truthy _ then _ else _); [|by left].
  destruct stdin as [|c stdin]; [by left|].
  destruct (bool_decide (strip (lower c) = lit "y")).
  - destruct stdin as [|f stdin]; [by left|].
    destruct stdin as [|d stdin]; [by left|].
    match goal with
    | |- context [run ?io ?fd ?q ?n ?o ?w] =>
        pose proof (run_saved io fd q n o w) as Hs;
        cbv zeta in Hs; destruct (run io fd q n o w) as [[r|e] w']
    end; cbn [fst snd] in *; rewrite Hs, elem_of_app; intros [H|H]; auto.
    + destruct r as [|p ps]; [by inversion H|].
      apply list_elem_of_singleton in H. injection H as _ ->. right.
      apply csv_name_endswith.
    + by inversion H.
  - destruct stdin as [|d stdin]; [by left|].
    match goal with
    | |- context [run ?io ?fd ?q ?n ?o ?w] =>
        pose proof (run_saved io fd q n o w) as Hs;
        cbv zeta in Hs; destruct (run io fd q n o w) as [[r|e] w']
    end; cbn [fst snd] in *; rewrite Hs, elem_of_app; intros [H|H]; auto.
    + destruct r as [|p ps]; [by inversion H|].
      apply list_elem_of_singleton in H. by injection H.
    + by inversion H.
Qed.

Lemma main_saves_csv_witness :
  (List.filter kept (parse_articles elements demo_document), Some (lit "out.csv"))
    ∈ saved demo_service \/
  endswith (lit "out.csv") (lit ".csv") = true.
Proof.
  apply (main_saves_csv elements None
           [lit "cancer"; lit "10"; lit "y"; lit "out"; lit "n"] demo_service).
  vm_compute. left.
Defined.

(** ** The records that [run] returns *)

Lemma company_implies_industry_author article :
  company_affiliations (authors_loop article) <> ∅ ->
  non_academic_authors (authors_loop article) <> [].
Proof.
  intros H. apply set_choose_L in H as [x Hx].
  rewrite authors_loop_companies, elem_of_list_to_set, list_elem_of_omap in Hx.
  destruct Hx as (a & Ha & Hc). unfold affiliation_texts in Ha.
  apply list_elem_of_bind in Ha as (author & Ha & Hauthor).
  unfold company_of in Hc.
  destruct (is_non_academic_affiliation (Some a)) eqn:En; [|done].
  assert (Hin : name_of author ∈ non_academic_authors (authors_loop article)).
  { unfold authors_loop. rewrite foldl_author_step_names. simpl.
    apply list_elem_of_fmap. exists author. split; [done|].
    apply list_elem_of_In, filter_In. split; [by apply list_elem_of_In|].
    unfold is_industry_author. apply existsb_exists. exists a.
    split; [by apply list_elem_of_In | done]. }
  intros E. rewrite E in Hin. inversion Hin.
Qed.

Lemma run_result io self query max_results output_file w result w' :
  run io self query max_results output_file w = (Ok result, w') ->
  exists papers,
    result = List.filter kept papers /\
    forall P : PaperInfo -> Prop,
      (forall article paper,
         parse_pubmed_article io article = Some paper -> P paper) ->
      Forall P papers.
Proof.
  unfold run, bind at 1.
  destruct (search_papers self query max_results w) as [[pmids|e] w1]; [|done].
  destruct pmids as [|p pmids].
  { intros [= <- <-]. exists []. split; [done|]. by intros. }
  unfold bind at 1.
  destruct (fetch_paper_details_outcome io self (p :: pmids) w1) as (papers & -> & HP).
  unfold bind at 1, lift.
  unfold filter_papers_with_pharma_biotech_affiliations.
  rewrite filter_loop_outcome. destruct (_ && _); [done|]. cbn [app].
  unfold bind, ret. intros H. exists papers. split; [|done].
  destruct (List.filter kept papers) as [|f fs]; [by injection H|].
  unfold save_to_csv in H. destruct (sink_failure _ _ _); [done|]. by injection H.
Qed.

Section Returned.

Variable iteration_order : gset str -> list str.
Hypothesis iteration_order_perm :
  forall X : gset str, iteration_order X ≡ₚ elements X.

(** X18. Every record that [run] returns was parsed from a record node
    that has at least one company affiliation and at least one non-academic
    author; no returned record has the company field "N/A". *)
Theorem run_returns_only_industry self query max_results output_file w result w' :
  run iteration_order self query max_results output_file w = (Ok result, w') ->
  Forall (fun paper =>
            Company_Affiliations paper <> lit "N/A" /\
            exists article,
              parse_pubmed_article iteration_order article = Some paper /\
              company_affiliations (authors_loop article) <> ∅ /\
              non_academic_authors (authors_loop article) <> []) result.
Proof using iteration_order_perm.
  intros H. apply run_result in H as (papers & -> & HP).
  pose proof (HP (fun paper => exists article,
                    parse_pubmed_article iteration_order article = Some paper)
                ltac:(by eexists)) as Hparsed.
  apply Forall_forall. intros paper Hin.
  apply list_elem_of_In, filter_In in Hin as [Hin Hk].
  apply list_elem_of_In in Hin.
  destruct (proj1 (Forall_forall _ _) Hparsed paper Hin) as [article Ha].
  split.
  - unfold kept, is_NA in Hk. by apply negb_true_iff, bool_decide_eq_false in Hk.
  - exists article. split; [done|].
    apply (kept_iff iteration_order iteration_order_perm _ _ Ha) in Hk.
    split; [done | by apply company_implies_industry_author].
Qed.

End Returned.

Lemma run_returns_only_industry_witness :
  Forall (fun paper =>
            Company_Affiliations paper <> lit "N/A" /\
            exists article,
              parse_pubmed_article elements article = Some paper /\
              company_affiliations (authors_loop article) <> ∅ /\
              non_academic_authors (authors_loop article) <> [])
         (List.filter kept (parse_articles elements demo_document)).
Proof.
  apply (run_returns_only_industry elements elements_perm plain_finder
           (lit "cancer") 10 None demo_service _
           (snd (run elements plain_finder (lit "cancer") 10 None demo_service))).
  vm_compute. reflexivity.
Defined.

(** ** The pauses of a fetch *)

Lemma documents_le replies n k : documents replies n k <= k.
Proof.
  revert n. induction k as [|k IH]; intros n; simpl; [done|].
  specialize (IH (S n)). destruct (batch_document (replies n)); lia.
Qed.

Lemma fetch_events_sleeps replies n self bs :
  omap (fun e => match e with Slept d => Some d | _ => None end)
       (fetch_events replies n self bs)
  = replicate (documents replies n (length bs)) (1 # 2)%Q.
Proof.
  revert n. induction bs as [|b bs IH]; intros n; [done|].
  cbn [fetch_events omap list_omap length documents]. rewrite omap_app, IH.
  by destruct (batch_document (replies n)).
Qed.

(** X19. The pauses that a fetch adds are all of half a time unit, and
    there are as many of them as there are batches that yield a document:
    at most one per batch, as many as the batches when every batch yields
    one, and none when none does. *)
Theorem fetch_paper_details_pauses io self pmids w :
  let k := documents (replies w) (requests_made w) (length (batches pmids)) in
  sleeps (snd (fetch_paper_details io self pmids w))
  = sleeps w ++ replicate k (1 # 2)%Q /\
  k <= (length pmids + 99) / 100 /\
  ((forall i, is_Some (batch_document (replies w i))) ->
   k = (length pmids + 99) / 100) /\
  ((forall i, batch_document (replies w i) = None) -> k = 0).
Proof.
  cbv zeta.
  destruct (fetch_paper_details_outcome io self pmids w) as (papers & -> & _).
  cbn [snd]. rewrite sleeps_extend, fetch_events_sleeps, <- batches_length.
  split; [done|]. split; [apply documents_le|].
  generalize (length (batches pmids)) (requests_made w). intros k n. split.
  - intros Hall. revert n. induction k as [|k IH]; intros n; [done|].
    simpl. rewrite IH. by destruct (Hall n) as [root ->].
  - intros Hnone. revert n. induction k as [|k IH]; intros n; [done|].
    simpl. by rewrite IH, Hnone.
Qed.

Lemma fetch_paper_details_pauses_witness :
  documents (replies service_down) (requests_made service_down)
            (length (batches (replicate 150 (lit "1")))) = 0.
Proof.
  apply (fetch_paper_details_pauses elements plain_finder
           (replicate 150 (lit "1")) service_down).
  intros i. reflexivity.
Defined.

(** ** The requests of a search *)

Lemma backoff_world url params w :
  exists es,
    snd (backoff_outcome url params w) = extend w es /\
    Forall (fun e => e = Requested url params \/ is_request e = false) es.
Proof.
  unfold backoff_outcome.
  repeat match goal with
         | |- context [failure_of ?x] => destruct (failure_of x) as [[? ?]|]
         end;
    eexists; (split; [reflexivity|]);
    repeat (apply Forall_cons; split; [first [by left | by right]|]);
    apply Forall_nil_2.
Qed.

Lemma search_params_lookup self query max_results k :
  search_params self query max_results !! k
  = if bool_decide (k = lit "sort") then Some (lit "relevance")
    else if bool_decide (k = lit "retmode") then Some (lit "json")
    else if bool_decide (k = lit "retmax") then Some (str_of_int max_results)
    else if bool_decide (k = lit "term") then Some query
    else if bool_decide (k = lit "db") then Some (lit "pubmed")
    else if bool_decide (k = lit "api_key") then configured_key self
    else None.
Proof.
  unfold search_params.
  repeat case_bool_decide; subst;
    rewrite ?lookup_insert_eq; try done;
    repeat (rewrite lookup_insert_ne by congruence);
    rewrite ?lookup_insert_eq; try done;
    rewrite base_params_lookup; by repeat case_bool_decide.
Qed.

(** X20. Every request that a search issues is either an attempt at the
    search address, with the parameters [db = pubmed], [term] the query as
    given, [retmax] the number of results, [retmode = json],
    [sort = relevance], the access token as [api_key] exactly when a
    non-empty one is configured, and nothing else; or the follow-up
    request, which carries no parameters of its own. *)
Theorem search_requests_parameters self query max_results w e :
  e ∈ log (snd (search_papers self query max_results w)) ->
  e ∉ log w -> is_request e = true ->
  (e = Requested esearch_url (search_params self query max_results) \/
   exists address, e = Requested address ∅) /\
  forall k,
    search_params self query max_results !! k
    = if bool_decide (k = lit "sort") then Some (lit "relevance")
      else if bool_decide (k = lit "retmode") then Some (lit "json")
      else if bool_decide (k = lit "retmax") then Some (str_of_int max_results)
      else if bool_decide (k = lit "term") then Some query
      else if bool_decide (k = lit "db") then Some (lit "pubmed")
      else if bool_decide (k = lit "api_key") then configured_key self
      else None.
Proof.
  intros Hin Hnew Hreq. split; [|apply search_params_lookup].
  revert Hin. unfold search_papers, bind at 1, lift, validate_query.
  destruct (_ || _); [done|]. destruct (_ <? _); [done|].
  destruct (max_results <? 1)%Z; [done|].
  unfold bind. rewrite _make_api_request_outcome.
  destruct (backoff_world esearch_url (search_params self query max_results) w)
    as (es & Hw & Hes).
  destruct (backoff_outcome _ _ w) as [[[response|]|err] w1]; cbn [fst snd] in *;
    subst w1.
  - unfold catch, bind, requests_get, lift, ret, raise.
    assert (Hlog : forall r : result (list PMID) * World,
              snd r = record (Requested (url response) ∅) (extend w es) ->
              e ∈ log (snd r) ->
              e = Requested esearch_url (search_params self query max_results) \/
              exists address, e = Requested address ∅).
    { intros r -> He. cbn [record extend log] in He.
      rewrite <- app_assoc, !elem_of_app in He.
      destruct He as [He | [He | He]]; [done| |].
      - destruct (proj1 (Forall_forall _ _) Hes e He) as [-> | Hf]; [by left|].
        congruence.
      - apply list_elem_of_singleton in He as ->. right. by eexists. }
    destruct (replies (extend w es) (requests_made (extend w es))) as [d|sc c u];
      [|destruct c]; by apply Hlog.
  - unfold raise. cbn [snd extend log]. rewrite elem_of_app.
    intros [He|He]; [done|].
    destruct (proj1 (Forall_forall _ _) Hes e He) as [-> | Hf]; [by left|].
    congruence.
  - cbn [snd extend log]. rewrite elem_of_app. intros [He|He]; [done|].
    destruct (proj1 (Forall_forall _ _) Hes e He) as [-> | Hf]; [by left|].
    congruence.
Qed.

Lemma search_requests_parameters_witness :
  (Requested esearch_url (search_params plain_finder (lit "cancer") 5)
   = Requested esearch_url (search_params plain_finder (lit "cancer") 5) \/
   exists address,
     Requested esearch_url (search_params plain_finder (lit "cancer") 5)
     = Requested address ∅) /\
  forall k,
    search_params plain_finder (lit "cancer") 5 !! k
    = if bool_decide (k = lit "sort") then Some (lit "relevance")
      else if bool_decide (k = lit "retmode") then Some (lit "json")
      else if bool_decide (k = lit "retmax") then Some (str_of_int 5)
      else if bool_decide (k = lit "term") then Some (lit "cancer")
      else if bool_decide (k = lit "db") then Some (lit "pubmed")
      else if bool_decide (k = lit "api_key") then configured_key plain_finder
      else None.
Proof.
  apply (search_requests_parameters plain_finder (lit "cancer") 5 service_down).
  - vm_compute. left.
  - vm_compute. inversion 1.
  - reflexivity.
Defined.
